(** * The editor view controller of prosemirror-view ([src/index.js])

    A shallow embedding of the [EditorView] update cycle: prop resolution
    ([someProp]), the document-root decoration ([computeDocDeco]), the
    editable flag ([getEditable]), the node-view registry and the state
    update itself ([updateStateInner]), the replacement of the props
    ([update], [setProps]), the [root] getter and the construction and
    destruction of the view, followed by the properties its design
    document states about them and by further properties of the code.

    JavaScript values are an inductive type; the view is a record that is
    threaded through a state-and-exception monad; the collaborators that
    live outside [index.js] (the rendered-node tree, the DOM observer, the
    selection synchroniser, the scroll helpers, plugin views) are calls that
    are logged in a chronological trace and answered by an environment. *)

From stdpp Require Import base strings gmap list pretty.

Local Open Scope string_scope.
Local Open Scope Z_scope.
Local Open Scope list_scope.

(** ** JavaScript values *)

(** Functions and objects are reference values: [ref] is their identity
    (what [==] compares). An object carries its own enumerable properties
    in [for ... in] order. *)
#[warnings="-register-all"]
Inductive value : Type :=
| VUndefined
| VNull
| VBool (b : bool)
| VNum (n : Z)
| VStr (s : string)
| VObj (ref : nat) (fields : list (string * value))
| VFun (ref : nat).

(** [v != null] is false exactly for [null] and [undefined]. *)
Definition nullish (v : value) : bool :=
  match v with
  | VUndefined | VNull => true
  | _ => false
  end.

Definition str_nonempty (s : string) : bool :=
  match s with
  | EmptyString => false
  | String _ _ => true
  end.

(** ToBoolean. *)
Definition truthy (v : value) : bool :=
  match v with
  | VUndefined | VNull => false
  | VBool b => b
  | VNum n => negb (n =? 0)
  | VStr s => str_nonempty s
  | VObj _ _ | VFun _ => true
  end.

(** [typeof v == "function"]. *)
Definition is_function (v : value) : bool :=
  match v with
  | VFun _ => true
  | _ => false
  end.

(** [a === false]. *)
Definition strict_is_false (v : value) : bool :=
  match v with
  | VBool false => true
  | _ => false
  end.

(** [a == b] on the modelled values: identity on references, equality on
    primitives of one type, and [null == undefined]. The numeric coercions
    between primitives of different types are not modelled (they compare
    unequal here); the only use is on node-view constructors. *)
Definition loose_eq (a b : value) : bool :=
  match a, b with
  | (VUndefined | VNull), (VUndefined | VNull) => true
  | VBool x, VBool y => Bool.eqb x y
  | VNum x, VNum y => x =? y
  | VStr x, VStr y => String.eqb x y
  | VObj r _, VObj r' _ => Nat.eqb r r'
  | VFun r, VFun r' => Nat.eqb r r'
  | _, _ => false
  end.

(** The own enumerable properties [for (k in v)] visits, with [v[k]]: the
    fields of an object, the indices of a string, nothing otherwise. *)
Definition own_entries (v : value) : list (string * value) :=
  match v with
  | VObj _ fields => fields
  | VStr s =>
      imap (fun i c => (pretty i, VStr (String c EmptyString)))
           (String.list_ascii_of_string s)
  | _ => []
  end.

(** ** Exceptions and the state monad *)

Inductive Error : Type :=
| TypeError (msg : string)        (* raised by the language: calling a non-function *)
| Thrown (tag : nat).             (* raised by a collaborator *)

Inductive Result (A : Type) : Type :=
| Ok (a : A)
| Throw (e : Error).
Arguments Ok {A} a.
Arguments Throw {A} e.

(** A computation over a mutable state [S] that returns or throws. *)
Definition M (S A : Type) : Type := S -> Result A * S.

Definition ret {S A} (a : A) : M S A := fun s => (Ok a, s).

Definition throw {S A} (e : Error) : M S A := fun s => (Throw e, s).

Definition bind {S A B} (m : M S A) (k : A -> M S B) : M S B :=
  fun s =>
    match m s with
    | (Ok a, s') => k a s'
    | (Throw e, s') => (Throw e, s')
    end.

Definition get {S} : M S S := fun s => (Ok s, s).

Definition modify {S} (f : S -> S) : M S unit := fun s => (Ok tt, f s).

Declare Scope js_scope.
Delimit Scope js_scope with js.
Notation "'let*' x ':=' m 'in' k" := (bind m (fun x => k))
  (at level 10, x name, m at level 100, k at level 200) : js_scope.
Local Open Scope js_scope.

(** ** Documents, selections, plugins and editor states

    These come from the document-model and state packages; the records hold
    what the controller reads from them. *)

Record Node : Type := {
  node_ref : nat;
  content_size : Z                  (* [doc.content.size] *)
}.

Definition Mark : Type := nat.

Record Selection : Type := {
  sel_anchor : Z;
  sel_head : Z;
  sel_from : Z;
  sel_empty : bool;                 (* [sel.empty] *)
  sel_isNode : bool;                (* [sel instanceof NodeSelection] *)
  sel_sharedDepth : nat;            (* [sel.$anchor.sharedDepth(sel.head)] *)
  sel_anchorStart : nat -> Z        (* [sel.$anchor.start(depth)] *)
}.

Record Plugin : Type := {
  props : gmap string value;        (* [plugin.props] *)
  spec_view : option nat            (* [plugin.spec.view], a factory function *)
}.

(** The plugin array of a state is compared by identity ([!=]). *)
Record PluginArray : Type := {
  array_ref : nat;
  items : list Plugin
}.

Record EditorState : Type := {
  doc : Node;
  selection : Selection;
  storedMarks : option (list Mark);
  scrollToSelection : Z;
  plugins : PluginArray
}.

(** [obj[name]]: a missing property reads as [undefined]. *)
Definition prop_get (obj : gmap string value) (name : string) : value :=
  default VUndefined (obj !! name).

(** ** [someProp] (index.js 269-277) *)

Section SomeProp.
Context {S : Type}.

(** [f ? f(prop) : prop] *)
Definition apply_opt (f : option (value -> M S value)) (prop : value)
  : M S value :=
  match f with
  | Some f => f prop
  | None => ret prop
  end.

(** The loop over [plugins] (lines 273-276); falling off the end returns
    [undefined]. *)
Fixpoint someProp_plugins (plugins : list Plugin) (propName : string)
    (f : option (value -> M S value)) : M S value :=
  match plugins with
  | [] => ret VUndefined
  | p :: rest =>
      let prop := prop_get (props p) propName in
      if nullish prop then someProp_plugins rest propName f
      else
        let* value := apply_opt f prop in
        if truthy value then ret value
        else someProp_plugins rest propName f
  end.

(** [someProp(propName, f)] on a view whose direct props are [_props] and
    whose state has the plugins [plugins]. *)
Definition someProp (_props : gmap string value) (plugins : list Plugin)
    (propName : string) (f : option (value -> M S value)) : M S value :=
  let prop := prop_get _props propName in
  if nullish prop then someProp_plugins plugins propName f
  else
    let* value := apply_opt f prop in
    if truthy value then ret value
    else someProp_plugins plugins propName f.

(** The prop values [someProp] goes over, in order: the direct one, then
    one per plugin. *)
Definition candidates (_props : gmap string value) (plugins : list Plugin)
    (propName : string) : list value :=
  prop_get _props propName
    :: map (fun p => prop_get (props p) propName) plugins.

(** [passed f cs s s']: every value of [cs] was looked at, starting in
    state [s] and ending in [s'], and none of them ended the resolution: it
    was [null] or [undefined] (and [f] was not called), or [f] returned a
    falsy result on it. *)
Inductive passed (f : option (value -> M S value))
  : list value -> S -> S -> Prop :=
| passed_nil s : passed f [] s s
| passed_null c cs s s' :
    nullish c = true -> passed f cs s s' -> passed f (c :: cs) s s'
| passed_falsy c cs s s1 s' r :
    nullish c = false ->
    apply_opt f c s = (Ok r, s1) -> truthy r = false ->
    passed f cs s1 s' -> passed f (c :: cs) s s'.
End SomeProp.

(** ** Decorations, the view and its collaborators *)

(** [Decoration.node(from, to, attrs)] *)
Record NodeDeco : Type := {
  deco_from : Z;
  deco_to : Z;
  deco_attrs : gmap string string
}.

(** A decoration source as [viewDecorations] returns it. *)
Inductive InnerDeco : Type := InnerDecoRef (ref : nat).

(** The root view descriptor, a DOM node, a stored scroll position: opaque
    references; a client rectangle. *)
Inductive DocView : Type := DocViewRef (ref : nat).
Inductive DomNode : Type := DomNodeRef (ref : nat).
Inductive ScrollPos : Type := ScrollPosRef (ref : nat).

Record Rect : Type := {
  rect_left : Z;
  rect_right : Z;
  rect_top : Z;
  rect_bottom : Z
}.

(** A plugin view: an object with optional [update] and [destroy] hooks. *)
Record PluginView : Type := {
  pv_ref : nat;
  pv_update : bool;                 (* [pluginView.update] is present *)
  pv_destroy : bool                 (* [pluginView.destroy] is present *)
}.

(** [view.cursorWrapper]: the placeholder image and its widget decoration
    [Decoration.widget(head, dom, {raw: true, marks})]. *)
Record CursorWrapper : Type := {
  cw_pos : Z;
  cw_marks : list Mark
}.

(** The fields of an [EditorView] that the update cycle reads or writes. *)
Record View : Type := {
  _props : gmap string value;       (* the direct props, [state] apart *)
  state : EditorState;
  composing : bool;
  editable : bool;
  markCursor : option (list Mark);
  cursorWrapper : option CursorWrapper;
  nodeViews : gmap string value;
  docView : DocView;
  trackWrites : option DomNode;
  mouseDown : bool;                 (* [view.mouseDown] is set *)
  pluginViews : list PluginView;
  scrollTop : Z;                    (* [view.dom.scrollTop] *)
  overflowAnchor : option string    (* [view.dom.style.overflowAnchor] *)
}.

(** The calls the controller makes on its collaborators and the writes it
    makes on the DOM element, as they appear in the trace. *)
Inductive Event : Type :=
| ClearComposition                                   (* clearComposition(view) *)
| EnsureListeners                                    (* ensureListeners(view) *)
| StoreScrollPos                                     (* storeScrollPos(view) *)
| ObserverStop                                       (* domObserver.stop() *)
| ObserverStart                                      (* domObserver.start() *)
| ObserverSetCurSelection                            (* domObserver.setCurSelection() *)
| DocViewUpdate (dv : DocView) (d : Node)
    (outer : list NodeDeco) (inner : InnerDeco)      (* docView.update(...) *)
| DocViewUpdateOuterDeco (dv : DocView)
    (outer : list NodeDeco)                          (* docView.updateOuterDeco(...) *)
| DocViewDestroy (dv : DocView)                      (* docView.destroy() *)
| DocViewDesc (d : Node) (outer : list NodeDeco)
    (inner : InnerDeco)                              (* docViewDesc(...) *)
| SelectionToDOM (force : bool)                      (* selectionToDOM(view, force) *)
| SyncNodeSelection (sel : Selection)                (* syncNodeSelection(view, sel) *)
| FocusPreventScroll                                 (* focusPreventScroll(view.dom) *)
| PluginViewDestroy (pv : PluginView)                (* pluginView.destroy() *)
| PluginViewCreate (factory : nat)                   (* plugin.spec.view(view) *)
| PluginViewUpdate (pv : PluginView)
    (prev : EditorState)                             (* pluginView.update(view, prev) *)
| SetScrollTop (top : Z)                             (* view.dom.scrollTop = top *)
| CallHandler (fn : nat)                             (* f(view), a handler prop *)
| ScrollRectIntoView (rect : Rect)
    (startDOM : option DomNode)                      (* scrollRectIntoView(...) *)
| ResetScrollPos (pos : ScrollPos).                  (* resetScrollPos(pos) *)

(** What the world outside [index.js] answers. An answer may depend on
    everything the controller did so far: the trace, oldest call first,
    with the call that is being answered last. *)
Record Env : Type := {
  browser_ie : bool;
  browser_chrome : bool;
  (** whether a call throws instead of returning *)
  raises : list Event -> Event -> option Error;
  (** [value(view.state)] for a function-valued prop *)
  call_fn : nat -> EditorState -> value;
  (** [String(f)] for a function *)
  fn_source : nat -> string;
  (** [a.eq(b)] on selections *)
  sel_eq : Selection -> Selection -> bool;
  (** [viewDecorations(view)] *)
  viewDecorations : View -> InnerDeco;
  (** [docView.matchesNode(doc, outerDeco, innerDeco)] *)
  matchesNode :
    list Event -> DocView -> Node -> list NodeDeco -> InnerDeco -> bool;
  (** what [docView.update(...)] returned *)
  update_result : list Event -> bool;
  (** whether the tree code just wrote to the node [view.trackWrites] and
      reset that field to [null] *)
  writes_tracked : list Event -> bool;
  (** the descriptor [docViewDesc(...)] built *)
  new_docView : list Event -> DocView;
  (** [view.root.getSelection().focusNode] *)
  focusNode : list Event -> option DomNode;
  (** [domObserver.currentSelection.eq(view.root.getSelection())] *)
  currentSelection_eq : list Event -> bool;
  (** [anchorInRightPlace(view)] *)
  anchorInRightPlace : list Event -> bool;
  (** the object [storeScrollPos(view)] returned *)
  new_scrollPos : list Event -> ScrollPos;
  (** the object [plugin.spec.view(view)] returned *)
  new_pluginView : list Event -> PluginView;
  (** what a handler prop returned *)
  handler_result : list Event -> value;
  (** [docView.domAfterPos(pos).getBoundingClientRect()] *)
  domAfterPos_rect : list Event -> Z -> Rect;
  (** [view.coordsAtPos(pos)] *)
  coordsAtPos : list Event -> Z -> Rect
}.

(** The mutable world of an update: the view and the trace so far. *)
Record World : Type := {
  view : View;
  trace : list Event
}.

(** *** Field updates *)

Definition with_view (f : View -> View) (w : World) : World :=
  {| view := f (view w); trace := trace w |}.

Definition set_state (s : EditorState) (v : View) : View :=
  {| _props := _props v; state := s; composing := composing v;
     editable := editable v; markCursor := markCursor v;
     cursorWrapper := cursorWrapper v; nodeViews := nodeViews v;
     docView := docView v; trackWrites := trackWrites v;
     mouseDown := mouseDown v; pluginViews := pluginViews v;
     scrollTop := scrollTop v; overflowAnchor := overflowAnchor v |}.

Definition set_composing (b : bool) (v : View) : View :=
  {| _props := _props v; state := state v; composing := b;
     editable := editable v; markCursor := markCursor v;
     cursorWrapper := cursorWrapper v; nodeViews := nodeViews v;
     docView := docView v; trackWrites := trackWrites v;
     mouseDown := mouseDown v; pluginViews := pluginViews v;
     scrollTop := scrollTop v; overflowAnchor := overflowAnchor v |}.

Definition set_editable (b : bool) (v : View) : View :=
  {| _props := _props v; state := state v; composing := composing v;
     editable := b; markCursor := markCursor v;
     cursorWrapper := cursorWrapper v; nodeViews := nodeViews v;
     docView := docView v; trackWrites := trackWrites v;
     mouseDown := mouseDown v; pluginViews := pluginViews v;
     scrollTop := scrollTop v; overflowAnchor := overflowAnchor v |}.

Definition set_cursorWrapper (c : option CursorWrapper) (v : View) : View :=
  {| _props := _props v; state := state v; composing := composing v;
     editable := editable v; markCursor := markCursor v;
     cursorWrapper := c; nodeViews := nodeViews v;
     docView := docView v; trackWrites := trackWrites v;
     mouseDown := mouseDown v; pluginViews := pluginViews v;
     scrollTop := scrollTop v; overflowAnchor := overflowAnchor v |}.

Definition set_nodeViews (n : gmap string value) (v : View) : View :=
  {| _props := _props v; state := state v; composing := composing v;
     editable := editable v; markCursor := markCursor v;
     cursorWrapper := cursorWrapper v; nodeViews := n;
     docView := docView v; trackWrites := trackWrites v;
     mouseDown := mouseDown v; pluginViews := pluginViews v;
     scrollTop := scrollTop v; overflowAnchor := overflowAnchor v |}.

Definition set_docView (d : DocView) (v : View) : View :=
  {| _props := _props v; state := state v; composing := composing v;
     editable := editable v; markCursor := markCursor v;
     cursorWrapper := cursorWrapper v; nodeViews := nodeViews v;
     docView := d; trackWrites := trackWrites v;
     mouseDown := mouseDown v; pluginViews := pluginViews v;
     scrollTop := scrollTop v; overflowAnchor := overflowAnchor v |}.

Definition set_trackWrites (t : option DomNode) (v : View) : View :=
  {| _props := _props v; state := state v; composing := composing v;
     editable := editable v; markCursor := markCursor v;
     cursorWrapper := cursorWrapper v; nodeViews := nodeViews v;
     docView := docView v; trackWrites := t;
     mouseDown := mouseDown v; pluginViews := pluginViews v;
     scrollTop := scrollTop v; overflowAnchor := overflowAnchor v |}.

Definition set_pluginViews (p : list PluginView) (v : View) : View :=
  {| _props := _props v; state := state v; composing := composing v;
     editable := editable v; markCursor := markCursor v;
     cursorWrapper := cursorWrapper v; nodeViews := nodeViews v;
     docView := docView v; trackWrites := trackWrites v;
     mouseDown := mouseDown v; pluginViews := p;
     scrollTop := scrollTop v; overflowAnchor := overflowAnchor v |}.

Definition set_scrollTop (z : Z) (v : View) : View :=
  {| _props := _props v; state := state v; composing := composing v;
     editable := editable v; markCursor := markCursor v;
     cursorWrapper := cursorWrapper v; nodeViews := nodeViews v;
     docView := docView v; trackWrites := trackWrites v;
     mouseDown := mouseDown v; pluginViews := pluginViews v;
     scrollTop := z; overflowAnchor := overflowAnchor v |}.

(** ** The controller *)

Inductive ScrollMode : Type :=
| ScrollReset                       (* "reset" *)
| ScrollToSelection                 (* "to selection" *)
| ScrollPreserve.                   (* "preserve" *)

(** Truthiness of a field that holds an object or [null]. *)
Definition is_set {A} (o : option A) : bool :=
  match o with
  | Some _ => true
  | None => false
  end.

(** Truthiness of [attrs[attr]] for string-valued attributes. *)
Definition attr_truthy (o : option string) : bool :=
  match o with
  | Some s => str_nonempty s
  | None => false
  end.

(** [selectionContextChanged(sel1, sel2)] (index.js 505-508) *)
Definition selectionContextChanged (sel1 sel2 : Selection) : bool :=
  let depth := Nat.min (sel_sharedDepth sel1) (sel_sharedDepth sel2) in
  negb (sel_anchorStart sel1 depth =? sel_anchorStart sel2 depth).

(** [changedNodeViews(a, b)] (index.js 519-527) *)
Definition changedNodeViews (a b : gmap string value) : bool :=
  existsb (fun '(prop, x) => negb (loose_eq x (prop_get b prop)))
          (map_to_list a)
  || negb (size a =? size b)%nat.

Section Controller.
Variable env : Env.

(** [String(v)] *)
Definition to_string (v : value) : string :=
  match v with
  | VUndefined => "undefined"
  | VNull => "null"
  | VBool true => "true"
  | VBool false => "false"
  | VNum n => pretty n
  | VStr s => s
  | VObj _ _ => "[object Object]"
  | VFun r => fn_source env r
  end.

(** *** [computeDocDeco] (index.js 473-489) *)

(** One step of the loop [for (let attr in value)] (lines 481-484). Reading
    a missing [attrs.class] would give [undefined]. *)
Definition addAttribute (attrs : gmap string string)
    (entry : string * value) : gmap string string :=
  let '(attr, x) := entry in
  if String.eqb attr "class" then
    <["class" := default "undefined" (attrs !! "class")
                   +:+ " " +:+ to_string x]> attrs
  else if negb (attr_truthy (attrs !! attr))
          && negb (String.eqb attr "contenteditable")
          && negb (String.eqb attr "nodeName")
  then <[attr := to_string x]> attrs
  else attrs.

(** The callback given to [someProp("attributes", ...)] (lines 478-486);
    it returns [undefined]. *)
Definition attributesCallback (st : EditorState) (val : value)
  : M (gmap string string) value :=
  fun attrs =>
    let val :=
      match val with
      | VFun r => call_fn env r st
      | _ => val
      end in
    (Ok VUndefined,
     if truthy val then foldl addAttribute attrs (own_entries val)
     else attrs).

(** The attribute object before the props are merged in (lines 474-476). *)
Definition initialAttrs (v : View) : gmap string string :=
  <["contenteditable" := to_string (VBool (editable v))]>
    (<["class" := "ProseMirror"]> ∅).

Definition computeDocDeco (v : View) : Result (list NodeDeco) :=
  match someProp (_props v) (items (plugins (state v))) "attributes"
                 (Some (attributesCallback (state v))) (initialAttrs v) with
  | (Ok _, attrs) =>
      Ok [ {| deco_from := 0;
              deco_to := content_size (doc (state v));
              deco_attrs := attrs |} ]
  | (Throw e, _) => Throw e
  end.

(** *** [getEditable] (index.js 501-503) *)

(** [value(view.state)]: calling anything but a function is a TypeError. *)
Definition call_with_state {S} (st : EditorState) (val : value)
  : M S value :=
  match val with
  | VFun r => ret (call_fn env r st)
  | _ => throw (TypeError "value is not a function")
  end.

Definition getEditable (v : View) : Result bool :=
  match someProp (_props v) (items (plugins (state v))) "editable"
          (Some (fun val =>
                   let* r := call_with_state (state v) val in
                   ret (VBool (strict_is_false r)))) tt with
  | (Ok r, _) => Ok (negb (truthy r))
  | (Throw e, _) => Throw e
  end.

(** *** [buildNodeViews] (index.js 510-517) *)

(** One step of the loop [for (let prop in obj)] (lines 513-514); the map
    holds the own properties of [result]. [result] is a plain object
    ([{}], line 511), so it inherits the [__proto__] accessor of
    [Object.prototype]: [result["__proto__"] = x] runs that setter, which
    adds no own property (what it does to the prototype of [result] is not
    modelled). *)
Definition addNodeView (result : gmap string value)
    (entry : string * value) : gmap string value :=
  let '(prop, x) := entry in
  if String.eqb prop "__proto__" then result
  else
    match result !! prop with
    | Some _ => result
    | None => <[prop := x]> result
    end.

Definition buildNodeViews (v : View) : Result (gmap string value) :=
  match someProp (_props v) (items (plugins (state v))) "nodeViews"
          (Some (fun obj => fun result =>
                   (Ok VUndefined,
                    foldl addNodeView result (own_entries obj)))) ∅ with
  | (Ok _, result) => Ok result
  | (Throw e, _) => Throw e
  end.

(** *** Calls on the collaborators *)

Definition get_view : M World View := fun w => (Ok (view w), w).

Definition modify_view (f : View -> View) : M World unit :=
  modify (with_view f).

Definition lift {A} (r : Result A) : M World A := fun w => (r, w).

Definition log (ev : Event) (w : World) : World :=
  {| view := view w; trace := trace w ++ [ev] |}.

(** A DOM property write: it is logged and cannot throw. *)
Definition emit (ev : Event) : M World unit := modify (log ev).

(** A call on a collaborator: it is logged, and returns or throws as the
    environment says. *)
Definition call (ev : Event) : M World unit :=
  fun w =>
    match raises env (trace w) ev with
    | Some e => (Throw e, log ev w)
    | None => (Ok tt, log ev w)
    end.

(** A call into the rendered-node tree. When that code writes to the DOM
    node held in [view.trackWrites], it resets the field (the comment at
    index.js 189-192). *)
Definition tree_call (ev : Event) : M World unit :=
  let* _ := call ev in
  let* w := get in
  if writes_tracked env (trace w) then modify_view (set_trackWrites None)
  else ret tt.

(** Modelled from the spec: [clearComposition] lives in [input.js], which
    is not part of the sources at hand. It terminates the composition in
    progress: afterwards [view.composing] is [false]. *)
Definition clearComposition : M World unit :=
  let* _ := call ClearComposition in
  modify_view (set_composing false).

(** *** [updateCursorWrapper] (index.js 491-499) *)
Definition updateCursorWrapper : M World unit :=
  modify_view (fun v =>
    set_cursorWrapper
      match markCursor v with
      | Some marks =>
          Some {| cw_pos := sel_head (selection (state v));
                  cw_marks := marks |}
      | None => None
      end v).

(** *** Plugin views (index.js 232-250) *)

(** [destroyPluginViews]: the views are popped off the end of the array
    one by one; [newest_first] is what is left, last element first. *)
Fixpoint destroy_loop (newest_first : list PluginView) : M World unit :=
  match newest_first with
  | [] => ret tt
  | pv :: older =>
      let* _ := modify_view (set_pluginViews (rev older)) in
      let* _ := (if pv_destroy pv then call (PluginViewDestroy pv)
                 else ret tt) in
      destroy_loop older
  end.

Definition destroyPluginViews : M World unit :=
  let* v := get_view in
  destroy_loop (rev (pluginViews v)).

(** The loop of lines 240-243. *)
Fixpoint create_loop (ps : list Plugin) : M World unit :=
  match ps with
  | [] => ret tt
  | plugin :: rest =>
      let* _ :=
        match spec_view plugin with
        | Some factory =>
            let* _ := call (PluginViewCreate factory) in
            let* w := get in
            modify_view (fun v =>
              set_pluginViews
                (pluginViews v ++ [new_pluginView env (trace w)]) v)
        | None => ret tt
        end in
      create_loop rest
  end.

(** The loop of lines 245-248. *)
Fixpoint update_loop (pvs : list PluginView) (prevState : EditorState)
  : M World unit :=
  match pvs with
  | [] => ret tt
  | pluginView :: rest =>
      let* _ := (if pv_update pluginView
                 then call (PluginViewUpdate pluginView prevState)
                 else ret tt) in
      update_loop rest prevState
  end.

Definition same_plugins (a b : EditorState) : bool :=
  (array_ref (plugins a) =? array_ref (plugins b))%nat.

Definition updatePluginViews (prevState : option EditorState)
  : M World unit :=
  let* v := get_view in
  match prevState with
  | Some prev =>
      if negb (same_plugins prev (state v)) then
        let* _ := destroyPluginViews in
        create_loop (items (plugins (state v)))
      else update_loop (pluginViews v) prev
  | None =>
      let* _ := destroyPluginViews in
      create_loop (items (plugins (state v)))
  end.

(** *** [updateStateInner] (index.js 151-230) *)

(** Lines 173-174. *)
Definition scrollMode (reconfigured : bool) (st prev : EditorState)
  : ScrollMode :=
  if reconfigured then ScrollReset
  else if scrollToSelection prev <? scrollToSelection st
       then ScrollToSelection
       else ScrollPreserve.

Definition is_preserve (scroll : ScrollMode) : bool :=
  match scroll with
  | ScrollPreserve => true
  | _ => false
  end.

(** The body of [if (updateDoc)] (lines 189-199); it returns the new
    value of [forceSelUpdate]. *)
Definition updateDocView (st : EditorState) (redraw : bool)
    (outerDeco : list NodeDeco) (innerDeco : InnerDeco)
    (forceSelUpdate : bool) : M World bool :=
  let* chromeKludge :=
    (if browser_chrome env then
       let* w := get in
       let node := focusNode env (trace w) in
       let* _ := modify_view (set_trackWrites node) in
       ret node
     else ret None) in
  let* updated :=
    (if redraw then ret false
     else
       let* v := get_view in
       let* _ := tree_call
                   (DocViewUpdate (docView v) (doc st) outerDeco innerDeco) in
       let* w := get in
       ret (update_result env (trace w))) in
  let* _ :=
    (if updated then ret tt
     else
       let* v := get_view in
       let* _ := tree_call (DocViewUpdateOuterDeco (docView v) []) in
       let* _ := tree_call (DocViewDestroy (docView v)) in
       let* _ := tree_call (DocViewDesc (doc st) outerDeco innerDeco) in
       let* w := get in
       modify_view (set_docView (new_docView env (trace w)))) in
  let* v := get_view in
  ret (if is_set chromeKludge && negb (is_set (trackWrites v)) then true
       else forceSelUpdate).

(** Lines 205-211. *)
Definition writeSelection (st : EditorState) (forceSelUpdate : bool)
  : M World unit :=
  let* w := get in
  if forceSelUpdate
     || negb (mouseDown (view w)
              && currentSelection_eq env (trace w)
              && anchorInRightPlace env (trace w))
  then call (SelectionToDOM forceSelUpdate)
  else
    let* _ := call (SyncNodeSelection (selection st)) in
    call ObserverSetCurSelection.

(** The initial value of [forceSelUpdate] (lines 186-187);
    [composing_now] is [this.composing]. *)
Definition contextForcesUpdate (updateDoc composing_now : bool)
    (prev st : EditorState) : bool :=
  updateDoc && (browser_ie env || browser_chrome env)
  && negb composing_now
  && negb (sel_empty (selection prev))
  && negb (sel_empty (selection st))
  && selectionContextChanged (selection prev) (selection st).

(** The body of [if (updateSel)] (lines 180-212). *)
Definition resync (st prev : EditorState) (redraw updateDoc : bool)
    (outerDeco : list NodeDeco) (innerDeco : InnerDeco) : M World unit :=
  let* _ := call ObserverStop in
  let* v := get_view in
  let forceSelUpdate :=
    contextForcesUpdate updateDoc (composing v) prev st in
  let* forceSelUpdate :=
    (if updateDoc
     then updateDocView st redraw outerDeco innerDeco forceSelUpdate
     else ret forceSelUpdate) in
  let* _ := writeSelection st forceSelUpdate in
  call ObserverStart.

(** [f => f(this)], the callback of line 221. *)
Definition callHandler (f : value) : M World value :=
  match f with
  | VFun r =>
      let* _ := call (CallHandler r) in
      let* w := get in
      ret (handler_result env (trace w))
  | _ => throw (TypeError "f is not a function")
  end.

(** Lines 217-229. [storeScrollPos] returns an object, so a stored
    position is truthy. *)
Definition scrollAfterUpdate (scroll : ScrollMode)
    (oldScrollPos : option ScrollPos) (st : EditorState) : M World unit :=
  match scroll with
  | ScrollReset =>
      let* _ := emit (SetScrollTop 0) in
      modify_view (set_scrollTop 0)
  | ScrollToSelection =>
      let* w := get in
      let startDOM := focusNode env (trace w) in
      let* handled :=
        someProp (_props (view w)) (items (plugins (state (view w))))
                 "handleScrollToSelection" (Some callHandler) in
      if truthy handled then ret tt
      else
        let* w := get in
        if sel_isNode (selection st) then
          call (ScrollRectIntoView
                  (domAfterPos_rect env (trace w) (sel_from (selection st)))
                  startDOM)
        else
          call (ScrollRectIntoView
                  (coordsAtPos env (trace w) (sel_head (selection st)))
                  startDOM)
  | ScrollPreserve =>
      match oldScrollPos with
      | Some pos => call (ResetScrollPos pos)
      | None => ret tt
      end
  end.

(** Lines 153-158: when stored marks are added, stop the composition. It
    returns the first value of [updateSel]. *)
Definition stopComposition (st : EditorState) : M World bool :=
  let* v := get_view in
  if is_set (storedMarks st) && composing v
  then let* _ := clearComposition in ret true
  else ret false.

(** Lines 160-167; it returns [redraw]. *)
Definition reconfigure (reconfigured : bool) : M World bool :=
  if reconfigured then
    let* v := get_view in
    let* nodeViews' := lift (buildNodeViews v) in
    let* redraw :=
      (if changedNodeViews nodeViews' (nodeViews v)
       then let* _ := modify_view (set_nodeViews nodeViews') in ret true
       else ret false) in
    let* _ := call EnsureListeners in
    ret redraw
  else ret false.

(** Lines 169-171; it returns [innerDeco] and [outerDeco]. *)
Definition refreshDecorations : M World (InnerDeco * list NodeDeco) :=
  let* v := get_view in
  let* e := lift (getEditable v) in
  let* _ := modify_view (set_editable e) in
  let* _ := updateCursorWrapper in
  let* v := get_view in
  let innerDeco := viewDecorations env v in
  let* outerDeco := lift (computeDocDeco v) in
  ret (innerDeco, outerDeco).

(** Line 177; [storeScrollPos] returns an object, which is truthy. *)
Definition storeScroll (scroll : ScrollMode) (updateSel : bool)
  : M World (option ScrollPos) :=
  let* v := get_view in
  if is_preserve scroll && updateSel && negb (is_set (overflowAnchor v))
  then
    let* _ := call StoreScrollPos in
    let* w := get in
    ret (Some (new_scrollPos env (trace w)))
  else ret None.

Definition updateStateInner (st : EditorState) (reconfigured : bool)
  : M World unit :=
  let* v := get_view in
  let prev := state v in
  let* updateSel := stopComposition st in                   (* 153-158 *)
  let* _ := modify_view (set_state st) in                   (* 159 *)
  let* redraw := reconfigure reconfigured in                (* 160-167 *)
  let* decos := refreshDecorations in                       (* 169-171 *)
  let innerDeco := fst decos in
  let outerDeco := snd decos in
  let scroll := scrollMode reconfigured st prev in          (* 173-174 *)
  let* w := get in
  let updateDoc :=                                          (* 175 *)
    redraw
    || negb (matchesNode env (trace w) (docView (view w)) (doc st)
                         outerDeco innerDeco) in
  let updateSel :=                                          (* 176 *)
    updateSel || updateDoc
    || negb (sel_eq env (selection st) (selection prev)) in
  let* oldScrollPos := storeScroll scroll updateSel in      (* 177 *)
  let* _ :=                                                 (* 179-213 *)
    (if updateSel
     then resync st prev redraw updateDoc outerDeco innerDeco
     else ret tt) in
  let* _ := updatePluginViews (Some prev) in                (* 215 *)
  scrollAfterUpdate scroll oldScrollPos st.                 (* 217-229 *)

(** [updateState(state)] (index.js 147-149) *)
Definition updateState (st : EditorState) : M World unit :=
  let* v := get_view in
  updateStateInner st (negb (same_plugins (state v) st)).

End Controller.

(** ** Reference definitions used to state the properties *)

Section Resolution.
Context {S : Type}.

(** Resolution over a list of candidate values, in the words of the design
    document: go through the values in order; the first truthy result wins
    and resolution stops; nothing found is [undefined]. *)
Fixpoint resolve (f : option (value -> M S value)) (cs : list value)
  : M S value :=
  match cs with
  | [] => ret VUndefined
  | c :: rest =>
      if nullish c then resolve f rest
      else
        let* r := apply_opt f c in
        if truthy r then ret r else resolve f rest
  end.

(** [declined g cs s s']: the values of [cs] were gone through in order,
    starting in state [s] and ending in [s']; the callback [g] was called
    on those that are not [null] or [undefined], and on no other, and
    every one of its results was falsy. *)
Inductive declined (g : value -> M S value) : list value -> S -> S -> Prop :=
| declined_nil s : declined g [] s s
| declined_null c cs s s' :
    nullish c = true -> declined g cs s s' -> declined g (c :: cs) s s'
| declined_falsy c cs s s1 s' r :
    nullish c = false ->
    g c s = (Ok r, s1) -> truthy r = false ->
    declined g cs s1 s' -> declined g (c :: cs) s s'.
End Resolution.

(** The attribute registrants [computeDocDeco] merges: the values of the
    [attributes] prop that are not [null] or [undefined], in resolution
    order. *)
Definition registrants (v : View) : list value :=
  filter (fun c => nullish c = false)
         (candidates (_props v) (items (plugins (state v))) "attributes").

(** Merging a list of registrants into an attribute object, one after the
    other. *)
Definition mergeAttributes (env : Env) (st : EditorState)
    (regs : list value) (attrs : gmap string string) : gmap string string :=
  foldl (fun attrs reg => snd (attributesCallback env st reg attrs)) attrs regs.

(** The attribute entries a registrant contributes: those of the object it
    is, or of the object it returns when it is a function. *)
Definition entries_of (env : Env) (st : EditorState) (reg : value)
  : list (string * value) :=
  let val := match reg with
             | VFun r => call_fn env r st
             | _ => reg
             end in
  if truthy val then own_entries val else [].

(** The class names the registrants contribute, in order. *)
Definition class_values (env : Env) (st : EditorState) (regs : list value)
  : list string :=
  map (fun e => to_string env (snd e))
      (filter (fun e => fst e = "class")
              (concat (map (entries_of env st) regs))).

(** [" " + c1 + " " + c2 + ...] *)
Definition class_suffix (cs : list string) : string :=
  foldr (fun c acc => " " +:+ c +:+ acc) "" cs.

(** ** Sample inputs *)

Module Samples.
(** A direct prop that is falsy, a plugin without the prop, and two
    plugins that have it. *)
Definition margin_props : gmap string value := {[ "scrollMargin" := VNum 0 ]}.

Definition margin_plugins : list Plugin :=
  [ {| props := ∅; spec_view := None |};
    {| props := {[ "scrollMargin" := VNum 5 ]}; spec_view := None |};
    {| props := {[ "scrollMargin" := VNum 9 ]}; spec_view := None |} ].

(** A callback that records the values it is called on, newest first, and
    answers whether the value is a number above three. *)
Definition above_three (c : value) : M (list value) value :=
  fun seen =>
    (Ok (VBool match c with
               | VNum n => 3 <? n
               | _ => false
               end),
     c :: seen).
End Samples.

Module Fixtures.
(** A world in which no collaborator throws, no browser workaround
    applies, the tree matches and patches succeed. *)
Definition calm : Env :=
  {| browser_ie := false;
     browser_chrome := false;
     raises := fun _ _ => None;
     call_fn := fun _ _ => VUndefined;
     fn_source := fun _ => "function () {}";
     sel_eq := fun a b => (sel_anchor a =? sel_anchor b)
                          && (sel_head a =? sel_head b);
     viewDecorations := fun _ => InnerDecoRef 0;
     matchesNode := fun _ _ _ _ _ => true;
     update_result := fun _ => true;
     writes_tracked := fun _ => false;
     new_docView := fun tr => DocViewRef (length tr);
     focusNode := fun _ => None;
     currentSelection_eq := fun _ => false;
     anchorInRightPlace := fun _ => false;
     new_scrollPos := fun tr => ScrollPosRef (length tr);
     new_pluginView := fun tr =>
       {| pv_ref := length tr; pv_update := true; pv_destroy := true |};
     handler_result := fun _ => VUndefined;
     domAfterPos_rect := fun _ _ =>
       {| rect_left := 0; rect_right := 0; rect_top := 0; rect_bottom := 0 |};
     coordsAtPos := fun _ _ =>
       {| rect_left := 0; rect_right := 0; rect_top := 0; rect_bottom := 0 |}
  |}.

(** A text selection from [a] to [h] inside the top-level block whose
    content starts at [start] (depth 1). *)
Definition text_selection (a h start : Z) : Selection :=
  {| sel_anchor := a; sel_head := h; sel_from := Z.min a h;
     sel_empty := a =? h; sel_isNode := false;
     sel_sharedDepth := 1;
     sel_anchorStart := fun d => match d with O => 0 | _ => start end |}.

Definition plain_state (ps : list Plugin) : EditorState :=
  {| doc := {| node_ref := 1; content_size := 10 |};
     selection := text_selection 1 1 1;
     storedMarks := None;
     scrollToSelection := 0;
     plugins := {| array_ref := 1; items := ps |} |}.

Definition plain_view (direct : gmap string value) (ps : list Plugin)
  : View :=
  {| _props := direct; state := plain_state ps; composing := false;
     editable := true; markCursor := None; cursorWrapper := None;
     nodeViews := ∅; docView := DocViewRef 0; trackWrites := None;
     mouseDown := false; pluginViews := []; scrollTop := 0;
     overflowAnchor := None |}.

(** The direct props give [title] the empty string, a plugin gives it
    ["x"]. *)
Definition empty_title : value := VObj 1 [("title", VStr "")].
Definition x_title : value := VObj 2 [("title", VStr "x")].

Definition titled_view : View :=
  plain_view {[ "attributes" := empty_title ]}
             [ {| props := {[ "attributes" := x_title ]};
                  spec_view := None |} ].


(** An editable view without props or plugins, and nothing done yet. *)
Definition fresh : World :=
  {| view := plain_view ∅ []; trace := [] |}.

(** The tree does not match the new document and the in-place patch
    reports failure. *)
Definition patch_fails : Env :=
  {| browser_ie := false;
     browser_chrome := false;
     raises := fun _ _ => None;
     call_fn := call_fn calm;
     fn_source := fn_source calm;
     sel_eq := sel_eq calm;
     viewDecorations := viewDecorations calm;
     matchesNode := fun _ _ _ _ _ => false;
     update_result := fun _ => false;
     writes_tracked := writes_tracked calm;
     new_docView := new_docView calm;
     focusNode := focusNode calm;
     currentSelection_eq := currentSelection_eq calm;
     anchorInRightPlace := anchorInRightPlace calm;
     new_scrollPos := new_scrollPos calm;
     new_pluginView := new_pluginView calm;
     handler_result := handler_result calm;
     domAfterPos_rect := domAfterPos_rect calm;
     coordsAtPos := coordsAtPos calm |}.

(** The same, and building the tree anew throws (a node view whose
    constructor throws, say). *)
Definition rebuild_throws : Env :=
  {| browser_ie := false;
     browser_chrome := false;
     raises := fun _ ev =>
       match ev with
       | DocViewDesc _ _ _ => Some (Thrown 2)
       | _ => None
       end;
     call_fn := call_fn calm;
     fn_source := fn_source calm;
     sel_eq := sel_eq calm;
     viewDecorations := viewDecorations calm;
     matchesNode := fun _ _ _ _ _ => false;
     update_result := fun _ => false;
     writes_tracked := writes_tracked calm;
     new_docView := new_docView calm;
     focusNode := focusNode calm;
     currentSelection_eq := currentSelection_eq calm;
     anchorInRightPlace := anchorInRightPlace calm;
     new_scrollPos := new_scrollPos calm;
     new_pluginView := new_pluginView calm;
     handler_result := handler_result calm;
     domAfterPos_rect := domAfterPos_rect calm;
     coordsAtPos := coordsAtPos calm |}.

(** The root decoration of the plain view. *)
Definition plain_outer : list NodeDeco :=
  [ {| deco_from := 0; deco_to := 10;
       deco_attrs := <["contenteditable" := "true"]>
                       (<["class" := "ProseMirror"]> ∅) |} ].

Definition failed_patch_run : Result unit * World :=
  updateStateInner patch_fails (plain_state []) false fresh.

Definition failed_rebuild_run : Result unit * World :=
  updateStateInner rebuild_throws (plain_state []) false fresh.

(** The plain view in the middle of a composition, and the plain state
    with stored marks added: same document, same selection. *)
Definition composing_world : World :=
  {| view := set_composing true (plain_view ∅ []); trace := [] |}.

Definition marked_state : EditorState :=
  {| doc := doc (plain_state []);
     selection := selection (plain_state []);
     storedMarks := Some [1%nat];
     scrollToSelection := 0;
     plugins := plugins (plain_state []) |}.

Definition marked_run : Result unit * World :=
  updateStateInner calm marked_state false composing_world.

(** Three scroll handlers, the direct one and two of plugins; the second
    one takes the scrolling on itself. *)
Definition handling : Env :=
  {| browser_ie := false;
     browser_chrome := false;
     raises := fun _ _ => None;
     call_fn := call_fn calm;
     fn_source := fn_source calm;
     sel_eq := sel_eq calm;
     viewDecorations := viewDecorations calm;
     matchesNode := matchesNode calm;
     update_result := update_result calm;
     writes_tracked := writes_tracked calm;
     new_docView := new_docView calm;
     focusNode := focusNode calm;
     currentSelection_eq := currentSelection_eq calm;
     anchorInRightPlace := anchorInRightPlace calm;
     new_scrollPos := new_scrollPos calm;
     new_pluginView := new_pluginView calm;
     handler_result := fun tr =>
       match last tr with
       | Some (CallHandler 8) => VBool true
       | _ => VUndefined
       end;
     domAfterPos_rect := domAfterPos_rect calm;
     coordsAtPos := coordsAtPos calm |}.

Definition handler_plugins : list Plugin :=
  [ {| props := {[ "handleScrollToSelection" := VFun 8 ]};
       spec_view := None |};
    {| props := {[ "handleScrollToSelection" := VFun 9 ]};
       spec_view := None |} ].

Definition handler_world : World :=
  {| view := plain_view {[ "handleScrollToSelection" := VFun 7 ]}
                        handler_plugins;
     trace := [] |}.

Definition scrolling_state : EditorState :=
  {| doc := doc (plain_state []);
     selection := selection (plain_state []);
     storedMarks := None;
     scrollToSelection := 1;
     plugins := plugins (plain_state handler_plugins) |}.

Definition scrolling_run : Result unit * World :=
  updateStateInner handling scrolling_state false handler_world.

(** Internet Explorer; the tree does not match the new document and the
    patch succeeds. *)
Definition ie_patching : Env :=
  {| browser_ie := true;
     browser_chrome := false;
     raises := fun _ _ => None;
     call_fn := call_fn calm;
     fn_source := fn_source calm;
     sel_eq := sel_eq calm;
     viewDecorations := viewDecorations calm;
     matchesNode := fun _ _ _ _ _ => false;
     update_result := fun _ => true;
     writes_tracked := writes_tracked calm;
     new_docView := new_docView calm;
     focusNode := focusNode calm;
     currentSelection_eq := currentSelection_eq calm;
     anchorInRightPlace := anchorInRightPlace calm;
     new_scrollPos := new_scrollPos calm;
     new_pluginView := new_pluginView calm;
     handler_result := handler_result calm;
     domAfterPos_rect := domAfterPos_rect calm;
     coordsAtPos := coordsAtPos calm |}.

(** The document [<p>abc</p><p>def</p>]: a selection of "ab" in the first
    paragraph (positions 1 to 3, the paragraph starts at 1) and one of
    "de" in the second (positions 6 to 8, the paragraph starts at 6). Both
    have shared depth 1. *)
Definition two_paragraphs (sel : Selection) : EditorState :=
  {| doc := {| node_ref := 1; content_size := 10 |};
     selection := sel;
     storedMarks := None;
     scrollToSelection := 0;
     plugins := {| array_ref := 1; items := [] |} |}.

Definition first_paragraph_world : World :=
  {| view := set_state (two_paragraphs (text_selection 1 3 1))
                       (plain_view ∅ []);
     trace := [] |}.

Definition move_selection_run : Result unit * World :=
  updateStateInner ie_patching (two_paragraphs (text_selection 6 8 6)) false
                   first_paragraph_world.

(** A world like [calm], in which the document view compares the
    decorations it is asked about with the ones it was drawn with: those
    of an editable root without further attributes. *)
Definition comparing : Env :=
  {| browser_ie := false;
     browser_chrome := false;
     raises := fun _ _ => None;
     call_fn := call_fn calm;
     fn_source := fn_source calm;
     sel_eq := sel_eq calm;
     viewDecorations := viewDecorations calm;
     matchesNode := fun _ _ d outer inner =>
       match outer, inner with
       | [deco], InnerDecoRef 0 =>
           (deco_to deco =? content_size d)
           && String.eqb (default "" (deco_attrs deco !! "class"))
                         "ProseMirror"
           && String.eqb (default "" (deco_attrs deco !! "contenteditable"))
                         "true"
       | _, _ => false
       end;
     update_result := update_result calm;
     writes_tracked := writes_tracked calm;
     new_docView := new_docView calm;
     focusNode := focusNode calm;
     currentSelection_eq := currentSelection_eq calm;
     anchorInRightPlace := anchorInRightPlace calm;
     new_scrollPos := new_scrollPos calm;
     new_pluginView := new_pluginView calm;
     handler_result := handler_result calm;
     domAfterPos_rect := domAfterPos_rect calm;
     coordsAtPos := coordsAtPos calm |}.

(** The selection is moved to the second paragraph with [updateState],
    and the same state is applied once more. *)
Definition first_apply : Result unit * World :=
  updateState comparing (two_paragraphs (text_selection 6 8 6))
              first_paragraph_world.

Definition second_apply : Result unit * World :=
  updateState comparing (two_paragraphs (text_selection 6 8 6))
              (snd first_apply).
End Fixtures.

(** ** Reading traces *)

(** The calls that change the rendered tree. *)
Definition tree_mutation (ev : Event) : bool :=
  match ev with
  | DocViewUpdate _ _ _ _ | DocViewUpdateOuterDeco _ _
  | DocViewDestroy _ | DocViewDesc _ _ _ => true
  | _ => false
  end.

(** The calls that write the platform selection or focus. *)
Definition selection_write (ev : Event) : bool :=
  match ev with
  | SelectionToDOM _ | SyncNodeSelection _ | FocusPreventScroll => true
  | _ => false
  end.

Definition mutation (ev : Event) : bool :=
  tree_mutation ev || selection_write ev.

(** The calls on the DOM observer. *)
Definition observer_call (ev : Event) : bool :=
  match ev with
  | ObserverStop | ObserverStart | ObserverSetCurSelection => true
  | _ => false
  end.

(** An event that neither mutates the tree or the selection nor talks to
    the observer. *)
Definition quiet (ev : Event) : Prop :=
  mutation ev = false /\ observer_call ev = false.

(** Whether the observer is paused after the events [evs], when it was
    [paused] before them. *)
Fixpoint paused_after (paused : bool) (evs : list Event) : bool :=
  match evs with
  | [] => paused
  | ObserverStop :: rest => paused_after true rest
  | ObserverStart :: rest => paused_after false rest
  | _ :: rest => paused_after paused rest
  end.

(** Every mutation in [evs] happens while the observer is paused. *)
Fixpoint bracketed (paused : bool) (evs : list Event) : bool :=
  match evs with
  | [] => true
  | ObserverStop :: rest => bracketed true rest
  | ObserverStart :: rest => bracketed false rest
  | ev :: rest => (if mutation ev then paused else true) && bracketed paused rest
  end.

(** The events of plugin views. *)
Definition plugin_view_event (ev : Event) : Prop :=
  match ev with
  | PluginViewDestroy _ | PluginViewCreate _ | PluginViewUpdate _ _ => True
  | _ => False
  end.

(** The events of scroll handling. *)
Definition scroll_event (ev : Event) : Prop :=
  match ev with
  | SetScrollTop _ | CallHandler _ | ScrollRectIntoView _ _
  | ResetScrollPos _ => True
  | _ => False
  end.

Definition handler_call (ev : Event) : Prop :=
  match ev with
  | CallHandler _ => True
  | _ => False
  end.

(** [only P m]: whatever way [m] ends, it only adds events that satisfy
    [P] to the trace. *)
Definition only {A} (P : Event -> Prop) (m : M World A) : Prop :=
  forall w r w', m w = (r, w') ->
    exists evs, trace w' = trace w ++ evs /\ Forall P evs.

(** [tracks p p' m]: run with the observer paused or not ([p]), [m] keeps
    its mutations bracketed, and leaves the observer in state [p'] when it
    returns normally. *)
Definition tracks {A} (p p' : bool) (m : M World A) : Prop :=
  forall w r w', m w = (r, w') ->
    exists evs, trace w' = trace w ++ evs
      /\ bracketed p evs = true
      /\ (forall a, r = Ok a -> paused_after p evs = p').

(** ** The shape of an update's trace *)

(** The calls of lines 194-198 on the tree: [tr] is the trace before them,
    [dv] the descriptor before them. *)
Definition rebuild_calls (dv : DocView) (d : Node) (outer : list NodeDeco)
    (inner : InnerDeco) : list Event :=
  [ DocViewUpdateOuterDeco dv []; DocViewDestroy dv; DocViewDesc d outer inner ].

Definition patch_shape (env : Env) (tr : list Event) (dv : DocView)
    (d : Node) (outer : list NodeDeco) (inner : InnerDeco)
    (redraw : bool) (patch : list Event) : Prop :=
  let upd := DocViewUpdate dv d outer inner in
  if redraw then patch = rebuild_calls dv d outer inner
  else if update_result env (tr ++ [upd]) then patch = [upd]
       else patch = upd :: rebuild_calls dv d outer inner.

(** The calls of lines 205-211. *)
Definition selection_shape (st : EditorState) (force : bool)
    (selw : list Event) : Prop :=
  selw = [SelectionToDOM force]
  \/ (force = false
      /\ selw = [SyncNodeSelection (selection st); ObserverSetCurSelection]).

(** The calls of lines 217-229: [tr] is the trace before them. *)
Definition scroll_shape (env : Env) (st : EditorState) (scroll : ScrollMode)
    (oldScrollPos : option ScrollPos) (tr : list Event) (scr : list Event)
  : Prop :=
  match scroll with
  | ScrollReset => scr = [SetScrollTop 0]
  | ScrollToSelection =>
      exists calls,
        Forall handler_call calls
        /\ ((calls ≠ []
             /\ truthy (handler_result env (tr ++ calls)) = true
             /\ scr = calls)
            \/ scr = calls
                 ++ [ScrollRectIntoView
                       (if sel_isNode (selection st)
                        then domAfterPos_rect env (tr ++ calls)
                                              (sel_from (selection st))
                        else coordsAtPos env (tr ++ calls)
                                         (sel_head (selection st)))
                       (focusNode env tr)])
  | ScrollPreserve =>
      scr = match oldScrollPos with
            | Some pos => [ResetScrollPos pos]
            | None => []
            end
  end.

(** The update's own bookkeeping that plugin views and scrolling leave
    alone. *)
Definition same_state (v v' : View) : Prop :=
  state v' = state v /\ composing v' = composing v
  /\ docView v' = docView v.

(** [keeps m]: however [m] ends, it leaves the state, the composition flag
    and the document view of the view as they were. *)
Definition keeps {A} (m : M World A) : Prop :=
  forall w r w', m w = (r, w') -> same_state (view w) (view w').

(** The part of the update cycle a call belongs to. *)
Inductive Segment : Type :=
| Prelude            (* before the observer is paused: lines 153-177 *)
| Observer           (* domObserver.stop() and start() *)
| Tree               (* lines 194-198 *)
| SelectionSync      (* lines 205-211, and focusing *)
| Plugins            (* line 215 *)
| Scrolling.         (* lines 217-229 *)

Definition segment_of (ev : Event) : Segment :=
  match ev with
  | ClearComposition | EnsureListeners | StoreScrollPos => Prelude
  | ObserverStop | ObserverStart => Observer
  | DocViewUpdate _ _ _ _ | DocViewUpdateOuterDeco _ _
  | DocViewDestroy _ | DocViewDesc _ _ _ => Tree
  | SelectionToDOM _ | SyncNodeSelection _ | ObserverSetCurSelection
  | FocusPreventScroll => SelectionSync
  | PluginViewDestroy _ | PluginViewCreate _ | PluginViewUpdate _ _ => Plugins
  | SetScrollTop _ | CallHandler _ | ScrollRectIntoView _ _
  | ResetScrollPos _ => Scrolling
  end.

(** All events of a list belong to one segment. *)
Definition all_in (s : Segment) (evs : list Event) : Prop :=
  Forall (fun ev => segment_of ev = s) evs.

(** An in-place patch attempt, [docView.update(...)]. *)
Definition patch_attempt (ev : Event) : Prop :=
  match ev with
  | DocViewUpdate _ _ _ _ => True
  | _ => False
  end.

(** ** Replacing the props: [update] and [setProps] *)

Definition set__props (p : gmap string value) (v : View) : View :=
  {| _props := p; state := state v; composing := composing v;
     editable := editable v; markCursor := markCursor v;
     cursorWrapper := cursorWrapper v; nodeViews := nodeViews v;
     docView := docView v; trackWrites := trackWrites v;
     mouseDown := mouseDown v; pluginViews := pluginViews v;
     scrollTop := scrollTop v; overflowAnchor := overflowAnchor v |}.

Section Reconfiguration.
Variable env : Env.

(** [update(props)] (index.js 122-126). A props object is given by its
    [state] property [st] and its other properties [props]. The
    [handleDOMEvents] props that are compared are objects or absent, on
    which [!=] compares identities. *)
Definition update (props : gmap string value) (st : EditorState)
  : M World unit :=
  let* v := get_view in
  let* _ :=
    (if negb (loose_eq (prop_get props "handleDOMEvents")
                       (prop_get (_props v) "handleDOMEvents"))
     then call env EnsureListeners
     else ret tt) in
  let* _ := modify_view (set__props props) in
  updateStateInner env st true.

(** [setProps(props)] (index.js 134-140): the old props are copied, [state]
    is set to the view's state, and the given properties are written over
    the copy. [st] is the [state] property of the argument, when it has
    one. *)
Definition setProps (props : gmap string value) (st : option EditorState)
  : M World unit :=
  let* v := get_view in
  update (props ∪ _props v) (default (state v) st).
End Reconfiguration.

(** ** The [root] getter (index.js 308-317) *)

Module Root.
(** A node above the editable element. [getSelection] is looked up on the
    node itself and then along its prototype chain; [own_getSelection]
    tells whether the node has the property itself and, if so, whether its
    value is truthy. *)
Record Ancestor : Type := {
  anc_ref : nat;
  nodeType : Z;
  host : bool;                      (* [search.host] is truthy *)
  own_getSelection : option bool;
  protos : list nat                 (* the prototype chain, nearest first *)
}.

(** What the getter returns: a node it found or had cached, or the global
    [document]. *)
Inductive RootNode : Type :=
| Found (a : Ancestor)
| Document.

(** The state the getter reads and writes: [view._root], and for each
    prototype object that has a [getSelection] property of its own, whether
    the value is truthy. *)
Record Dom : Type := {
  _root : option Ancestor;
  getSelection_of : gmap nat bool
}.

(** Truthiness of [search.getSelection]. *)
Definition has_getSelection (tbl : gmap nat bool) (a : Ancestor) : bool :=
  match own_getSelection a with
  | Some b => b
  | None => default false (head (omap (fun p => tbl !! p) (protos a)))
  end.

(** [search.nodeType == 9 || (search.nodeType == 11 && search.host)] *)
Definition is_root (a : Ancestor) : bool :=
  (nodeType a =? 9) || ((nodeType a =? 11) && host a).

(** [Object.getPrototypeOf(search).getSelection = ...]; writing a property
    of [null] is a TypeError. *)
Definition patch_prototype (a : Ancestor) : M Dom unit :=
  match protos a with
  | p :: _ =>
      modify (fun d => {| _root := _root d;
                          getSelection_of := <[p := true]> (getSelection_of d) |})
  | [] => throw (TypeError "Cannot set properties of null")
  end.

(** The loop of lines 310-315 over the parents of the editable element,
    nearest first; line 316 when it finds nothing ([cached] is [null]
    there). *)
Fixpoint search_root (ancestors : list Ancestor) : M Dom RootNode :=
  match ancestors with
  | [] => ret Document
  | search :: above =>
      if is_root search then
        let* d := get in
        let* _ := (if negb (has_getSelection (getSelection_of d) search)
                   then patch_prototype search
                   else ret tt) in
        let* _ := modify (fun d => {| _root := Some search;
                                      getSelection_of := getSelection_of d |}) in
        ret (Found search)
      else search_root above
  end.

Definition root (ancestors : list Ancestor) : M Dom RootNode :=
  let* d := get in
  match _root d with
  | Some cached => ret (Found cached)
  | None => search_root ancestors
  end.
End Root.

(** ** Reference definitions for the registries and the plugin views *)



(** Whether an [editable] prop value is a function that returns exactly
    [false] on the state. *)
Definition vetoes (env : Env) (st : EditorState) (c : value) : bool :=
  match c with
  | VFun r => strict_is_false (call_fn env r st)
  | _ => false
  end.

(** The [destroy] calls that tear down the plugin views [pvs] (given in
    creation order): newest first, the views without the hook left out. *)
Definition destroy_calls (pvs : list PluginView) : list Event :=
  map PluginViewDestroy (filter (fun pv => pv_destroy pv = true) (rev pvs)).

(** The [update] calls on the plugin views [pvs]. *)
Definition update_calls (pvs : list PluginView) (prev : EditorState)
  : list Event :=
  map (fun pv => PluginViewUpdate pv prev)
      (filter (fun pv => pv_update pv = true) pvs).

(** The view factories of a plugin list, in order. *)
Definition factories (ps : list Plugin) : list nat :=
  omap spec_view ps.

(** The plugin views the factories [fs] return when they are called one
    after the other, the first of them after the trace [tr]. *)
Fixpoint created (env : Env) (tr : list Event) (fs : list nat)
  : list PluginView :=
  match fs with
  | [] => []
  | f :: rest =>
      new_pluginView env (tr ++ [PluginViewCreate f])
        :: created env (tr ++ [PluginViewCreate f]) rest
  end.

(** Any call but one on a plugin view. *)
Definition aside (ev : Event) : Prop := ~ plugin_view_event ev.

(** [preserves proj m]: however [m] ends, the part [proj] of the view is
    what it was before. *)
Definition preserves {A B} (proj : View -> B) (m : M World A) : Prop :=
  forall w r w', m w = (r, w') -> proj (view w') = proj (view w).

(** ** More sample inputs *)

Module Cases.
(** The calm world, except for what function-valued props return and for
    the calls that throw. *)
Definition world_with (answers : nat -> EditorState -> value)
    (throwing : list Event -> Event -> option Error) : Env :=
  {| browser_ie := false;
     browser_chrome := false;
     raises := throwing;
     call_fn := answers;
     fn_source := fn_source Fixtures.calm;
     sel_eq := sel_eq Fixtures.calm;
     viewDecorations := viewDecorations Fixtures.calm;
     matchesNode := matchesNode Fixtures.calm;
     update_result := update_result Fixtures.calm;
     writes_tracked := writes_tracked Fixtures.calm;
     new_docView := new_docView Fixtures.calm;
     focusNode := focusNode Fixtures.calm;
     currentSelection_eq := currentSelection_eq Fixtures.calm;
     anchorInRightPlace := anchorInRightPlace Fixtures.calm;
     new_scrollPos := new_scrollPos Fixtures.calm;
     new_pluginView := new_pluginView Fixtures.calm;
     handler_result := handler_result Fixtures.calm;
     domAfterPos_rect := domAfterPos_rect Fixtures.calm;
     coordsAtPos := coordsAtPos Fixtures.calm |}.

(** Function 1 returns [false], every other function returns [0]. *)
Definition one_says_no : Env :=
  world_with (fun r _ => match r with 1%nat => VBool false | _ => VNum 0 end)
             (fun _ _ => None).

(** The direct [editable] prop returns [0], the one of the plugin returns
    [false]. *)
Definition guarded_view : View :=
  Fixtures.plain_view {[ "editable" := VFun 2 ]}
    [ {| props := {[ "editable" := VFun 1 ]}; spec_view := None |} ].

(** [editable: false], a value where a function is expected. *)
Definition literal_view : View :=
  Fixtures.plain_view {[ "editable" := VBool false ]} [].

(** Three plugin views; the middle one has no [update] hook, the newest
    one no [destroy] hook. *)
Definition oldest : PluginView :=
  {| pv_ref := 1; pv_update := true; pv_destroy := true |}.
Definition middle : PluginView :=
  {| pv_ref := 2; pv_update := false; pv_destroy := true |}.
Definition newest : PluginView :=
  {| pv_ref := 3; pv_update := true; pv_destroy := false |}.

(** Two plugins with a view factory around one without. *)
Definition viewing_plugins : list Plugin :=
  [ {| props := ∅; spec_view := Some 11%nat |};
    {| props := ∅; spec_view := None |};
    {| props := ∅; spec_view := Some 12%nat |} ].

Definition three_views : World :=
  {| view := set_pluginViews [oldest; middle; newest]
               (Fixtures.plain_view ∅ viewing_plugins);
     trace := [] |}.

(** The [destroy] hook of the middle plugin view throws. *)
Definition middle_throws : Env :=
  world_with (call_fn Fixtures.calm)
    (fun _ ev =>
       match ev with
       | PluginViewDestroy pv =>
           if (pv_ref pv =? 2)%nat then Some (Thrown 3) else None
       | _ => None
       end).

Definition teardown_run : Result unit * World :=
  destroyPluginViews middle_throws three_views.

Definition recreate_run : Result unit * World :=
  updatePluginViews Fixtures.calm None three_views.

Definition notify_run : Result unit * World :=
  updatePluginViews Fixtures.calm
    (Some (Fixtures.plain_state viewing_plugins)) three_views.

(** The selection moves; the plugin array stays. *)
Definition moved_state : EditorState :=
  {| doc := doc (Fixtures.plain_state viewing_plugins);
     selection := Fixtures.text_selection 3 3 1;
     storedMarks := None;
     scrollToSelection := 0;
     plugins := plugins (Fixtures.plain_state viewing_plugins) |}.


(** A view whose props register a node view for images, before the
    registry was built. *)
Definition image_views : value := VObj 5 [("image", VFun 9)].

Definition image_world : World :=
  {| view := Fixtures.plain_view {[ "nodeViews" := image_views ]} [];
     trace := [] |}.

Definition image_run : Result unit * World :=
  updateStateInner Fixtures.calm (Fixtures.plain_state []) true image_world.

(** A mark cursor is set. *)
Definition cursor_world : World :=
  {| view :=
       {| _props := ∅; state := Fixtures.plain_state [];
          composing := false; editable := false;
          markCursor := Some [4%nat]; cursorWrapper := None;
          nodeViews := ∅; docView := DocViewRef 0; trackWrites := None;
          mouseDown := false; pluginViews := []; scrollTop := 7;
          overflowAnchor := None |};
     trace := [] |}.

Definition cursor_run : Result unit * World :=
  updateStateInner Fixtures.calm moved_state false cursor_world.

Definition update_run : Result unit * World :=
  update Fixtures.calm {[ "nodeViews" := image_views ]}
         (Fixtures.plain_state []) cursor_world.

Definition setProps_run : Result unit * World :=
  setProps Fixtures.calm {[ "editable" := VFun 2 ]} None image_world.

(** The editable element sits in a [div] inside a document fragment that
    has no host, inside a shadow root, inside the document. *)
Definition a_div : Root.Ancestor :=
  {| Root.anc_ref := 1; Root.nodeType := 1; Root.host := false;
     Root.own_getSelection := None; Root.protos := [20; 21]%nat |}.
Definition a_fragment : Root.Ancestor :=
  {| Root.anc_ref := 2; Root.nodeType := 11; Root.host := false;
     Root.own_getSelection := None; Root.protos := [22; 21]%nat |}.
Definition a_shadow_root : Root.Ancestor :=
  {| Root.anc_ref := 3; Root.nodeType := 11; Root.host := true;
     Root.own_getSelection := None; Root.protos := [23; 22; 21]%nat |}.
Definition the_document : Root.Ancestor :=
  {| Root.anc_ref := 4; Root.nodeType := 9; Root.host := false;
     Root.own_getSelection := None; Root.protos := [24; 21]%nat |}.

(** Nothing cached; only the prototype of documents has [getSelection]. *)
Definition unsearched : Root.Dom :=
  {| Root._root := None; Root.getSelection_of := {[ 24%nat := true ]} |}.

Definition in_shadow : list Root.Ancestor :=
  [a_div; a_fragment; a_shadow_root; the_document].

Definition first_root_run : Result Root.RootNode * Root.Dom :=
  Root.root in_shadow unsearched.
End Cases.

(** ** Creating and destroying the view (index.js 37-88 and 433-445) *)

Definition set_mouseDown (b : bool) (v : View) : View :=
  {| _props := _props v; state := state v; composing := composing v;
     editable := editable v; markCursor := markCursor v;
     cursorWrapper := cursorWrapper v; nodeViews := nodeViews v;
     docView := docView v; trackWrites := trackWrites v;
     mouseDown := b; pluginViews := pluginViews v;
     scrollTop := scrollTop v; overflowAnchor := overflowAnchor v |}.

Module Lifecycle.
(** The calls of the constructor and of [destroy] that the update cycle
    does not make: on the DOM and on the input handling. *)
Inductive DomCall : Type :=
| CreateElement                     (* document.createElement("div") *)
| AppendChild                       (* place.appendChild(this.dom) *)
| CallPlace (fn : nat)              (* place(this.dom) *)
| InitInput                         (* initInput(this) *)
| DestroyInput                      (* destroyInput(this) *)
| ClearTextContent                  (* this.dom.textContent = "" *)
| RemoveChild.                      (* this.dom.parentNode.removeChild(this.dom) *)

(** One entry of the chronological log of a view's life. *)
Inductive Step : Type :=
| Core (ev : Event)
| Dom (c : DomCall).

(** A DOM element that can become [view.dom], by what the view reads of
    it. *)
Record Element : Type := {
  el_scrollTop : Z;
  el_overflowAnchor : option string;
  el_parent : bool                  (* [parentNode] is not null *)
}.

(** The [place] argument of the constructor, by the properties the
    constructor tests. *)
Record Place : Type := {
  place_mount : option Element;     (* [place.mount], when it is truthy *)
  place_appendChild : bool;         (* [place.appendChild] is truthy *)
  place_apply : bool;               (* [place.apply] is truthy *)
  place_fn : option nat             (* the function [place] is, if it is one *)
}.

(** What the DOM and the input handling answer; [log] is everything done
    so far, the call that is answered included. *)
Record Surroundings : Type := {
  dom_raises : list Step -> DomCall -> option Error;
  (** what [document.createElement("div")] returned *)
  new_div : Element;
  (** whether [this.dom] has a parent after [place(this.dom)] *)
  placed : list Step -> bool;
  (** [view.composing] and [view.mouseDown] (as truth values) after
      [initInput(view)] *)
  input_composing : list Step -> bool;
  input_mouseDown : list Step -> bool
}.

(** The view object: the fields of the update cycle, whether [docView] is
    set, [mounted], whether [dom.parentNode] is set, and the log. *)
Record Editor : Type := {
  fields : View;
  has_docView : bool;
  mounted : bool;
  attached : bool;
  steps : list Step
}.

Definition set_fields (v : View) (e : Editor) : Editor :=
  {| fields := v; has_docView := has_docView e; mounted := mounted e;
     attached := attached e; steps := steps e |}.

Definition set_has_docView (b : bool) (e : Editor) : Editor :=
  {| fields := fields e; has_docView := b; mounted := mounted e;
     attached := attached e; steps := steps e |}.

Definition set_mounted (b : bool) (e : Editor) : Editor :=
  {| fields := fields e; has_docView := has_docView e; mounted := b;
     attached := attached e; steps := steps e |}.

Definition set_attached (b : bool) (e : Editor) : Editor :=
  {| fields := fields e; has_docView := has_docView e; mounted := mounted e;
     attached := b; steps := steps e |}.

Definition log_steps (l : list Step) (e : Editor) : Editor :=
  {| fields := fields e; has_docView := has_docView e; mounted := mounted e;
     attached := attached e; steps := steps e ++ l |}.

(** The calls of the update cycle in a log. *)
Definition core_events (l : list Step) : list Event :=
  omap (fun s => match s with Core ev => Some ev | Dom _ => None end) l.

(** A computation of the update cycle, run on the view object: it sees the
    fields and the calls of the update cycle made so far, and the calls it
    makes are added to the log. *)
Definition core {A} (m : M World A) : M Editor A :=
  fun e =>
    let w := {| view := fields e; trace := core_events (steps e) |} in
    let '(r, w') := m w in
    (r, log_steps (map Core (drop (length (trace w)) (trace w')))
                  (set_fields (view w') e)).

Section Life.
Variable env : Env.
Variable around : Surroundings.

(** A call that may throw. *)
Definition dom_call (c : DomCall) : M Editor unit :=
  fun e =>
    match dom_raises around (steps e) c with
    | Some err => (Throw err, log_steps [Dom c] e)
    | None => (Ok tt, log_steps [Dom c] e)
    end.

(** A property write, or a call that cannot fail. *)
Definition dom_write (c : DomCall) : M Editor unit :=
  modify (log_steps [Dom c]).

(** The fields before the constructor has computed anything: what is
    [undefined] or [null] then is falsy or absent here, and [docView] is
    not set ([has_docView] says so). *)
Definition blank (props : gmap string value) (st : EditorState)
    (el : Element) : View :=
  {| _props := props; state := st; composing := false; editable := false;
     markCursor := None; cursorWrapper := None; nodeViews := ∅;
     docView := DocViewRef 0; trackWrites := None; mouseDown := false;
     pluginViews := []; scrollTop := el_scrollTop el;
     overflowAnchor := el_overflowAnchor el |}.

(** Line 58: the element the view will use. *)
Definition chosen (place : option Place) : Element :=
  match place with
  | Some {| place_mount := Some el |} => el
  | _ => new_div around
  end.

(** Lines 59-63: where the element goes. *)
Definition putInPlace (place : option Place) : M Editor unit :=
  match place with
  | None => ret tt
  | Some p =>
      if place_appendChild p then
        let* _ := dom_call AppendChild in
        modify (set_attached true)
      else if place_apply p then
        match place_fn p with
        | Some fn =>
            let* _ := dom_call (CallPlace fn) in
            let* e := get in
            modify (set_attached (placed around (steps e)))
        | None => throw (TypeError "place is not a function")
        end
      else if is_set (place_mount p) then modify (set_mounted true)
      else ret tt
  end.

(** The calls that get the element and put it in its place, when none of
    them throws. *)
Definition placing (place : option Place) : list DomCall :=
  match place with
  | Some {| place_mount := Some _ |} => []
  | _ => [CreateElement]
  end
  ++ match place with
     | Some p =>
         if place_appendChild p then [AppendChild]
         else if place_apply p
              then match place_fn p with
                   | Some fn => [CallPlace fn]
                   | None => []
                   end
              else []
     | None => []
     end.

(** [new EditorView(place, props)]; [props] is given by its [state]
    property [st] and its other properties. The object under construction
    starts from the log alone. *)
Definition construct (place : option Place) (props : gmap string value)
    (st : EditorState) : M Editor unit :=
  let* el :=                                                   (* 58 *)
    match place with
    | Some {| place_mount := Some el |} => ret el
    | _ => let* _ := dom_write CreateElement in ret (new_div around)
    end in
  let* _ := modify (fun e =>                                   (* 39-58 *)
    {| fields := blank props st el; has_docView := false;
       mounted := false; attached := el_parent el; steps := steps e |}) in
  let* _ := putInPlace place in                                (* 59-63 *)
  let* v := core get_view in
  let* ed := core (lift (getEditable env v)) in                (* 69 *)
  let* _ := core (modify_view (set_editable ed)) in
  let* _ := core updateCursorWrapper in                        (* 70-72 *)
  let* v := core get_view in
  let* nv := core (lift (buildNodeViews v)) in                 (* 73 *)
  let* _ := core (modify_view (set_nodeViews nv)) in
  let* v := core get_view in                                   (* 74 *)
  let* outer := core (lift (computeDocDeco env v)) in
  let inner := viewDecorations env v in
  let* _ := core (tree_call env (DocViewDesc (doc st) outer inner)) in
  let* w := core get in
  let* _ := core (modify_view (set_docView (new_docView env (trace w)))) in
  let* _ := modify (set_has_docView true) in
  let* _ := dom_call InitInput in                              (* 85 *)
  let* e := get in
  let* _ := core (modify_view (fun v =>
              set_composing (input_composing around (steps e))
                (set_mouseDown (input_mouseDown around (steps e)) v))) in
  let* _ := core (modify_view (set_pluginViews [])) in         (* 87 *)
  core (updatePluginViews env None).                           (* 88 *)

(** [destroy()] (index.js 433-445) *)
Definition destroy : M Editor unit :=
  let* e := get in
  if negb (has_docView e) then ret tt
  else
    let* _ := dom_call DestroyInput in
    let* _ := core (destroyPluginViews env) in
    let* e := get in
    let* _ :=
      (if mounted e then
         let* _ := core (let* v := get_view in
                         tree_call env
                           (DocViewUpdate (docView v) (doc (state v)) []
                                          (viewDecorations env v))) in
         dom_write ClearTextContent
       else if attached e then
         let* _ := dom_call RemoveChild in
         modify (set_attached false)
       else ret tt) in
    let* _ := core (let* v := get_view in
                    tree_call env (DocViewDestroy (docView v))) in
    modify (set_has_docView false).
End Life.
End Lifecycle.

Module LifeCases.
Import Lifecycle.

(** Nothing around the view throws; a fresh [div] has no parent; the input
    handling starts without a composition and without a pressed mouse
    button. *)
Definition quiet_dom : Surroundings :=
  {| dom_raises := fun _ _ => None;
     new_div := {| el_scrollTop := 0; el_overflowAnchor := None;
                   el_parent := false |};
     placed := fun _ => true;
     input_composing := fun _ => false;
     input_mouseDown := fun _ => false |}.

(** Taking the element out of its parent throws. *)
Definition stuck_dom : Surroundings :=
  {| dom_raises := fun _ c =>
       match c with
       | RemoveChild => Some (Thrown 5)
       | _ => None
       end;
     new_div := new_div quiet_dom;
     placed := placed quiet_dom;
     input_composing := input_composing quiet_dom;
     input_mouseDown := input_mouseDown quiet_dom |}.

(** A DOM node as [place]: the editor is appended to it. *)
Definition into_node : Place :=
  {| place_mount := None; place_appendChild := true; place_apply := false;
     place_fn := None |}.

(** The object before the constructor ran. *)
Definition unbuilt : Editor :=
  {| fields := Fixtures.plain_view ∅ []; has_docView := false;
     mounted := false; attached := false; steps := [] |}.

Definition built_run : Result unit * Editor :=
  construct Fixtures.calm quiet_dom (Some into_node) ∅
            (Fixtures.plain_state Cases.viewing_plugins) unbuilt.

Definition destroyed_run : Result unit * Editor :=
  destroy Fixtures.calm quiet_dom (snd built_run).

Definition stuck_run : Result unit * Editor :=
  destroy Fixtures.calm stuck_dom (snd built_run).
End LifeCases.

Module PluginCases.
(** The same plugins in a new array. *)
Definition replugged : EditorState :=
  {| doc := doc (Fixtures.plain_state Cases.viewing_plugins);
     selection := selection (Fixtures.plain_state Cases.viewing_plugins);
     storedMarks := None;
     scrollToSelection := 0;
     plugins := {| array_ref := 2; items := Cases.viewing_plugins |} |}.

Definition replug_run : Result unit * World :=
  updateState Fixtures.calm replugged Cases.three_views.
End PluginCases.

(** The values the registrants give for the attribute [a], as strings, in
    resolution order. *)
Definition attribute_values (env : Env) (st : EditorState)
    (regs : list value) (a : string) : list string :=
  map (fun e => to_string env (snd e))
      (filter (fun e => fst e = a) (concat (map (entries_of env st) regs))).

(** What an attribute that is [cur] ends up as, when the values [vs] are
    offered for it one after the other: a value is taken while the
    attribute is missing or empty. *)
Fixpoint settle (cur : option string) (vs : list string) : option string :=
  match vs with
  | [] => cur
  | x :: rest => settle (if attr_truthy cur then cur else Some x) rest
  end.

(** ** Reference definitions for the selection write, the scroll
    handlers and the rebuild *)

(** Whether the tree code wrote to the node held in [view.trackWrites],
    and so reset that field, during one of the calls [patch] made after
    the trace [tr]. *)
Fixpoint wrote_tracked (env : Env) (tr patch : list Event) : bool :=
  match patch with
  | [] => false
  | ev :: rest =>
      writes_tracked env (tr ++ [ev]) || wrote_tracked env (tr ++ [ev]) rest
  end.

(** Asking the handlers among the prop values [cs], in order, after the
    trace [tr]: the calls made, and whether a handler answered with a
    truthy value; the handlers after that one are not called. Values that
    are [null] or [undefined] are passed over; another value that is not a
    function cannot be called ([None]). *)
Fixpoint ask_handlers (env : Env) (tr : list Event) (cs : list value)
  : option (list Event * bool) :=
  match cs with
  | [] => Some ([], false)
  | c :: rest =>
      if nullish c then ask_handlers env tr rest
      else
        match c with
        | VFun fn =>
            if truthy (handler_result env (tr ++ [CallHandler fn]))
            then Some ([CallHandler fn], true)
            else
              match ask_handlers env (tr ++ [CallHandler fn]) rest with
              | Some (calls, handled) => Some (CallHandler fn :: calls, handled)
              | None => None
              end
        | _ => None
        end
  end.





(** * Properties *)

(** ** Prop resolution *)

Section SomePropFacts.
Context {S : Type}.
Implicit Types (f : option (value -> M S value)) (s : S).

Lemma someProp_plugins_resolve plugins propName f s :
  someProp_plugins plugins propName f s
  = resolve f (map (fun p => prop_get (props p) propName) plugins) s.
Proof.
  revert s. induction plugins as [|p ps IH]; intros s; simpl; [done|].
  destruct (nullish _); [apply IH|].
  unfold bind. destruct (apply_opt f _ s) as [[r|e] s1]; [|done].
  destruct (truthy r); [done|apply IH].
Qed.

(** [someProp] is the resolution over its candidates. *)
Lemma someProp_resolve _props plugins propName f s :
  someProp _props plugins propName f s
  = resolve f (candidates _props plugins propName) s.
Proof.
  unfold someProp, candidates. simpl.
  destruct (nullish _); [apply someProp_plugins_resolve|].
  unfold bind. destruct (apply_opt f _ s) as [[r|e] s1]; [|done].
  destruct (truthy r); [done|apply someProp_plugins_resolve].
Qed.

Lemma resolve_passed f pre rest s s1 :
  passed f pre s s1 -> resolve f (pre ++ rest) s = resolve f rest s1.
Proof.
  induction 1 as [s|c cs s s' Hn _ IH|c cs s s1 s' r Hn Hr Hf _ IH];
    simpl; [done| |].
  - by rewrite Hn.
  - rewrite Hn. unfold bind. by rewrite Hr, Hf.
Qed.

(** When every candidate was passed over, the result is [undefined]. *)
Lemma someProp_none _props plugins propName f s s' :
  passed f (candidates _props plugins propName) s s' ->
  someProp _props plugins propName f s = (Ok VUndefined, s').
Proof.
  intros H. rewrite someProp_resolve.
  rewrite <- (app_nil_r (candidates _ _ _)).
  by rewrite (resolve_passed _ _ _ _ _ H).
Qed.

(** A callback that never stops the resolution (it returns [undefined]
    and only updates the state) is run on every candidate that is not
    [null] or [undefined], in order. *)
Lemma resolve_accumulate (g : value -> S -> S) cs s :
  resolve (Some (fun c s => (Ok VUndefined, g c s))) cs s
  = (Ok VUndefined,
     foldl (fun s c => g c s) s (filter (fun c => nullish c = false) cs)).
Proof.
  revert s. induction cs as [|c cs IH]; intros s; simpl; [done|].
  destruct (nullish c) eqn:Hc.
  - rewrite IH. by rewrite filter_cons_False by (rewrite Hc; done).
  - unfold bind. simpl. rewrite IH.
    by rewrite filter_cons_True by done.
Qed.

Lemma declined_passed (g : value -> M S value) cs s s' :
  declined g cs s s' -> passed (Some g) cs s s'.
Proof.
  induction 1; [apply passed_nil|by apply passed_null|].
  by eapply passed_falsy.
Qed.

Lemma falsy_passed cs s :
  Forall (fun c => truthy c = false) cs -> passed None cs s s.
Proof.
  induction 1 as [|c cs Hc _ IH]; [apply passed_nil|].
  destruct (nullish c) eqn:Hn; [by apply passed_null|].
  by eapply passed_falsy.
Qed.

(** C3. [someProp] looks at the direct prop value first and then at each
    plugin's prop value in registration order. With a callback [g]:
    values that are [null] or [undefined] are skipped without calling [g];
    the first result of [g] that is truthy is returned, and the resolution
    stops there: the state is the one right after that call, [g] is not
    called on the later candidates. Without a callback: the first truthy
    value is returned itself. When the candidates run out, the result is
    [undefined]. *)
Theorem someProp_first_truthy _props plugins propName pre c post :
  candidates _props plugins propName = pre ++ c :: post ->
  (forall (g : value -> M S value) s s1 s2 r,
      declined g pre s s1 ->
      nullish c = false ->
      g c s1 = (Ok r, s2) ->
      truthy r = true ->
      someProp _props plugins propName (Some g) s = (Ok r, s2))
  /\ (forall s,
        Forall (fun x => truthy x = false) pre ->
        truthy c = true ->
        someProp _props plugins propName None s = (Ok c, s))
  /\ (forall (g : value -> M S value) s s',
        declined g (pre ++ c :: post) s s' ->
        someProp _props plugins propName (Some g) s = (Ok VUndefined, s'))
  /\ (forall s,
        Forall (fun x => truthy x = false) (pre ++ c :: post) ->
        someProp _props plugins propName None s = (Ok VUndefined, s)).
Proof.
  intros Hc. split; [|split; [|split]].
  - intros g s s1 s2 r Hpre Hn Hr Ht. apply declined_passed in Hpre.
    rewrite someProp_resolve, Hc, (resolve_passed _ _ _ _ _ Hpre).
    simpl. rewrite Hn. unfold bind. by rewrite Hr, Ht.
  - intros s Hpre Ht.
    rewrite someProp_resolve, Hc,
      (resolve_passed _ _ _ _ _ (falsy_passed _ s Hpre)).
    simpl. destruct (nullish c) eqn:Hn; [by destruct c|].
    unfold bind, ret. by rewrite Ht.
  - intros g s s' H. apply someProp_none. rewrite Hc.
    by apply declined_passed.
  - intros s H. apply someProp_none. rewrite Hc. by apply falsy_passed.
Qed.
End SomePropFacts.

Lemma someProp_first_truthy_witness :
  candidates Samples.margin_props Samples.margin_plugins "scrollMargin"
  = [VNum 0; VUndefined] ++ VNum 5 :: [VNum 9]
  /\ someProp Samples.margin_props Samples.margin_plugins "scrollMargin"
              (Some Samples.above_three) []
     = (Ok (VBool true), [VNum 5; VNum 0])
  /\ someProp (S:=unit) Samples.margin_props Samples.margin_plugins
              "scrollMargin" None tt
     = (Ok (VNum 5), tt).
Proof.
  split; [reflexivity|]. split.
  - apply (proj1 (someProp_first_truthy (S:=list value)
                    Samples.margin_props Samples.margin_plugins
                    "scrollMargin" [VNum 0; VUndefined] (VNum 5) [VNum 9]
                    eq_refl)
             Samples.above_three [] [VNum 0]).
    + eapply declined_falsy; [reflexivity|reflexivity|reflexivity|].
      apply declined_null; [reflexivity|]. apply declined_nil.
    + reflexivity.
    + reflexivity.
    + reflexivity.
  - apply (proj1 (proj2 (someProp_first_truthy (S:=unit)
                    Samples.margin_props Samples.margin_plugins
                    "scrollMargin" [VNum 0; VUndefined] (VNum 5) [VNum 9]
                    eq_refl)) tt).
    + repeat constructor.
    + reflexivity.
Defined.

(** ** The document-root decoration *)

Lemma string_app_cons (x : Ascii.ascii) (a b : string) :
  String x a +:+ b = String x (a +:+ b).
Proof. reflexivity. Qed.

Lemma string_app_nil_r (a : string) : a +:+ "" = a.
Proof.
  induction a as [|x a IH]; [reflexivity|].
  by rewrite string_app_cons, IH.
Qed.

Lemma string_app_assoc (a b c : string) : (a +:+ b) +:+ c = a +:+ b +:+ c.
Proof.
  induction a as [|x a IH]; [reflexivity|].
  by rewrite !string_app_cons, IH.
Qed.

Lemma class_suffix_app (xs ys : list string) :
  class_suffix (xs ++ ys) = class_suffix xs +:+ class_suffix ys.
Proof.
  induction xs as [|x xs IH]; simpl; [done|].
  rewrite IH. by rewrite !string_app_assoc.
Qed.

Section DocDeco.
Variable env : Env.
Implicit Types (attrs : gmap string string) (e : string * value).

Lemma addAttribute_class attrs e c :
  attrs !! "class" = Some c ->
  addAttribute env attrs e !! "class"
  = Some (c +:+ class_suffix
                  (map (fun e => to_string env (snd e))
                       (filter (fun e => fst e = "class") [e]))).
Proof.
  intros Hc. destruct e as [k x]. unfold addAttribute.
  destruct (String.eqb_spec k "class") as [->|Hk].
  - rewrite lookup_insert_eq, Hc. simpl.
    by rewrite string_app_nil_r.
  - rewrite filter_cons_False by done. rewrite filter_nil. simpl.
    rewrite string_app_nil_r.
    destruct (_ && _); [|done]. by rewrite lookup_insert_ne.
Qed.

(** An entry never touches an attribute named [contenteditable] or
    [nodeName], and leaves alone every attribute whose name is not its
    own. *)
Lemma addAttribute_other attrs e a :
  a ≠ "class" ->
  a = "contenteditable" \/ a = "nodeName" \/ a ≠ fst e ->
  addAttribute env attrs e !! a = attrs !! a.
Proof.
  intros Hcl Ha. destruct e as [k x]. unfold addAttribute. simpl in Ha.
  destruct (String.eqb_spec k "class") as [->|Hk].
  { by rewrite lookup_insert_ne. }
  destruct (String.eqb_spec k "contenteditable") as [->|Hce].
  { by rewrite andb_false_r. }
  destruct (String.eqb_spec k "nodeName") as [->|Hnn].
  { by rewrite andb_false_r. }
  destruct (_ && _); [|done].
  rewrite lookup_insert_ne; [done|].
  intros Heq. subst. destruct Ha as [?|[?|?]]; congruence.
Qed.

(** First-wins: an attribute that holds a non-empty string is kept. *)
Lemma addAttribute_keep attrs e a s :
  a ≠ "class" -> attrs !! a = Some s -> s ≠ "" ->
  addAttribute env attrs e !! a = Some s.
Proof.
  intros Hcl Ha Hs. destruct e as [k x]. unfold addAttribute.
  destruct (String.eqb_spec k "class") as [->|Hk].
  { by rewrite lookup_insert_ne. }
  destruct (decide (k = a)) as [->|Hne].
  - rewrite Ha. simpl. destruct s; [done|]. simpl. done.
  - destruct (_ && _); [|done]. by rewrite lookup_insert_ne.
Qed.

Lemma foldl_addAttribute_class es attrs c :
  attrs !! "class" = Some c ->
  foldl (addAttribute env) attrs es !! "class"
  = Some (c +:+ class_suffix
                  (map (fun e => to_string env (snd e))
                       (filter (fun e => fst e = "class") es))).
Proof.
  revert attrs c. induction es as [|e es IH]; intros attrs c Hc; simpl.
  - simpl. by rewrite Hc, string_app_nil_r.
  - rewrite (IH _ _ (addAttribute_class _ e _ Hc)).
    change (e :: es) with ([e] ++ es).
    rewrite filter_app, map_app, class_suffix_app.
    by rewrite string_app_assoc.
Qed.

Lemma foldl_addAttribute_fixed es attrs a :
  a = "contenteditable" \/ a = "nodeName" ->
  foldl (addAttribute env) attrs es !! a = attrs !! a.
Proof.
  intros Ha. revert attrs. induction es as [|e es IH]; intros attrs; simpl.
  - done.
  - rewrite IH. apply addAttribute_other; [|tauto].
    by destruct Ha as [-> | ->].
Qed.

Lemma foldl_addAttribute_keep es attrs a s :
  a ≠ "class" -> attrs !! a = Some s -> s ≠ "" ->
  foldl (addAttribute env) attrs es !! a = Some s.
Proof.
  intros Hcl Ha Hs. revert attrs Ha.
  induction es as [|e es IH]; intros attrs Ha; simpl; [done|].
  apply IH. by apply addAttribute_keep.
Qed.

Lemma attributesCallback_entries st reg attrs :
  snd (attributesCallback env st reg attrs)
  = foldl (addAttribute env) attrs (entries_of env st reg).
Proof.
  unfold attributesCallback, entries_of. simpl.
  by destruct (truthy _).
Qed.

Lemma mergeAttributes_cons st reg regs attrs :
  mergeAttributes env st (reg :: regs) attrs
  = mergeAttributes env st regs
      (foldl (addAttribute env) attrs (entries_of env st reg)).
Proof.
  rewrite <- attributesCallback_entries. reflexivity.
Qed.

Lemma mergeAttributes_app st regs1 regs2 attrs :
  mergeAttributes env st (regs1 ++ regs2) attrs
  = mergeAttributes env st regs2 (mergeAttributes env st regs1 attrs).
Proof. unfold mergeAttributes. apply foldl_app. Qed.

Lemma class_values_cons st reg regs :
  class_values env st (reg :: regs)
  = map (fun e => to_string env (snd e))
        (filter (fun e => fst e = "class") (entries_of env st reg))
    ++ class_values env st regs.
Proof.
  unfold class_values. rewrite map_cons, concat_cons.
  by rewrite filter_app, map_app.
Qed.

Lemma mergeAttributes_class st regs attrs c :
  attrs !! "class" = Some c ->
  mergeAttributes env st regs attrs !! "class"
  = Some (c +:+ class_suffix (class_values env st regs)).
Proof.
  revert attrs c.
  induction regs as [|reg regs IH]; intros attrs c Hc.
  - cbn. by rewrite Hc, string_app_nil_r.
  - rewrite mergeAttributes_cons, class_values_cons, class_suffix_app.
    rewrite (IH _ _ (foldl_addAttribute_class _ _ _ Hc)).
    by rewrite string_app_assoc.
Qed.

Lemma mergeAttributes_fixed st regs attrs a :
  a = "contenteditable" \/ a = "nodeName" ->
  mergeAttributes env st regs attrs !! a = attrs !! a.
Proof.
  intros Ha. revert attrs.
  induction regs as [|reg regs IH]; intros attrs; [done|].
  rewrite mergeAttributes_cons, IH.
  by apply foldl_addAttribute_fixed.
Qed.

Lemma mergeAttributes_keep st regs attrs a s :
  a ≠ "class" -> attrs !! a = Some s -> s ≠ "" ->
  mergeAttributes env st regs attrs !! a = Some s.
Proof.
  intros Hcl Ha Hs. revert attrs Ha.
  induction regs as [|reg regs IH]; intros attrs Ha; [done|].
  rewrite mergeAttributes_cons. apply IH.
  by apply foldl_addAttribute_keep.
Qed.

(** [computeDocDeco] never throws: it returns one node decoration over the
    whole document whose attributes are the registrants merged, in
    resolution order, into the initial attribute object. *)
Lemma computeDocDeco_merge v :
  computeDocDeco env v
  = Ok [ {| deco_from := 0;
            deco_to := content_size (doc (state v));
            deco_attrs := mergeAttributes env (state v) (registrants v)
                                          (initialAttrs env v) |} ].
Proof.
  unfold computeDocDeco. rewrite someProp_resolve.
  change (Some (attributesCallback env (state v)))
    with (Some (fun c s =>
                  (@Ok value VUndefined,
                   snd (attributesCallback env (state v) c s)))).
  by rewrite resolve_accumulate.
Qed.
End DocDeco.

Lemma class_suffix_shape (cs : list string) :
  class_suffix cs = "" \/ exists r, class_suffix cs = " " +:+ r.
Proof. destruct cs as [|c cs]; [by left|right]. simpl. eauto. Qed.

(** C10. The document-root decoration always has a class attribute that
    starts with the token [ProseMirror] and a [contenteditable] attribute
    that is the string form of [view.editable], whatever the [attributes]
    props hold; no registrant sets [nodeName]. In particular, whatever flag
    an update stores in [view.editable] (line 169, from [getEditable]), the
    decoration computed next (line 171) carries its string form. *)
Theorem docDeco_fixed_attributes (env : Env) (v : View) :
  exists attrs,
    computeDocDeco env v
    = Ok [ {| deco_from := 0; deco_to := content_size (doc (state v));
              deco_attrs := attrs |} ]
    /\ (exists rest,
          attrs !! "class" = Some ("ProseMirror" +:+ rest)
          /\ (rest = "" \/ exists r, rest = " " +:+ r))
    /\ attrs !! "contenteditable" = Some (if editable v then "true" else "false")
    /\ attrs !! "nodeName" = None
    /\ forall e,
         exists attrs',
           computeDocDeco env (set_editable e v)
           = Ok [ {| deco_from := 0; deco_to := content_size (doc (state v));
                     deco_attrs := attrs' |} ]
           /\ attrs' !! "contenteditable" = Some (to_string env (VBool e)).
Proof.
  eexists. split; [apply computeDocDeco_merge|]. split; [|split; [|split]].
  - eexists. split; [by apply mergeAttributes_class|].
    apply class_suffix_shape.
  - rewrite mergeAttributes_fixed by tauto.
    unfold initialAttrs. rewrite lookup_insert_eq. by destruct (editable v).
  - rewrite mergeAttributes_fixed by tauto.
    unfold initialAttrs. by rewrite !lookup_insert_ne.
  - intros e. eexists.
    split; [rewrite computeDocDeco_merge; reflexivity|].
    rewrite mergeAttributes_fixed by tauto.
    unfold initialAttrs. by rewrite lookup_insert_eq.
Qed.

(** ** Running the monad *)

Lemma bind_inv {S A B} (m : M S A) (k : A -> M S B) s r s' :
  bind m k s = (r, s') ->
  (exists a s1, m s = (Ok a, s1) /\ k a s1 = (r, s'))
  \/ (exists e, m s = (Throw e, s') /\ r = Throw e).
Proof.
  unfold bind. destruct (m s) as [[a|e] s1]; intros H.
  - left. eauto.
  - right. inversion H; subst. eauto.
Qed.

Lemma bracketed_app p xs ys :
  bracketed p (xs ++ ys)
  = bracketed p xs && bracketed (paused_after p xs) ys.
Proof.
  revert p. induction xs as [|x xs IH]; intros p; [done|].
  destruct x; simpl; rewrite ?IH; try done; by rewrite andb_assoc.
Qed.

Lemma paused_after_app p xs ys :
  paused_after p (xs ++ ys) = paused_after (paused_after p xs) ys.
Proof.
  revert p. induction xs as [|x xs IH]; intros p; [done|].
  destruct x; simpl; by rewrite ?IH.
Qed.

Lemma quiet_bracketed p evs :
  Forall quiet evs -> bracketed p evs = true /\ paused_after p evs = p.
Proof.
  induction 1 as [|ev evs [Hm Ho] _ [IH1 IH2]]; [done|].
  destruct ev; simpl in *; try discriminate; rewrite ?IH1, ?IH2; done.
Qed.

Section Logic.
Variable env : Env.
Context {A B : Type}.
Implicit Types (P : Event -> Prop) (p : bool).

Lemma only_ret P (a : A) : only P (ret a).
Proof.
  intros w r w' H. inversion H; subst.
  exists []. by rewrite app_nil_r.
Qed.

Lemma only_throw P e : only P (throw (A:=A) e).
Proof.
  intros w r w' H. inversion H; subst.
  exists []. by rewrite app_nil_r.
Qed.

Lemma only_lift P (x : Result A) : only P (lift x).
Proof.
  intros w r w' H. inversion H; subst.
  exists []. by rewrite app_nil_r.
Qed.

Lemma only_bind P (m : M World A) (k : A -> M World B) :
  only P m -> (forall a, only P (k a)) -> only P (bind m k).
Proof.
  intros Hm Hk w r w' H.
  apply bind_inv in H as [(a & w1 & H1 & H2)|(e & H1 & ->)].
  - destruct (Hm _ _ _ H1) as (e1 & E1 & F1).
    destruct (Hk _ _ _ _ H2) as (e2 & E2 & F2).
    exists (e1 ++ e2). rewrite E2, E1, app_assoc.
    split; [done|by apply Forall_app].
  - by apply (Hm _ _ _ H1).
Qed.

Lemma only_weaken P (Q : Event -> Prop) (m : M World A) :
  (forall ev, P ev -> Q ev) -> only P m -> only Q m.
Proof.
  intros HPQ Hm w r w' H. destruct (Hm _ _ _ H) as (evs & -> & F).
  exists evs. split; [done|]. eapply Forall_impl; eauto.
Qed.

Lemma tracks_ret p (a : A) : tracks p p (ret a).
Proof.
  intros w r w' H. inversion H; subst.
  exists []. by rewrite app_nil_r.
Qed.

Lemma tracks_throw p p' e : tracks p p' (throw (A:=A) e).
Proof.
  intros w r w' H. inversion H; subst.
  exists []. rewrite app_nil_r. repeat split; [done..|]. intros; discriminate.
Qed.

Lemma tracks_lift p (x : Result A) : tracks p p (lift x).
Proof.
  intros w r w' H. inversion H; subst.
  exists []. by rewrite app_nil_r.
Qed.

Lemma tracks_bind p p1 p' (m : M World A) (k : A -> M World B) :
  tracks p p1 m -> (forall a, tracks p1 p' (k a)) -> tracks p p' (bind m k).
Proof.
  intros Hm Hk w r w' H.
  apply bind_inv in H as [(a & w1 & H1 & H2)|(e & H1 & ->)].
  - destruct (Hm _ _ _ H1) as (e1 & E1 & B1 & F1).
    destruct (Hk _ _ _ _ H2) as (e2 & E2 & B2 & F2).
    exists (e1 ++ e2). rewrite E2, E1, app_assoc. split; [done|].
    rewrite bracketed_app, paused_after_app, B1, (F1 _ eq_refl).
    split; [done|]. apply F2.
  - destruct (Hm _ _ _ H1) as (e1 & E1 & B1 & F1).
    exists e1. repeat split; [done..|]. intros; discriminate.
Qed.

Lemma tracks_bind_same p (m : M World A) (k : A -> M World B) :
  tracks p p m -> (forall a, tracks p p (k a)) -> tracks p p (bind m k).
Proof. apply tracks_bind. Qed.

Lemma tracks_only p (m : M World A) : only quiet m -> tracks p p m.
Proof.
  intros Hm w r w' H. destruct (Hm _ _ _ H) as (evs & -> & F).
  exists evs. destruct (quiet_bracketed p _ F) as [-> ->]. done.
Qed.
End Logic.

Section Calls.
Variable env : Env.
Implicit Types (P : Event -> Prop) (p : bool).

Lemma call_inv ev w r w' :
  call env ev w = (r, w') ->
  w' = log ev w
  /\ (raises env (trace w) ev = None /\ r = Ok tt
      \/ exists e, raises env (trace w) ev = Some e /\ r = Throw e).
Proof.
  unfold call. destruct (raises env (trace w) ev) eqn:E; intros H;
    inversion H; subst; eauto.
Qed.

Lemma only_call P ev : P ev -> only P (call env ev).
Proof.
  intros HP w r w' H. apply call_inv in H as [-> _].
  exists [ev]. split; [done|]. by constructor.
Qed.

Lemma only_emit P ev : P ev -> only P (emit ev).
Proof.
  intros HP w r w' H. inversion H; subst.
  exists [ev]. split; [done|]. by constructor.
Qed.

Lemma only_get_view P : only P get_view.
Proof.
  intros w r w' H. inversion H; subst. exists []. by rewrite app_nil_r.
Qed.

Lemma only_get P : only P (get (S:=World)).
Proof.
  intros w r w' H. inversion H; subst. exists []. by rewrite app_nil_r.
Qed.

Lemma only_modify_view P f : only P (modify_view f).
Proof.
  intros w r w' H. inversion H; subst. exists []. by rewrite app_nil_r.
Qed.

Lemma tracks_call p p' ev :
  bracketed p [ev] = true -> paused_after p [ev] = p' ->
  tracks p p' (call env ev).
Proof.
  intros Hb Hp w r w' H. apply call_inv in H as [-> _].
  exists [ev]. done.
Qed.

Lemma tracks_emit p ev : quiet ev -> tracks p p (emit ev).
Proof. intros Hq. by apply tracks_only, only_emit. Qed.

Lemma tracks_get_view p : tracks p p get_view.
Proof. apply tracks_only, only_get_view. Qed.

Lemma tracks_get p : tracks p p (get (S:=World)).
Proof. apply tracks_only, only_get. Qed.

Lemma tracks_modify_view p f : tracks p p (modify_view f).
Proof. apply tracks_only, only_modify_view. Qed.

End Calls.

Ltac only_go :=
  repeat first
    [ apply only_ret | apply only_throw | apply only_lift
    | apply only_get_view | apply only_get | apply only_modify_view
    | (apply only_call; done) | (apply only_emit; done)
    | (apply only_bind; [|intros ?])
    | match goal with
      | |- only _ (if ?b then _ else _) => destruct b
      | |- only _ (match ?x with _ => _ end) => destruct x
      end ].

(** Steps through a computation during which the observer state stays the
    same. *)
Ltac tracks_go :=
  repeat first
    [ apply tracks_ret | apply tracks_lift
    | apply tracks_get_view | apply tracks_get | apply tracks_modify_view
    | (apply tracks_call; [reflexivity|reflexivity])
    | (apply tracks_emit; done)
    | (apply tracks_bind_same; [|intros ?])
    | match goal with
      | |- tracks _ _ (if ?b then _ else _) => destruct b
      | |- tracks _ _ (match ?x with _ => _ end) => destruct x
      end ].

Section Blocks.
Variable env : Env.
Implicit Types (P : Event -> Prop) (p : bool).

Lemma only_resolve P (f : value -> M World value) cs :
  (forall c, only P (f c)) -> only P (resolve (Some f) cs).
Proof.
  intros Hf. induction cs as [|c cs IH]; simpl; [apply only_ret|].
  destruct (nullish c); [done|].
  apply only_bind; [apply Hf|]. intros r.
  destruct (truthy r); [apply only_ret|done].
Qed.

Lemma only_someProp P _props plugins propName (f : value -> M World value) :
  (forall c, only P (f c)) ->
  only P (someProp _props plugins propName (Some f)).
Proof.
  intros Hf w r w' H. rewrite someProp_resolve in H.
  by apply (only_resolve P f (candidates _props plugins propName) Hf w r w').
Qed.

Lemma only_callHandler c : only handler_call (callHandler env c).
Proof. unfold callHandler. only_go. Qed.

Lemma only_destroy_loop pvs : only plugin_view_event (destroy_loop env pvs).
Proof. induction pvs as [|pv pvs IH]; simpl; only_go. done. Qed.

Lemma only_create_loop ps : only plugin_view_event (create_loop env ps).
Proof. induction ps as [|pl ps IH]; simpl; only_go; done. Qed.

Lemma only_update_loop pvs prev :
  only plugin_view_event (update_loop env pvs prev).
Proof. induction pvs as [|pv pvs IH]; simpl; only_go; done. Qed.

Lemma only_updatePluginViews prev :
  only plugin_view_event (updatePluginViews env prev).
Proof.
  unfold updatePluginViews, destroyPluginViews.
  only_go; first [apply only_destroy_loop | apply only_create_loop
                 | apply only_update_loop].
Qed.

Lemma only_scrollAfterUpdate scroll old st :
  only scroll_event (scrollAfterUpdate env scroll old st).
Proof.
  unfold scrollAfterUpdate. destruct scroll; only_go.
  eapply only_weaken; [|apply only_someProp, only_callHandler].
  by intros [].
Qed.

Lemma plugin_view_event_quiet ev : plugin_view_event ev -> quiet ev.
Proof. by destruct ev. Qed.

Lemma scroll_event_quiet ev : scroll_event ev -> quiet ev.
Proof. by destruct ev. Qed.

Lemma tracks_updatePluginViews p prev :
  tracks p p (updatePluginViews env prev).
Proof.
  apply tracks_only. eapply only_weaken; [|apply only_updatePluginViews].
  apply plugin_view_event_quiet.
Qed.

Lemma tracks_scrollAfterUpdate p scroll old st :
  tracks p p (scrollAfterUpdate env scroll old st).
Proof.
  apply tracks_only. eapply only_weaken; [|apply only_scrollAfterUpdate].
  apply scroll_event_quiet.
Qed.


Lemma tracks_updateCursorWrapper p : tracks p p updateCursorWrapper.
Proof. unfold updateCursorWrapper. tracks_go. Qed.

Lemma tracks_updateDocView st redraw outer inner force :
  tracks true true (updateDocView env st redraw outer inner force).
Proof. unfold updateDocView, tree_call. tracks_go. Qed.

Lemma tracks_writeSelection st force :
  tracks true true (writeSelection env st force).
Proof. unfold writeSelection. tracks_go. Qed.

Lemma tracks_resync st prev redraw updateDoc outer inner :
  tracks false false (resync env st prev redraw updateDoc outer inner).
Proof.
  unfold resync.
  apply (tracks_bind false true false);
    [apply tracks_call; reflexivity|intros _].
  apply (tracks_bind true true false); [apply tracks_get_view|intros v].
  apply (tracks_bind true true false).
  { destruct updateDoc; [apply tracks_updateDocView|apply tracks_ret]. }
  intros force.
  apply (tracks_bind true true false);
    [apply tracks_writeSelection|intros _].
  apply tracks_call; reflexivity.
Qed.


End Blocks.

(** ** The observer is paused around mutations *)



(** ** What plugin views and scrolling leave alone *)

Section Keeps.
Variable env : Env.
Context {A B : Type}.

Lemma same_state_refl v : same_state v v.
Proof. done. Qed.

Lemma same_state_trans v1 v2 v3 :
  same_state v1 v2 -> same_state v2 v3 -> same_state v1 v3.
Proof. intros (? & ? & ?) (? & ? & ?). repeat split; congruence. Qed.

Lemma keeps_ret (a : A) : keeps (ret a).
Proof. intros w r w' H. inversion H; subst. done. Qed.

Lemma keeps_throw e : keeps (throw (A:=A) e).
Proof. intros w r w' H. inversion H; subst. done. Qed.

Lemma keeps_bind (m : M World A) (k : A -> M World B) :
  keeps m -> (forall a, keeps (k a)) -> keeps (bind m k).
Proof.
  intros Hm Hk w r w' H.
  apply bind_inv in H as [(a & w1 & H1 & H2)|(e & H1 & ->)].
  - eapply same_state_trans; [by eapply Hm|by eapply Hk].
  - by eapply Hm.
Qed.
End Keeps.

Section KeepsCalls.
Variable env : Env.

Lemma keeps_call ev : keeps (call env ev).
Proof. intros w r w' H. apply call_inv in H as [-> _]. done. Qed.

Lemma keeps_emit ev : keeps (emit ev).
Proof. intros w r w' H. inversion H; subst. done. Qed.

Lemma keeps_get_view : keeps get_view.
Proof. intros w r w' H. inversion H; subst. done. Qed.

Lemma keeps_get : keeps (get (S:=World)).
Proof. intros w r w' H. inversion H; subst. done. Qed.

Lemma keeps_modify_view f :
  (forall v, same_state v (f v)) -> keeps (modify_view f).
Proof. intros Hf w r w' H. inversion H; subst. apply Hf. Qed.
End KeepsCalls.

Ltac keeps_go :=
  repeat first
    [ apply keeps_ret | apply keeps_throw
    | apply keeps_get_view | apply keeps_get
    | apply keeps_call | apply keeps_emit
    | (apply keeps_modify_view; done)
    | (apply keeps_bind; [|intros ?])
    | match goal with
      | |- keeps (if ?b then _ else _) => destruct b
      | |- keeps (match ?x with _ => _ end) => destruct x
      end ].

Section KeepsBlocks.
Variable env : Env.

Lemma keeps_resolve (f : value -> M World value) cs :
  (forall c, keeps (f c)) -> keeps (resolve (Some f) cs).
Proof.
  intros Hf. induction cs as [|c cs IH]; simpl; [apply keeps_ret|].
  destruct (nullish c); [done|].
  apply keeps_bind; [apply Hf|]. intros r.
  destruct (truthy r); [apply keeps_ret|done].
Qed.

Lemma keeps_destroy_loop pvs : keeps (destroy_loop env pvs).
Proof. induction pvs as [|pv pvs IH]; simpl; keeps_go. done. Qed.

Lemma keeps_create_loop ps : keeps (create_loop env ps).
Proof. induction ps as [|pl ps IH]; simpl; keeps_go; done. Qed.

Lemma keeps_update_loop pvs prev : keeps (update_loop env pvs prev).
Proof. induction pvs as [|pv pvs IH]; simpl; keeps_go; done. Qed.

Lemma keeps_updatePluginViews prev : keeps (updatePluginViews env prev).
Proof.
  unfold updatePluginViews, destroyPluginViews.
  keeps_go; first [apply keeps_destroy_loop | apply keeps_create_loop
                  | apply keeps_update_loop].
Qed.

Lemma keeps_scrollAfterUpdate scroll old st :
  keeps (scrollAfterUpdate env scroll old st).
Proof.
  unfold scrollAfterUpdate. destruct scroll; keeps_go.
  intros w r w' H. rewrite someProp_resolve in H. revert w r w' H.
  apply keeps_resolve. intros c. unfold callHandler. keeps_go.
Qed.
End KeepsBlocks.

(** ** Updates that return normally *)

(** Symbolic execution of a run given as the hypothesis [H]: reduce, split
    on whatever blocks the reduction, drop the runs that throw. *)
Ltac run_in H :=
  repeat (try unfold bind, call in H; cbn in H;
          match type of H with
          | (Throw _, _) = (Ok _, _) => discriminate H
          | context [match ?x with _ => _ end] =>
              lazymatch x with
              | context [match _ with _ => _ end] => fail
              | _ => destruct x eqn:?
              end
          end).

(** Replays in the goal the case splits made while running. *)
Ltac replay :=
  cbn;
  repeat match goal with
         | E : ?x = _ |- context [match ?x with _ => _ end] => rewrite E; cbn
         end.

Section OkRuns.
Variable env : Env.

Lemma stopComposition_ok st w b w1 :
  stopComposition env st w = (Ok b, w1) ->
  b = is_set (storedMarks st) && composing (view w)
  /\ trace w1 = trace w ++ (if b then [ClearComposition] else [])
  /\ view w1 = (if b then set_composing false (view w) else view w).
Proof.
  unfold stopComposition, clearComposition. intros H.
  run_in H; inversion H; subst; cbn; rewrite ?app_nil_r; done.
Qed.

Lemma reconfigure_ok reconfigured w redraw w1 :
  reconfigure env reconfigured w = (Ok redraw, w1) ->
  trace w1 = trace w ++ (if reconfigured then [EnsureListeners] else [])
  /\ (redraw = true -> reconfigured = true)
  /\ exists nv, view w1 = set_nodeViews nv (view w).
Proof.
  unfold reconfigure. intros H.
  run_in H; inversion H; subst; cbn; rewrite ?app_nil_r;
    (split; [done|split; [done|]]);
    first [ by eexists
          | exists (nodeViews (view w)); by destruct (view w)
          | exists (nodeViews (view w1)); by destruct (view w1) ].
Qed.

Lemma refreshDecorations_ok w d w1 :
  refreshDecorations env w = (Ok d, w1) ->
  trace w1 = trace w
  /\ (exists e c, getEditable env (view w) = Ok e
                /\ view w1 = set_cursorWrapper c (set_editable e (view w)))
  /\ fst d = viewDecorations env (view w1)
  /\ computeDocDeco env (view w1) = Ok (snd d).
Proof.
  unfold refreshDecorations, updateCursorWrapper. intros H.
  run_in H; inversion H; subst; replay;
    (split; [done|]; split; [by eexists _, _|]; done).
Qed.

Lemma storeScroll_ok scroll updateSel w snap w1 :
  storeScroll env scroll updateSel w = (Ok snap, w1) ->
  let stored := is_preserve scroll && updateSel
                && negb (is_set (overflowAnchor (view w))) in
  snap = (if stored
          then Some (new_scrollPos env (trace w ++ [StoreScrollPos]))
          else None)
  /\ trace w1 = trace w ++ (if stored then [StoreScrollPos] else [])
  /\ view w1 = view w.
Proof.
  unfold storeScroll. intros H.
  run_in H; inversion H; subst; cbn; rewrite ?app_nil_r; done.
Qed.

Lemma writeSelection_ok st force w w1 :
  writeSelection env st force w = (Ok tt, w1) ->
  exists selw, trace w1 = trace w ++ selw
    /\ selection_shape st force selw
    /\ view w1 = view w.
Proof.
  unfold writeSelection. intros H.
  run_in H; inversion H; subst; cbn.
  - eexists. split; [done|]. split; [by left|done].
  - eexists. rewrite <- app_assoc. split; [done|]. split; [|done].
    right. split; [|done]. by destruct force.
Qed.

Lemma updateDocView_ok st redraw outer inner force w f' w1 :
  updateDocView env st redraw outer inner force w = (Ok f', w1) ->
  exists patch, trace w1 = trace w ++ patch
    /\ patch_shape env (trace w) (docView (view w)) (doc st) outer inner
                   redraw patch
    /\ (force = true -> f' = true)
    /\ (f' = true -> force = true \/ browser_chrome env = true)
    /\ (In (DocViewDesc (doc st) outer inner) patch ->
        docView (view w1) = new_docView env (trace w1))
    /\ exists dv tw, view w1 = set_docView dv (set_trackWrites tw (view w)).
Proof.
  unfold updateDocView, tree_call, patch_shape, rebuild_calls. intros H.
  run_in H; inversion H; subst; replay;
    (eexists; split; [by rewrite <- ?app_assoc|]);
    replay;
    (split; [done|]; split; [tauto|]; split; [tauto|]);
    (split; [first [ done | by intros [?|[]] ]|]);
    first [ by eexists _, _
          | match goal with
            | |- exists dv tw, set_trackWrites ?t _ = _ =>
                exists (docView (view w)), t; reflexivity
            end
          | exists (docView (view w)), (trackWrites (view w));
            by destruct (view w) ].
Qed.

Lemma call_ok ev w w1 :
  call env ev w = (Ok tt, w1) ->
  trace w1 = trace w ++ [ev] /\ view w1 = view w.
Proof. intros H. by apply call_inv in H as [-> _]. Qed.

Lemma resync_ok st prev redraw updateDoc outer inner w w1 :
  resync env st prev redraw updateDoc outer inner w = (Ok tt, w1) ->
  exists patch selw force,
    trace w1 = trace w ++ ObserverStop :: patch ++ selw ++ [ObserverStart]
    /\ (if updateDoc
        then patch_shape env (trace w ++ [ObserverStop]) (docView (view w))
                         (doc st) outer inner redraw patch
        else patch = [])
    /\ selection_shape st force selw
    /\ (contextForcesUpdate env updateDoc (composing (view w)) prev st = true
        -> force = true)
    /\ (force = true ->
        contextForcesUpdate env updateDoc (composing (view w)) prev st = true
        \/ (updateDoc = true /\ browser_chrome env = true))
    /\ (In (DocViewDesc (doc st) outer inner) patch ->
        docView (view w1)
        = new_docView env ((trace w ++ [ObserverStop]) ++ patch))
    /\ exists dv tw, view w1 = set_docView dv (set_trackWrites tw (view w)).
Proof.
  unfold resync. intros H.
  apply bind_inv in H as [([] & w2 & H1 & H)|(? & ? & ?)]; [|discriminate].
  apply call_ok in H1 as [T1 V1].
  cbn in H.
  apply bind_inv in H as [(force & w3 & H2 & H)|(? & ? & ?)]; [|discriminate].
  apply bind_inv in H as [([] & w4 & H3 & H)|(? & ? & ?)]; [|discriminate].
  apply writeSelection_ok in H3 as (selw & T3 & S3 & V3).
  apply call_ok in H as [T4 V4].
  rewrite V1 in H2.
  destruct updateDoc.
  - apply updateDocView_ok in H2
      as (patch & T2 & P2 & F1 & F2 & D2 & dv & tw & V2).
    rewrite T1, V1 in P2.
    exists patch, selw, force. rewrite T4, T3, T2, T1.
    rewrite <- !app_assoc. split; [done|]. split; [done|]. split; [done|].
    split; [done|]. split; [tauto|].
    split. { intros Hin. rewrite V4, V3, (D2 Hin), T2, T1.
             by rewrite <- !app_assoc. }
    exists dv, tw. by rewrite V4, V3, V2, V1.
  - inversion H2; subst.
    exists [], selw, false. rewrite T4, T3, T1.
    rewrite <- !app_assoc. split; [done|]. split; [done|]. split; [done|].
    split; [done|]. split; [done|]. split; [by intros []|].
    exists (docView (view w)), (trackWrites (view w)).
    rewrite V4, V3, V1. by destruct (view w).
Qed.

Lemma handlers_ok cs w r w1 :
  resolve (Some (callHandler env)) cs w = (Ok r, w1) ->
  exists calls, trace w1 = trace w ++ calls
    /\ Forall handler_call calls
    /\ view w1 = view w
    /\ (truthy r = true ->
        calls ≠ [] /\ r = handler_result env (trace w ++ calls)).
Proof.
  revert w. induction cs as [|c cs IH]; intros w H.
  - inversion H; subst. exists []. rewrite app_nil_r. by repeat split.
  - cbn [resolve] in H. destruct (nullish c); [by apply IH|].
    apply bind_inv in H as [(r0 & w2 & H1 & H)|(? & ? & ?)]; [|discriminate].
    destruct c; try discriminate H1. cbn in H1.
    apply bind_inv in H1 as [([] & w3 & H1 & H2)|(? & ? & ?)];
      [|discriminate].
    apply call_ok in H1 as [T1 V1]. inversion H2; subst.
    destruct (truthy (handler_result env (trace w2))) eqn:Ht.
    + inversion H; subst. exists [CallHandler ref].
      split; [done|]. split; [by repeat constructor|]. split; [done|].
      intros _. split; [done|]. by rewrite T1.
    + apply IH in H as (calls & T & F & V & Hr).
      exists (CallHandler ref :: calls). rewrite T, T1, <- app_assoc.
      split; [done|]. split; [by constructor|]. split; [congruence|].
      intros Hy. destruct (Hr Hy) as [_ ->]. split; [done|].
      by rewrite T1, <- app_assoc.
Qed.

Lemma scrollAfterUpdate_ok scroll old st w w1 :
  scrollAfterUpdate env scroll old st w = (Ok tt, w1) ->
  exists scr, trace w1 = trace w ++ scr
    /\ scroll_shape env st scroll old (trace w) scr
    /\ (scroll = ScrollReset -> scrollTop (view w1) = 0).
Proof.
  unfold scrollAfterUpdate. intros H. destruct scroll.
  - inversion H; subst. by exists [SetScrollTop 0].
  - cbn in H.
    apply bind_inv in H as [(r & w2 & H1 & H)|(? & ? & ?)]; [|discriminate].
    rewrite someProp_resolve in H1.
    apply handlers_ok in H1 as (calls & T & F & V & Hr).
    destruct (truthy r) eqn:Ht.
    + inversion H; subst. exists calls. split; [done|]. split; [|done].
      exists calls. split; [done|]. left. destruct (Hr eq_refl) as [? ->].
      by rewrite Ht.
    + cbn in H.
      destruct (sel_isNode (selection st)) eqn:Hn;
        apply call_ok in H as [T2 V2];
        rewrite T, <- app_assoc in T2;
        eexists; (split; [exact T2|]); (split; [|done]);
        exists calls; (split; [done|]); right; by rewrite Hn.
  - destruct old as [pos|].
    + apply call_ok in H as [T V]. by exists [ResetScrollPos pos].
    + inversion H; subst. exists []. by rewrite app_nil_r.
Qed.

(** The trace and the view after an update that returned normally. *)
Lemma updateStateInner_ok st reconfigured w w1 :
  updateStateInner env st reconfigured w = (Ok tt, w1) ->
  exists (cleared redraw updateDoc updateSel stored : bool)
         (outer : list NodeDeco) (inner : InnerDeco)
         (pre sync pvs scr : list Event),
    cleared = is_set (storedMarks st) && composing (view w)
    /\ pre = (if cleared then [ClearComposition] else [])
             ++ (if reconfigured then [EnsureListeners] else [])
    /\ updateDoc
       = redraw || negb (matchesNode env (trace w ++ pre) (docView (view w))
                                     (doc st) outer inner)
    /\ updateSel
       = cleared || updateDoc
         || negb (sel_eq env (selection st) (selection (state (view w))))
    /\ stored
       = is_preserve (scrollMode reconfigured st (state (view w)))
         && updateSel && negb (is_set (overflowAnchor (view w)))
    /\ trace w1
       = trace w ++ pre ++ (if stored then [StoreScrollPos] else [])
                 ++ sync ++ pvs ++ scr
    /\ (redraw = true -> reconfigured = true)
    /\ (if updateSel
        then exists patch selw force,
            sync = ObserverStop :: patch ++ selw ++ [ObserverStart]
            /\ (if updateDoc
                then patch_shape env
                       (((trace w ++ pre)
                         ++ (if stored then [StoreScrollPos] else []))
                        ++ [ObserverStop])
                       (docView (view w)) (doc st) outer inner redraw patch
                else patch = [])
            /\ selection_shape st force selw
            /\ (contextForcesUpdate env updateDoc
                  (composing (view w) && negb cleared) (state (view w)) st
                = true -> force = true)
            /\ (force = true ->
                contextForcesUpdate env updateDoc
                  (composing (view w) && negb cleared) (state (view w)) st
                = true
                \/ (updateDoc = true /\ browser_chrome env = true))
            /\ (In (DocViewDesc (doc st) outer inner) patch ->
                docView (view w1)
                = new_docView env
                    ((((trace w ++ pre)
                       ++ (if stored then [StoreScrollPos] else []))
                      ++ [ObserverStop]) ++ patch))
        else sync = [])
    /\ Forall plugin_view_event pvs
    /\ scroll_shape env st (scrollMode reconfigured st (state (view w)))
         (if stored
          then Some (new_scrollPos env ((trace w ++ pre) ++ [StoreScrollPos]))
          else None)
         ((((trace w ++ pre) ++ (if stored then [StoreScrollPos] else []))
           ++ sync) ++ pvs) scr
    /\ state (view w1) = st
    /\ composing (view w1) = composing (view w) && negb cleared
    /\ (reconfigured = true -> scrollTop (view w1) = 0).
Proof.
  unfold updateStateInner. intros H. cbn in H.
  apply bind_inv in H as [(b & w2 & H1 & H)|(? & ? & ?)]; [|discriminate].
  apply stopComposition_ok in H1 as (-> & T1 & V1).
  cbn in H.
  apply bind_inv in H as [(redraw & w3 & H2 & H)|(? & ? & ?)];
    [|discriminate].
  apply reconfigure_ok in H2 as (T2 & R2 & nv & V2).
  apply bind_inv in H as [([inner outer] & w4 & H3 & H)|(? & ? & ?)];
    [|discriminate].
  apply refreshDecorations_ok in H3 as (T3 & (e & c & _ & V3) & I3 & O3).
  cbn in H.
  apply bind_inv in H as [(old & w5 & H4 & H)|(? & ? & ?)]; [|discriminate].
  apply storeScroll_ok in H4 as (-> & T4 & V4).
  apply bind_inv in H as [([] & w6 & H5 & H)|(? & ? & ?)]; [|discriminate].
  apply bind_inv in H as [([] & w7 & H6 & H)|(? & ? & ?)]; [|discriminate].
  pose proof (only_updatePluginViews env _ _ _ _ H6) as (pvs & T6 & F6).
  pose proof (keeps_updatePluginViews env _ _ _ _ H6) as (S6 & C6 & D6).
  pose proof (keeps_scrollAfterUpdate env _ _ _ _ _ _ H) as (S7 & C7 & D7).
  apply scrollAfterUpdate_ok in H as (scr & T7 & Sh7 & Z7).
  assert (trace w4 = trace w
            ++ (if is_set (storedMarks st) && composing (view w)
                then [ClearComposition] else [])
            ++ (if reconfigured then [EnsureListeners] else [])) as E4.
  { rewrite T3, T2. cbn. by rewrite T1, <- app_assoc. }
  assert (docView (view w4) = docView (view w)
          /\ overflowAnchor (view w4) = overflowAnchor (view w)
          /\ state (view w4) = st
          /\ composing (view w4)
             = composing (view w)
               && negb (is_set (storedMarks st) && composing (view w)))
    as (Edv & Eoa & Est & Eco).
  { rewrite V3, V2. cbn. rewrite V1.
    destruct (is_set (storedMarks st)), (composing (view w)) eqn:Ec;
      cbn; rewrite ?Ec; done. }
  rewrite E4, Edv in T4, H5, Sh7. rewrite Eoa in T4, Sh7.
  set (cleared := is_set (storedMarks st) && composing (view w)) in *.
  set (pre := (if cleared then [ClearComposition] else [])
              ++ (if reconfigured then [EnsureListeners] else [])) in *.
  set (updateDoc := redraw || negb (matchesNode env (trace w ++ pre)
                      (docView (view w)) (doc st) outer inner)) in *.
  set (updateSel := cleared || updateDoc
         || negb (sel_eq env (selection st) (selection (state (view w)))))
    in *.
  set (stored := is_preserve (scrollMode reconfigured st (state (view w)))
                 && updateSel && negb (is_set (overflowAnchor (view w))))
    in *.
  exists cleared, redraw, updateDoc, updateSel, stored, outer, inner, pre.
  assert (reconfigured = true -> scrollTop (view w1) = 0) as Z.
  { intros ->. by apply Z7. }
  assert (pre = (if cleared then [ClearComposition] else [])
                ++ (if reconfigured then [EnsureListeners] else []))
    as Epre by reflexivity.
  assert (updateDoc
          = redraw || negb (matchesNode env (trace w ++ pre)
                              (docView (view w)) (doc st) outer inner))
    as Edoc by reflexivity.
  assert (updateSel
          = cleared || updateDoc
            || negb (sel_eq env (selection st) (selection (state (view w)))))
    as Esel by reflexivity.
  assert (stored
          = is_preserve (scrollMode reconfigured st (state (view w)))
            && updateSel && negb (is_set (overflowAnchor (view w))))
    as Esto by reflexivity.
  clearbody stored updateSel updateDoc pre cleared.
  destruct updateSel.
  - apply resync_ok in H5
      as (patch & selw & force & T5 & P5 & S5 & F5a & F5b & D5
          & dv & tw & V5).
    rewrite T4, V4, Edv in P5. rewrite V4, Eco in F5a, F5b.
    rewrite T4 in D5.
    exists (ObserverStop :: patch ++ selw ++ [ObserverStart]), pvs, scr.
    do 5 (split; [first [reflexivity|assumption]|]).
    split. { by rewrite T7, T6, T5, T4, <- !app_assoc. }
    split; [done|].
    split. { exists patch, selw, force. repeat split; try done.
             intros Hin. by rewrite D7, D6, (D5 Hin). }
    split; [done|]. split. { by rewrite T6, T5, T4 in Sh7. }
    split. { by rewrite S7, S6, V5, <- Est, <- V4. }
    split; [|done]. by rewrite C7, C6, V5, <- Eco, <- V4.
  - inversion H5; subst w6.
    exists [], pvs, scr.
    do 5 (split; [first [reflexivity|assumption]|]).
    split. { by rewrite T7, T6, T4, <- !app_assoc. }
    split; [done|]. split; [done|]. split; [done|].
    split. { rewrite T6, T4 in Sh7. by rewrite app_nil_r. }
    split. { by rewrite S7, S6, V4. }
    split; [|done]. by rewrite C7, C6, V4.
Qed.
End OkRuns.

(** ** The registry is always built *)

Lemma buildNodeViews_total v : exists nv, buildNodeViews v = Ok nv.
Proof.
  unfold buildNodeViews. rewrite someProp_resolve.
  rewrite (resolve_accumulate
             (fun obj result => foldl addNodeView result (own_entries obj))).
  eauto.
Qed.

(** ** The anatomy of a trace *)

Lemma all_in_app s xs ys : all_in s xs -> all_in s ys -> all_in s (xs ++ ys).
Proof. apply Forall_app_2. Qed.

Lemma all_in_In s evs ev : all_in s evs -> In ev evs -> segment_of ev = s.
Proof.
  unfold all_in. rewrite Forall_forall. intros H Hin. apply H.
  by apply list_elem_of_In.
Qed.

Lemma patch_shape_segment env tr dv d outer inner redraw patch :
  patch_shape env tr dv d outer inner redraw patch -> all_in Tree patch.
Proof.
  unfold patch_shape, rebuild_calls.
  destruct redraw; [|destruct (update_result _ _)]; intros ->;
    by repeat constructor.
Qed.

Lemma selection_shape_segment st force selw :
  selection_shape st force selw -> all_in SelectionSync selw.
Proof. intros [->|[_ ->]]; by repeat constructor. Qed.

Lemma plugin_events_segment pvs :
  Forall plugin_view_event pvs -> all_in Plugins pvs.
Proof. intros H. eapply Forall_impl; [exact H|]. by intros []. Qed.

Lemma handler_calls_segment calls :
  Forall handler_call calls -> all_in Scrolling calls.
Proof. intros H. eapply Forall_impl; [exact H|]. by intros []. Qed.

Lemma scroll_shape_segment env st scroll old tr scr :
  scroll_shape env st scroll old tr scr -> all_in Scrolling scr.
Proof.
  destruct scroll; simpl.
  - intros ->. by repeat constructor.
  - intros (calls & F & [(_ & _ & ->)| ->]).
    + by apply handler_calls_segment.
    + apply all_in_app; [by apply handler_calls_segment|].
      by repeat constructor.
  - intros ->. destruct old; by repeat constructor.
Qed.

(** An element that is the only one of its kind in a list sits at one
    place. *)
Lemma split_at_unique {A} (P : A -> Prop) (a b l1 l2 : list A) x y :
  Forall (fun z => ~ P z) a -> Forall (fun z => ~ P z) b -> P x ->
  l1 ++ x :: l2 = a ++ y :: b ->
  l1 = a /\ x = y /\ l2 = b.
Proof.
  intros Ha Hb Hx. revert l1. induction Ha as [|z a Hz Ha IH]; intros l1 E.
  - destruct l1 as [|z l1]; simpl in E; inversion E; subst; [done|].
    exfalso. rewrite Forall_forall in Hb. apply (Hb x); [|done].
    apply elem_of_app. right. by left.
  - destruct l1 as [|z' l1]; simpl in E; inversion E; subst; [done|].
    destruct (IH l1) as (-> & -> & ->); done.
Qed.

Lemma no_split {A} (P : A -> Prop) (l l1 l2 : list A) x :
  Forall (fun z => ~ P z) l -> P x -> l1 ++ x :: l2 = l -> False.
Proof.
  intros Hl Hx <-. rewrite Forall_forall in Hl. apply (Hl x); [|done].
  apply elem_of_app. right. by left.
Qed.

(** ** Stored marks end a composition *)

Section StoredMarks.
Variable env : Env.

Lemma stopComposition_run st w r w2 :
  is_set (storedMarks st) && composing (view w) = true ->
  stopComposition env st w = (r, w2) ->
  trace w2 = trace w ++ [ClearComposition].
Proof.
  unfold stopComposition, clearComposition. intros Hc H.
  cbn in H. rewrite Hc in H. unfold bind, call in H.
  destruct (raises env (trace w) ClearComposition);
    cbn in H; inversion H; subst; done.
Qed.

(** C2. When the new state carries stored marks while a composition is
    active, the first thing the update does is to end the composition,
    before any call on the rendered tree; and when the update returns it
    has gone through the selection resync (the observer was paused, the
    selection written, the observer resumed), whether or not the document
    or the selection changed. *)
Theorem stored_marks_end_composition st marks reconfigured w r w1 :
  composing (view w) = true ->
  storedMarks st = Some marks ->
  updateStateInner env st reconfigured w = (r, w1) ->
  (exists rest, trace w1 = trace w ++ ClearComposition :: rest)
  /\ (r = Ok tt ->
      exists a b c,
        trace w1
        = trace w ++ ClearComposition :: a
                  ++ ObserverStop :: b ++ ObserverStart :: c
        /\ Forall (fun ev => mutation ev = false) a
        /\ (exists ev, In ev b /\ selection_write ev = true)
        /\ composing (view w1) = false).
Proof.
  intros Hcomp Hmarks H.
  assert (is_set (storedMarks st) && composing (view w) = true) as Hc.
  { by rewrite Hmarks, Hcomp. }
  split.
  - unfold updateStateInner in H. cbn in H.
    apply bind_inv in H as [(b & w2 & H1 & H)|(e & H1 & ->)].
    + apply (stopComposition_run _ _ _ _ Hc) in H1.
      match type of H with
      | ?k ?w0 = _ => assert (tracks false false k) as Hk
      end.
      { unfold reconfigure, refreshDecorations, storeScroll.
        repeat first
          [ apply tracks_updatePluginViews | apply tracks_scrollAfterUpdate
          | apply tracks_updateCursorWrapper | apply tracks_resync
          | apply tracks_ret | apply tracks_lift
          | apply tracks_get_view | apply tracks_get
          | apply tracks_modify_view
          | (apply tracks_call; [reflexivity|reflexivity])
          | (apply tracks_bind_same; [|intros ?])
          | match goal with
            | |- tracks _ _ (if ?b then _ else _) => destruct b
            end ]. }
      destruct (Hk _ _ _ H) as (evs & E & _).
      exists evs. by rewrite E, H1, <- app_assoc.
    + apply (stopComposition_run _ _ _ _ Hc) in H1.
      exists []. done.
  - intros ->. apply updateStateInner_ok in H.
    destruct H as (cleared & redraw & updateDoc & updateSel & stored & outer
                   & inner & pre & sync & pvs & scr & Ecl & -> & _ & -> & _
                   & T & _ & Hsync & _ & _ & _ & C & _).
    rewrite Hc in Ecl. subst cleared. cbn [orb] in Hsync.
    destruct Hsync as (patch & selw & force & -> & _ & Hsel & _).
    exists ((if reconfigured then [EnsureListeners] else [])
            ++ (if stored then [StoreScrollPos] else [])),
      (patch ++ selw), (pvs ++ scr).
    split; [|split; [|split]].
    + rewrite T. cbn. by rewrite <- !app_assoc.
    + apply Forall_app_2; [by destruct reconfigured; repeat constructor|].
      by destruct stored; repeat constructor.
    + destruct Hsel as [->|[_ ->]]; eexists;
        (split; [apply in_or_app; right; left; reflexivity|reflexivity]).
    + by rewrite C, andb_false_r.
Qed.
End StoredMarks.

Lemma stored_marks_end_composition_witness :
  fst Fixtures.marked_run = Ok tt
  /\ trace (snd Fixtures.marked_run)
     = [ ClearComposition; StoreScrollPos; ObserverStop;
         SelectionToDOM false; ObserverStart;
         ResetScrollPos (ScrollPosRef 2) ]
  /\ exists rest,
       trace (snd Fixtures.marked_run)
       = trace Fixtures.composing_world ++ ClearComposition :: rest.
Proof.
  split; [vm_compute; reflexivity|]. split; [vm_compute; reflexivity|].
  exact (proj1 (stored_marks_end_composition Fixtures.calm
                  Fixtures.marked_state [1%nat] false Fixtures.composing_world
                  (fst Fixtures.marked_run) (snd Fixtures.marked_run)
                  eq_refl eq_refl (surjective_pairing _))).
Defined.

(** ** The scroll snapshot *)

Lemma in_one_or_none {A} (b : bool) (x y : A) :
  In x (if b then [y] else []) <-> b = true /\ x = y.
Proof. destruct b; simpl; intuition congruence. Qed.

(** Where the events of a segment can be found in the trace of an update
    that returned normally. *)
Lemma sync_segments sync patch selw :
  sync = ObserverStop :: patch ++ selw ++ [ObserverStart] ->
  all_in Tree patch -> all_in SelectionSync selw ->
  Forall (fun ev => segment_of ev = Observer \/ segment_of ev = Tree
                    \/ segment_of ev = SelectionSync) sync.
Proof.
  intros -> Hp Hs. constructor; [by left|].
  apply Forall_app_2; [eapply Forall_impl; [exact Hp|]; tauto|].
  apply Forall_app_2; [eapply Forall_impl; [exact Hs|]; tauto|].
  constructor; [by left|constructor].
Qed.

Section Snapshot.
Variable env : Env.

(** C5 (as amended). In an update that returns normally, the scroll
    position is stored exactly when a selection resync is needed (the
    observer gets paused), the scroll mode is "preserve" (no
    reconfiguration, no new scroll-to-selection request) and the platform
    has no scroll anchoring ([overflowAnchor] is absent), whether or not
    the tree is patched; and it is stored before the update: nothing was
    mutated and the observer was not paused before it. *)
Theorem scroll_snapshot_taken st reconfigured w w1 :
  updateStateInner env st reconfigured w = (Ok tt, w1) ->
  exists evs,
    trace w1 = trace w ++ evs
    /\ (In StoreScrollPos evs <->
        In ObserverStop evs
        /\ reconfigured = false
        /\ scrollToSelection st <= scrollToSelection (state (view w))
        /\ overflowAnchor (view w) = None)
    /\ (forall a b, evs = a ++ StoreScrollPos :: b -> Forall quiet a).
Proof.
  intros H. apply updateStateInner_ok in H.
  destruct H as (cleared & redraw & updateDoc & updateSel & stored & outer
                 & inner & pre & sync & pvs & scr & _ & Epre & _ & _ & Esto
                 & T & _ & Hsync & Hpvs & Hscr & _).
  apply plugin_events_segment in Hpvs.
  apply scroll_shape_segment in Hscr.
  assert (Forall (fun ev => quiet ev /\ ev ≠ StoreScrollPos
                            /\ ev ≠ ObserverStop) pre) as Hpre.
  { rewrite Epre. clear. destruct cleared, reconfigured; cbn;
      repeat first [apply Forall_nil_2|apply Forall_cons_2; [done|]]. }
  assert (Forall (fun ev => ev ≠ StoreScrollPos) sync
          /\ (In ObserverStop sync <-> updateSel = true)) as [Hs1 Hs2].
  { destruct updateSel.
    - destruct Hsync as (patch & selw & force & Es & Hp & Hsel & _).
      split; [|split; [done|]; rewrite Es; by left].
      assert (all_in Tree patch) as Hp'.
      { destruct updateDoc; [by eapply patch_shape_segment|].
        subst patch. constructor. }
      apply selection_shape_segment in Hsel.
      eapply Forall_impl; [exact (sync_segments _ _ _ Es Hp' Hsel)|].
      intros ev Hev ->. simpl in Hev. destruct Hev as [?|[?|?]]; discriminate.
    - subst sync. split; [constructor|]. split; [intros []|discriminate]. }
  clear Hsync Epre.
  exists (pre ++ (if stored then [StoreScrollPos] else [])
            ++ sync ++ pvs ++ scr).
  split; [done|]. split.
  - rewrite !in_app_iff, in_one_or_none.
    rewrite Forall_forall in Hpre, Hs1.
    assert (~ In StoreScrollPos pre) as N1.
    { intros Hin. apply list_elem_of_In, Hpre in Hin. tauto. }
    assert (~ In ObserverStop pre) as N1'.
    { intros Hin. apply list_elem_of_In, Hpre in Hin. tauto. }
    assert (~ In StoreScrollPos sync) as N2.
    { intros Hin. apply list_elem_of_In, Hs1 in Hin. done. }
    assert (forall ev, segment_of ev ≠ Plugins -> ~ In ev pvs) as N3.
    { intros ev Hev Hin. by apply (all_in_In _ _ _ Hpvs) in Hin. }
    assert (forall ev, segment_of ev ≠ Scrolling -> ~ In ev scr) as N4.
    { intros ev Hev Hin. by apply (all_in_In _ _ _ Hscr) in Hin. }
    pose proof (N3 StoreScrollPos ltac:(discriminate)).
    pose proof (N4 StoreScrollPos ltac:(discriminate)).
    pose proof (N3 ObserverStop ltac:(discriminate)).
    pose proof (N4 ObserverStop ltac:(discriminate)).
    rewrite Hs2, Esto.
    unfold scrollMode.
    destruct reconfigured, updateSel, (overflowAnchor (view w));
      cbn; try (destruct (Z.ltb_spec (scrollToSelection (state (view w)))
                            (scrollToSelection st))); cbn;
      intuition (try lia; try congruence; try discriminate).
  - intros a b E.
    assert (Forall (fun ev => ~ ev = StoreScrollPos) pre) as F1.
    { eapply Forall_impl; [exact Hpre|]. by intros ev (_ & Hn & _). }
    assert (Forall (fun ev => ~ ev = StoreScrollPos) (sync ++ pvs ++ scr))
      as F2.
    { apply Forall_app_2; [done|]. apply Forall_app_2.
      - eapply Forall_impl; [exact Hpvs|]. by intros ev Hev ->.
      - eapply Forall_impl; [exact Hscr|]. by intros ev Hev ->. }
    destruct stored.
    + symmetry in E.
      apply (split_at_unique (fun ev => ev = StoreScrollPos)) in E
        as (-> & _ & _); [|done..].
      eapply Forall_impl; [exact Hpre|]. tauto.
    + exfalso. symmetry in E.
      eapply (no_split (fun ev => ev = StoreScrollPos)); [| |exact E];
        [|reflexivity].
      by apply Forall_app_2.
Qed.
End Snapshot.

Lemma pair_of_fst {A B} (p : A * B) (a : A) : fst p = a -> p = (a, snd p).
Proof. intros <-. by destruct p. Qed.

Lemma failed_patch_trace :
  fst Fixtures.failed_patch_run = Ok tt
  /\ trace (snd Fixtures.failed_patch_run)
     = [ StoreScrollPos; ObserverStop;
         DocViewUpdate (DocViewRef 0) (doc (Fixtures.plain_state []))
                       Fixtures.plain_outer (InnerDecoRef 0);
         DocViewUpdateOuterDeco (DocViewRef 0) [];
         DocViewDestroy (DocViewRef 0);
         DocViewDesc (doc (Fixtures.plain_state []))
                     Fixtures.plain_outer (InnerDecoRef 0);
         SelectionToDOM false; ObserverStart;
         ResetScrollPos (ScrollPosRef 1) ].
Proof. split; vm_compute; reflexivity. Qed.

(** C5, as first stated, fails: the position is also stored when the tree
    is being patched. *)
Lemma snapshot_taken_while_patching :
  ~ (forall (env : Env) st reconfigured w w1 evs,
       updateStateInner env st reconfigured w = (Ok tt, w1) ->
       trace w1 = trace w ++ evs ->
       In StoreScrollPos evs ->
       Forall (fun ev => tree_mutation ev = false) evs).
Proof.
  intros H. destruct failed_patch_trace as [Hr Ht].
  specialize (H Fixtures.patch_fails (Fixtures.plain_state []) false
                Fixtures.fresh (snd Fixtures.failed_patch_run)
                (trace (snd Fixtures.failed_patch_run))
                (pair_of_fst _ _ Hr) eq_refl).
  rewrite Ht in H. specialize (H (or_introl eq_refl)).
  inversion H as [|? ? _ H1]; subst.
  inversion H1 as [|? ? _ H2]; subst.
  inversion H2 as [|? ? Hm _]; subst.
  discriminate Hm.
Qed.

Lemma scroll_snapshot_taken_witness :
  exists evs,
    trace (snd Fixtures.failed_patch_run) = trace Fixtures.fresh ++ evs
    /\ (In StoreScrollPos evs <->
        In ObserverStop evs
        /\ false = false
        /\ scrollToSelection (Fixtures.plain_state [])
           <= scrollToSelection (state (view Fixtures.fresh))
        /\ overflowAnchor (view Fixtures.fresh) = None)
    /\ (forall a b, evs = a ++ StoreScrollPos :: b -> Forall quiet a).
Proof.
  exact (scroll_snapshot_taken Fixtures.patch_fails (Fixtures.plain_state [])
           false Fixtures.fresh (snd Fixtures.failed_patch_run)
           (pair_of_fst _ _ (proj1 failed_patch_trace))).
Defined.

(** ** The node-view registry *)

Lemma loose_eq_refl x : loose_eq x x = true.
Proof.
  destruct x as [| |b|n|s|r fs|r]; simpl; try done.
  - by destruct b.
  - apply Z.eqb_refl.
  - apply String.eqb_refl.
  - apply Nat.eqb_refl.
  - apply Nat.eqb_refl.
Qed.

Lemma loose_eq_undefined x :
  nullish x = false -> loose_eq x VUndefined = false.
Proof. by destruct x. Qed.

Lemma changedNodeViews_false a b :
  changedNodeViews a b = false <->
  (forall k x, a !! k = Some x -> loose_eq x (prop_get b k) = true)
  /\ size a = size b.
Proof.
  unfold changedNodeViews. rewrite orb_false_iff, negb_false_iff.
  rewrite Nat.eqb_eq. split; intros [H1 H2]; (split; [|done]).
  - intros k x Hk. apply elem_of_map_to_list in Hk.
    destruct (loose_eq x (prop_get b k)) eqn:E; [done|].
    assert (existsb (fun '(prop, x) => negb (loose_eq x (prop_get b prop)))
                    (map_to_list a) = true) as Hex; [|congruence].
    apply existsb_exists. exists (k, x). split; [|by rewrite E].
    by apply list_elem_of_In.
  - destruct (existsb _ _) eqn:E; [|done].
    apply existsb_exists in E as ([k x] & Hin & Hne).
    apply list_elem_of_In, elem_of_map_to_list in Hin.
    rewrite (H1 _ _ Hin) in Hne. done.
Qed.

(** X1. For registries without [null] or [undefined] entries in the new
    one, [changedNodeViews] answers [false] exactly when the two registries
    have the same node names and, under each name, values that are [==]. *)
Theorem changedNodeViews_same_registry (a b : gmap string value) :
  (forall k x, a !! k = Some x -> nullish x = false) ->
  changedNodeViews a b = false <->
  dom a = dom b
  /\ forall k x y, a !! k = Some x -> b !! k = Some y -> loose_eq x y = true.
Proof.
  intros Hnn. rewrite changedNodeViews_false. split.
  - intros [H1 H2].
    assert (dom a ⊆ dom b) as Hsub.
    { intros k Hk. apply elem_of_dom in Hk as [x Hx].
      specialize (H1 _ _ Hx). unfold prop_get in H1.
      destruct (b !! k) as [y|] eqn:Hb; [by apply elem_of_dom|].
      simpl in H1. by rewrite (loose_eq_undefined _ (Hnn _ _ Hx)) in H1. }
    split.
    + apply leibniz_equiv. apply set_subseteq_size_equiv; [done|].
      rewrite !size_dom. lia.
    + intros k x y Hx Hy. specialize (H1 _ _ Hx).
      unfold prop_get in H1. by rewrite Hy in H1.
  - intros [Hd H1]. split.
    + intros k x Hx. unfold prop_get.
      assert (k ∈ dom b) as Hk by (rewrite <- Hd; by apply elem_of_dom).
      apply elem_of_dom in Hk as [y Hy]. rewrite Hy. simpl. by eapply H1.
    + by rewrite <- !size_dom, Hd.
Qed.

Lemma changedNodeViews_same_registry_witness :
  changedNodeViews {[ "image" := VFun 1 ]} {[ "image" := VFun 1 ]} = false <->
  dom ({[ "image" := VFun 1 ]} : gmap string value)
  = dom ({[ "image" := VFun 1 ]} : gmap string value)
  /\ forall k x y,
      ({[ "image" := VFun 1 ]} : gmap string value) !! k = Some x ->
      ({[ "image" := VFun 1 ]} : gmap string value) !! k = Some y ->
      loose_eq x y = true.
Proof.
  apply changedNodeViews_same_registry.
  intros k x H. apply lookup_singleton_Some in H as [_ <-]. reflexivity.
Defined.





(** ** The editable flag *)

Section Editable.
Variable env : Env.

Lemma editable_resolve st cs :
  Forall (fun c => nullish c = true \/ is_function c = true) cs ->
  resolve (Some (fun val : value =>
                   bind (S:=unit) (call_with_state env st val)
                        (fun r => ret (VBool (strict_is_false r))))) cs tt
  = (Ok (if existsb (vetoes env st) cs then VBool true else VUndefined), tt).
Proof.
  induction 1 as [|c cs Hc _ IH]; simpl; [done|].
  destruct (nullish c) eqn:Hn.
  - rewrite IH. by destruct c.
  - destruct Hc as [Hc|Hc]; [congruence|].
    destruct c; try discriminate Hc. cbn.
    destruct (strict_is_false (call_fn env ref st)); [done|].
    cbn. by rewrite IH.
Qed.

Lemma editable_passed st pre :
  Forall (fun c => nullish c = true
                   \/ (is_function c = true /\ vetoes env st c = false)) pre ->
  passed (Some (fun val : value =>
                   bind (S:=unit) (call_with_state env st val)
                        (fun r => ret (VBool (strict_is_false r))))) pre tt tt.
Proof.
  induction 1 as [|c cs Hc _ IH]; [constructor|].
  destruct Hc as [Hc|[Hc Hv]]; [by apply passed_null|].
  destruct c; try discriminate Hc.
  eapply passed_falsy; [done|reflexivity| |exact IH].
  simpl in Hv. by rewrite Hv.
Qed.

(** X3. When every [editable] prop is a function (or absent), the view is
    editable unless one of them returns exactly [false] for the state:
    with no such prop at all it is editable, and a function that returns
    [undefined], [null], [0] or the empty string does not make it
    read-only. *)
Theorem getEditable_unless_vetoed (v : View) :
  Forall (fun c => nullish c = true \/ is_function c = true)
         (candidates (_props v) (items (plugins (state v))) "editable") ->
  getEditable env v
  = Ok (negb (existsb (vetoes env (state v))
                (candidates (_props v) (items (plugins (state v)))
                            "editable"))).
Proof.
  intros H. unfold getEditable. rewrite someProp_resolve.
  rewrite (editable_resolve _ _ H).
  by destruct (existsb _ _).
Qed.

(** X4. An [editable] prop that is given as a value instead of a function
    ([editable: false], say) makes [getEditable] throw a TypeError, unless
    a prop that comes before it in resolution order already returned
    [false]. *)
Theorem getEditable_needs_function (v : View) pre c post :
  candidates (_props v) (items (plugins (state v))) "editable"
  = pre ++ c :: post ->
  Forall (fun p => nullish p = true
                   \/ (is_function p = true
                       /\ vetoes env (state v) p = false)) pre ->
  nullish c = false ->
  is_function c = false ->
  exists msg, getEditable env v = Throw (TypeError msg).
Proof.
  intros Hc Hpre Hn Hf. unfold getEditable. rewrite someProp_resolve, Hc.
  rewrite (resolve_passed _ _ _ _ _ (editable_passed _ _ Hpre)).
  simpl. rewrite Hn. destruct c; try discriminate; cbn; eauto.
Qed.
End Editable.

(** ** Plugin views *)

Section PluginViews.
Variable env : Env.

Lemma set_pluginViews_same v : set_pluginViews (pluginViews v) v = v.
Proof. by destruct v. Qed.

Lemma set_pluginViews_twice p q v :
  set_pluginViews p (set_pluginViews q v) = set_pluginViews p v.
Proof. done. Qed.

Lemma destroy_call_of pv :
  map PluginViewDestroy (filter (fun pv => pv_destroy pv = true) [pv])
  = if pv_destroy pv then [PluginViewDestroy pv] else [].
Proof.
  destruct (pv_destroy pv) eqn:Hd.
  - by rewrite filter_cons_True, filter_nil by done.
  - rewrite filter_cons_False by congruence. by rewrite filter_nil.
Qed.

Lemma destroy_loop_pops newest_first : forall w r w',
  pluginViews (view w) = rev newest_first ->
  destroy_loop env newest_first w = (r, w') ->
  exists popped left,
    newest_first = popped ++ left
    /\ view w' = set_pluginViews (rev left) (view w)
    /\ trace w'
       = trace w ++ map PluginViewDestroy
                        (filter (fun pv => pv_destroy pv = true) popped)
    /\ (r = Ok tt -> left = [])
    /\ (forall e, r = Throw e ->
        exists earlier pv,
          popped = earlier ++ [pv]
          /\ pv_destroy pv = true
          /\ raises env
               (trace w ++ map PluginViewDestroy
                               (filter (fun pv => pv_destroy pv = true)
                                       earlier))
               (PluginViewDestroy pv) = Some e).
Proof.
  induction newest_first as [|pv older IH]; intros w r w' Hpv H.
  - inversion H; subst. exists [], []. simpl in *.
    rewrite app_nil_r, <- Hpv, set_pluginViews_same. by repeat split.
  - cbn [destroy_loop] in H.
    apply bind_inv in H as [([] & w2 & H1 & H)|(? & ? & ?)]; [|discriminate].
    inversion H1; subst w2. clear H1.
    apply bind_inv in H as [([] & w3 & H2 & H)|(e & H2 & ->)].
    + assert (view w3 = set_pluginViews (rev older) (view w)
              /\ trace w3
                 = trace w ++ map PluginViewDestroy
                     (filter (fun pv => pv_destroy pv = true) [pv]))
        as [V3 T3].
      { rewrite destroy_call_of. destruct (pv_destroy pv) eqn:Hd.
        - by apply call_inv in H2 as [-> _].
        - inversion H2; subst. by rewrite app_nil_r. }
      apply IH in H as (popped & left & -> & V & T & Hok & Hthrow);
        [|by rewrite V3].
      exists (pv :: popped), left. split; [done|].
      split. { by rewrite V, V3. }
      split. { rewrite T, T3, <- app_assoc, <- map_app, <- filter_app.
               done. }
      split; [done|]. intros e ->.
      destruct (Hthrow e eq_refl) as (earlier & pv' & -> & Hd & Hr).
      exists (pv :: earlier), pv'. split; [done|]. split; [done|].
      rewrite T3, <- app_assoc, <- map_app, <- filter_app in Hr. done.
    + destruct (pv_destroy pv) eqn:Hd; [|discriminate H2].
      apply call_inv in H2 as [-> [[_ ?]|(e' & Hr & He)]]; [done|].
      inversion He; subst e'.
      exists [pv], older. split; [done|].
      split; [done|].
      split. { by rewrite destroy_call_of, Hd. }
      split; [done|]. intros e0 He0. inversion He0; subst e0.
      exists [], pv. split; [done|]. split; [done|].
      by rewrite filter_nil, app_nil_r.
Qed.

(** X5. [destroyPluginViews] takes the plugin views off the end of the
    array one at a time, and calls the [destroy] hook of each one that has
    it, newest first. When it returns normally, no plugin view is left.
    When a hook throws, the call stops there: the view whose hook threw
    and the newer ones are gone from the array (a later call will not
    destroy them again), the older ones are still in it. *)
Theorem destroyPluginViews_pops w r w' :
  destroyPluginViews env w = (r, w') ->
  exists kept gone,
    pluginViews (view w) = kept ++ gone
    /\ view w' = set_pluginViews kept (view w)
    /\ trace w' = trace w ++ destroy_calls gone
    /\ (r = Ok tt -> kept = [])
    /\ (forall e, r = Throw e ->
        exists pv newer,
          gone = pv :: newer
          /\ pv_destroy pv = true
          /\ raises env (trace w ++ destroy_calls newer)
                    (PluginViewDestroy pv) = Some e).
Proof.
  unfold destroyPluginViews. intros H. cbn in H.
  apply destroy_loop_pops in H
    as (popped & left & E & V & T & Hok & Hthrow); [|by rewrite rev_involutive].
  exists (rev left), (rev popped).
  assert (pluginViews (view w) = rev left ++ rev popped) as Epv.
  { by rewrite <- rev_app_distr, <- E, rev_involutive. }
  unfold destroy_calls. rewrite rev_involutive.
  split; [done|]. split; [done|]. split; [done|].
  split. { intros ->. by rewrite (Hok eq_refl). }
  intros e ->. destruct (Hthrow e eq_refl) as (earlier & pv & -> & Hd & Hr).
  exists pv, (rev earlier). rewrite rev_app_distr. split; [done|].
  split; [done|]. by rewrite rev_involutive.
Qed.
End PluginViews.

Section PluginViewCycle.
Variable env : Env.

Lemma create_loop_ok ps : forall w w',
  create_loop env ps w = (Ok tt, w') ->
  trace w' = trace w ++ map PluginViewCreate (factories ps)
  /\ view w'
     = set_pluginViews
         (pluginViews (view w) ++ created env (trace w) (factories ps))
         (view w).
Proof.
  induction ps as [|p ps IH]; intros w w' H.
  - inversion H; subst. cbn.
    by rewrite !app_nil_r, set_pluginViews_same.
  - cbn [create_loop] in H.
    apply bind_inv in H as [([] & w2 & H1 & H)|(? & ? & ?)]; [|discriminate].
    unfold factories. cbn [omap list_omap].
    destruct (spec_view p) as [f|] eqn:Hf; cbn [created map].
    + apply bind_inv in H1 as [([] & w3 & H1 & H2)|(? & ? & ?)];
        [|discriminate].
      apply call_ok in H1 as [T1 V1]. inversion H2; subst w2. clear H2.
      apply IH in H as [T V]. cbn in T, V.
      rewrite T1 in T, V. rewrite V1 in V.
      split. { by rewrite T, <- app_assoc. }
      rewrite V. cbn. by rewrite <- app_assoc.
    + inversion H1; subst w2. by apply IH.
Qed.

Lemma destroyPluginViews_ok w w' :
  destroyPluginViews env w = (Ok tt, w') ->
  view w' = set_pluginViews [] (view w)
  /\ trace w' = trace w ++ destroy_calls (pluginViews (view w)).
Proof.
  unfold destroyPluginViews. intros H. cbn in H.
  apply destroy_loop_pops in H
    as (popped & left & E & V & T & Hok & _); [|by rewrite rev_involutive].
  rewrite (Hok eq_refl) in E, V. rewrite app_nil_r in E. subst popped.
  split; [done|]. by rewrite T.
Qed.

(** X6. Called without a previous state, or with one that has another
    plugin array, [updatePluginViews] first tears down all plugin views
    (newest first) and then calls the view factory of each plugin that has
    one, in plugin order; when it returns normally, the array holds what
    the factories returned, in that order, and nothing else. *)
Theorem updatePluginViews_recreates prevState w w' :
  match prevState with
  | Some prev => same_plugins prev (state (view w)) = false
  | None => True
  end ->
  updatePluginViews env prevState w = (Ok tt, w') ->
  let torn := trace w ++ destroy_calls (pluginViews (view w)) in
  let fs := factories (items (plugins (state (view w)))) in
  trace w' = torn ++ map PluginViewCreate fs
  /\ view w' = set_pluginViews (created env torn fs) (view w).
Proof.
  intros Hprev H.
  assert ((let* _ := destroyPluginViews env in
           create_loop env (items (plugins (state (view w))))) w
          = (Ok tt, w')) as H'.
  { unfold updatePluginViews in H. cbn in H.
    destruct prevState as [prev|]; [|exact H].
    by rewrite Hprev in H. }
  clear H.
  apply bind_inv in H' as [([] & w2 & H1 & H2)|(? & ? & ?)]; [|discriminate].
  apply destroyPluginViews_ok in H1 as [V T].
  apply create_loop_ok in H2 as [T2 V2].
  rewrite V in V2. cbn in V2. rewrite T in T2, V2.
  by split.
Qed.

Lemma update_loop_run pvs prev : forall w r w',
  update_loop env pvs prev w = (r, w') ->
  view w' = view w
  /\ (r = Ok tt -> trace w' = trace w ++ update_calls pvs prev).
Proof.
  induction pvs as [|pv pvs IH]; intros w r w' H.
  - inversion H; subst. split; [done|]. intros _.
    unfold update_calls. by rewrite filter_nil, app_nil_r.
  - cbn [update_loop] in H. unfold update_calls.
    apply bind_inv in H as [([] & w2 & H1 & H)|(e & H1 & ->)].
    + apply IH in H as [V T].
      destruct (pv_update pv) eqn:Hu.
      * apply call_ok in H1 as [T1 V1]. split; [congruence|].
        intros Hr. rewrite (T Hr), T1, <- app_assoc.
        by rewrite filter_cons_True by done.
      * inversion H1; subst w2. split; [done|].
        intros Hr. rewrite (T Hr).
        by rewrite filter_cons_False by congruence.
    + split; [|done].
      destruct (pv_update pv); [|discriminate H1].
      by apply call_inv in H1 as [-> _].
Qed.

(** X7. Called with a previous state that has the same plugin array,
    [updatePluginViews] creates and destroys nothing: the view is left as
    it is, and when the call returns normally each plugin view that has an
    [update] hook was notified once, with the previous state, in creation
    order. *)
Theorem updatePluginViews_notifies prev w r w' :
  same_plugins prev (state (view w)) = true ->
  updatePluginViews env (Some prev) w = (r, w') ->
  view w' = view w
  /\ (r = Ok tt ->
      trace w' = trace w ++ update_calls (pluginViews (view w)) prev).
Proof.
  intros Hsame H. unfold updatePluginViews in H. cbn in H.
  rewrite Hsame in H. cbn in H. by apply update_loop_run in H.
Qed.
End PluginViewCycle.

(** ** What an update leaves alone *)

Section Preserves.
Context {A B C : Type}.
Variable proj : View -> C.

Lemma preserves_ret (a : A) : preserves proj (ret a).
Proof. intros w r w' H. by inversion H. Qed.

Lemma preserves_throw e : preserves proj (throw (A:=A) e).
Proof. intros w r w' H. by inversion H. Qed.

Lemma preserves_lift (x : Result A) : preserves proj (lift x).
Proof. intros w r w' H. by inversion H. Qed.

Lemma preserves_bind (m : M World A) (k : A -> M World B) :
  preserves proj m -> (forall a, preserves proj (k a)) ->
  preserves proj (bind m k).
Proof.
  intros Hm Hk w r w' H.
  apply bind_inv in H as [(a & w1 & H1 & H2)|(e & H1 & ->)].
  - rewrite (Hk _ _ _ _ H2). by eapply Hm.
  - by eapply Hm.
Qed.
End Preserves.

Section PreservesCalls.
Context {C : Type}.
Variable env : Env.
Variable proj : View -> C.

Lemma preserves_call ev : preserves proj (call env ev).
Proof. intros w r w' H. by apply call_inv in H as [-> _]. Qed.

Lemma preserves_emit ev : preserves proj (emit ev).
Proof. intros w r w' H. by inversion H. Qed.

Lemma preserves_get_view : preserves proj get_view.
Proof. intros w r w' H. by inversion H. Qed.

Lemma preserves_get : preserves proj (get (S:=World)).
Proof. intros w r w' H. by inversion H. Qed.

Lemma preserves_modify_view f :
  (forall v, proj (f v) = proj v) -> preserves proj (modify_view f).
Proof. intros Hf w r w' H. inversion H; subst. apply Hf. Qed.

Lemma preserves_resolve (f : value -> M World value) cs :
  (forall c, preserves proj (f c)) -> preserves proj (resolve (Some f) cs).
Proof.
  intros Hf. induction cs as [|c cs IH]; simpl; [apply preserves_ret|].
  destruct (nullish c); [done|].
  apply preserves_bind; [apply Hf|]. intros r.
  destruct (truthy r); [apply preserves_ret|done].
Qed.
End PreservesCalls.

Ltac preserves_go :=
  repeat first
    [ apply preserves_ret | apply preserves_throw | apply preserves_lift
    | apply preserves_get_view | apply preserves_get
    | apply preserves_call | apply preserves_emit
    | (apply preserves_modify_view; done)
    | (apply preserves_bind; [|intros ?])
    | match goal with
      | |- preserves _ (if ?b then _ else _) => destruct b
      | |- preserves _ (match ?x with _ => _ end) => destruct x
      end ].

Section PreservesBlocks.
Context {C : Type}.
Variable env : Env.
Variable proj : View -> C.

(** The parts of the view [proj] may depend on. *)
Hypothesis off_composing : forall b v, proj (set_composing b v) = proj v.
Hypothesis off_editable : forall b v, proj (set_editable b v) = proj v.
Hypothesis off_cursorWrapper :
  forall c v, proj (set_cursorWrapper c v) = proj v.
Hypothesis off_docView : forall d v, proj (set_docView d v) = proj v.
Hypothesis off_trackWrites : forall t v, proj (set_trackWrites t v) = proj v.
Hypothesis off_pluginViews : forall p v, proj (set_pluginViews p v) = proj v.
Hypothesis off_scrollTop : forall z v, proj (set_scrollTop z v) = proj v.

Lemma preserves_stopComposition st : preserves proj (stopComposition env st).
Proof. unfold stopComposition, clearComposition. preserves_go. Qed.

Lemma preserves_refreshDecorations : preserves proj (refreshDecorations env).
Proof.
  unfold refreshDecorations, updateCursorWrapper. preserves_go.
Qed.

Lemma preserves_storeScroll scroll updateSel :
  preserves proj (storeScroll env scroll updateSel).
Proof. unfold storeScroll. preserves_go. Qed.

Lemma preserves_resync st prev redraw updateDoc outer inner :
  preserves proj (resync env st prev redraw updateDoc outer inner).
Proof.
  unfold resync, updateDocView, writeSelection, tree_call. preserves_go.
Qed.

Lemma preserves_destroy_loop pvs : preserves proj (destroy_loop env pvs).
Proof. induction pvs as [|pv pvs IH]; simpl; preserves_go; done. Qed.

Lemma preserves_create_loop ps : preserves proj (create_loop env ps).
Proof.
  induction ps as [|p ps IH]; simpl; preserves_go; done.
Qed.

Lemma preserves_update_loop pvs prev :
  preserves proj (update_loop env pvs prev).
Proof. induction pvs as [|pv pvs IH]; simpl; preserves_go; done. Qed.

Lemma preserves_updatePluginViews prev :
  preserves proj (updatePluginViews env prev).
Proof.
  unfold updatePluginViews, destroyPluginViews.
  preserves_go; first [ apply preserves_destroy_loop
                      | apply preserves_create_loop
                      | apply preserves_update_loop ].
Qed.

Lemma preserves_scrollAfterUpdate scroll old st :
  preserves proj (scrollAfterUpdate env scroll old st).
Proof.
  unfold scrollAfterUpdate. destruct scroll; preserves_go.
  intros w r w' H. rewrite someProp_resolve in H. revert w r w' H.
  apply preserves_resolve. intros c. unfold callHandler. preserves_go.
Qed.
End PreservesBlocks.

Section UpdateFrame.
Context {C : Type}.
Variable env : Env.
Variable proj : View -> C.

Hypothesis off_composing : forall b v, proj (set_composing b v) = proj v.
Hypothesis off_editable : forall b v, proj (set_editable b v) = proj v.
Hypothesis off_cursorWrapper :
  forall c v, proj (set_cursorWrapper c v) = proj v.
Hypothesis off_docView : forall d v, proj (set_docView d v) = proj v.
Hypothesis off_trackWrites : forall t v, proj (set_trackWrites t v) = proj v.
Hypothesis off_pluginViews : forall p v, proj (set_pluginViews p v) = proj v.
Hypothesis off_scrollTop : forall z v, proj (set_scrollTop z v) = proj v.

Lemma preserves_reconfigure reconfigured :
  (reconfigured = true -> forall n v, proj (set_nodeViews n v) = proj v) ->
  preserves proj (reconfigure env reconfigured).
Proof.
  intros Hn. unfold reconfigure. destruct reconfigured; preserves_go.
  apply preserves_modify_view. by apply Hn.
Qed.

Lemma stopComposition_throws st w e w' :
  stopComposition env st w = (Throw e, w') ->
  raises env (trace w) ClearComposition = Some e
  /\ view w' = view w
  /\ trace w' = trace w ++ [ClearComposition].
Proof.
  unfold stopComposition, clearComposition. intros H. cbn in H.
  destruct (is_set (storedMarks st) && composing (view w)); [|discriminate H].
  apply bind_inv in H as [([] & w2 & H1 & H)|(e' & H1 & He)];
    [discriminate H|].
  inversion He; subst e'.
  apply bind_inv in H1 as [([] & w2 & H1 & H)|(e' & H1 & He')];
    [discriminate H|].
  inversion He'; subst e'.
  apply call_inv in H1 as [-> [[_ ?]|(e' & Hr & He'')]]; [done|].
  inversion He''; subst e'. done.
Qed.

(** However an update ends, a part of the view that only the assignment of
    the state (and, on a reconfiguration, of the node views) can change is
    what that assignment made it; unless [clearComposition] threw, before
    the state was assigned. *)
Lemma updateStateInner_frame st reconfigured w r w' :
  (reconfigured = true -> forall n v, proj (set_nodeViews n v) = proj v) ->
  updateStateInner env st reconfigured w = (r, w') ->
  proj (view w') = proj (set_state st (view w))
  \/ (exists e, r = Throw e
        /\ raises env (trace w) ClearComposition = Some e
        /\ view w' = view w).
Proof.
  intros Hn H. unfold updateStateInner in H. cbn in H.
  apply bind_inv in H as [(b & w2 & H1 & H)|(e & H1 & ->)].
  2:{ right. apply stopComposition_throws in H1 as (Hr & V & _). eauto. }
  left.
  assert (proj (view (with_view (set_state st) w2))
          = proj (set_state st (view w))) as E.
  { apply stopComposition_ok in H1 as (_ & _ & V). cbn. rewrite V.
    destruct b; [|done]. apply (off_composing false (set_state st (view w))). }
  clear H1. cbn in H.
  assert (preserves proj (reconfigure env reconfigured)) as P1
    by (by apply preserves_reconfigure).
  assert (preserves proj (refreshDecorations env)) as P2
    by (by apply preserves_refreshDecorations).
  assert (forall s u, preserves proj (storeScroll env s u)) as P3
    by (intros; by apply preserves_storeScroll).
  assert (forall p rd ud o i, preserves proj (resync env st p rd ud o i))
    as P4 by (intros; by apply preserves_resync).
  assert (forall p, preserves proj (updatePluginViews env p)) as P5
    by (intros; by apply preserves_updatePluginViews).
  assert (forall s o, preserves proj (scrollAfterUpdate env s o st)) as P6
    by (intros; by apply preserves_scrollAfterUpdate).
  apply bind_inv in H as [(redraw & w3 & H1 & H)|(e & H1 & ->)];
    apply P1 in H1; rewrite <- H1 in E; [clear H1|done].
  apply bind_inv in H as [(decos & w4 & H1 & H)|(e & H1 & ->)];
    apply P2 in H1; rewrite <- H1 in E; [clear H1|done].
  cbn in H.
  apply bind_inv in H as [(old & w5 & H1 & H)|(e & H1 & ->)];
    apply P3 in H1; rewrite <- H1 in E; [clear H1|done].
  apply bind_inv in H as [([] & w6 & H1 & H)|(e & H1 & ->)].
  2:{ destruct (_ || _ || _) in H1; [|discriminate H1].
      apply P4 in H1. by rewrite H1. }
  assert (proj (view w6) = proj (view w5)) as E6.
  { destruct (_ || _ || _) in H1; [by apply P4 in H1|by inversion H1]. }
  rewrite <- E6 in E. clear E6 H1.
  apply bind_inv in H as [([] & w7 & H1 & H)|(e & H1 & ->)];
    apply P5 in H1; rewrite <- H1 in E; [clear H1|done].
  apply P6 in H. by rewrite H.
Qed.
End UpdateFrame.

(** ** The stages of an update *)

Section Stages.
Variable env : Env.

(** The runs of the stages of an update that returns normally. *)
Lemma updateStateInner_stages st reconfigured w w1 :
  updateStateInner env st reconfigured w = (Ok tt, w1) ->
  exists b w2 redraw w3 decos w4 old w5 w6 w7,
    let prev := state (view w) in
    let scroll := scrollMode reconfigured st prev in
    let updateDoc :=
      redraw || negb (matchesNode env (trace w4) (docView (view w4))
                                  (doc st) (snd decos) (fst decos)) in
    let updateSel :=
      b || updateDoc || negb (sel_eq env (selection st) (selection prev)) in
    stopComposition env st w = (Ok b, w2)
    /\ reconfigure env reconfigured (with_view (set_state st) w2)
       = (Ok redraw, w3)
    /\ refreshDecorations env w3 = (Ok decos, w4)
    /\ storeScroll env scroll updateSel w4 = (Ok old, w5)
    /\ (if updateSel
        then resync env st prev redraw updateDoc (snd decos) (fst decos) w5
        else (Ok tt, w5)) = (Ok tt, w6)
    /\ updatePluginViews env (Some prev) w6 = (Ok tt, w7)
    /\ scrollAfterUpdate env scroll old st w7 = (Ok tt, w1).
Proof.
  unfold updateStateInner. intros H. cbn in H.
  apply bind_inv in H as [(b & w2 & H1 & H)|(? & ? & ?)]; [|discriminate].
  cbn in H.
  apply bind_inv in H as [(redraw & w3 & H2 & H)|(? & ? & ?)];
    [|discriminate].
  apply bind_inv in H as [(decos & w4 & H3 & H)|(? & ? & ?)];
    [|discriminate].
  cbn in H.
  apply bind_inv in H as [(old & w5 & H4 & H)|(? & ? & ?)]; [|discriminate].
  apply bind_inv in H as [([] & w6 & H5 & H)|(? & ? & ?)]; [|discriminate].
  apply bind_inv in H as [([] & w7 & H6 & H)|(? & ? & ?)]; [|discriminate].
  exists b, w2, redraw, w3, decos, w4, old, w5, w6, w7. cbn.
  repeat split; try done.
  by destruct (_ || _ || _).
Qed.

(** The registry is rebuilt on a reconfiguration, and replaces the old one
    when [changedNodeViews] says so. *)
Lemma reconfigure_run w redraw w1 :
  reconfigure env true w = (Ok redraw, w1) ->
  exists nv,
    buildNodeViews (view w) = Ok nv
    /\ redraw = changedNodeViews nv (nodeViews (view w))
    /\ view w1 = (if redraw then set_nodeViews nv (view w) else view w)
    /\ trace w1 = trace w ++ [EnsureListeners].
Proof.
  unfold reconfigure. intros H. cbn in H.
  destruct (buildNodeViews_total (view w)) as [nv Hnv].
  exists nv. split; [done|].
  unfold lift, bind in H. rewrite Hnv in H. cbn in H.
  destruct (changedNodeViews nv (nodeViews (view w))) eqn:Hch; cbn in H;
    unfold bind in H; cbn in H;
    destruct (call env EnsureListeners _) as [[[]|e] w2] eqn:Hc;
    try discriminate H; inversion H; subst; clear H;
    apply call_ok in Hc as [T V]; by rewrite V.
Qed.

(** The editable flag and the cursor wrapper are recomputed from the view
    as it is then. *)
Lemma refreshDecorations_run w decos w1 :
  refreshDecorations env w = (Ok decos, w1) ->
  exists e,
    getEditable env (view w) = Ok e
    /\ view w1
       = set_cursorWrapper
           match markCursor (view w) with
           | Some marks =>
               Some {| cw_pos := sel_head (selection (state (view w)));
                       cw_marks := marks |}
           | None => None
           end
           (set_editable e (view w))
    /\ trace w1 = trace w.
Proof.
  unfold refreshDecorations, updateCursorWrapper. intros H.
  run_in H; inversion H; subst; eexists; (split; [reflexivity|]);
    replay; done.
Qed.
End Stages.

(** ** Plugin views during an update *)

Ltac only_by tac :=
  repeat first
    [ apply only_ret | apply only_throw | apply only_lift
    | apply only_get_view | apply only_get | apply only_modify_view
    | (apply only_call; tac) | (apply only_emit; tac)
    | (apply only_bind; [|intros ?])
    | match goal with
      | |- only _ (if ?b then _ else _) => destruct b
      | |- only _ (match ?x with _ => _ end) => destruct x
      end ].

Section BeforePlugins.
Variable env : Env.

(** The stages that come before the plugin views are told about an update
    make no call on a plugin view. *)

Lemma aside_stopComposition st : only aside (stopComposition env st).
Proof.
  unfold stopComposition, clearComposition. only_by ltac:(by intros []).
Qed.

Lemma aside_reconfigure rc : only aside (reconfigure env rc).
Proof. unfold reconfigure. only_by ltac:(by intros []). Qed.

Lemma aside_refreshDecorations : only aside (refreshDecorations env).
Proof.
  unfold refreshDecorations, updateCursorWrapper. only_by ltac:(by intros []).
Qed.

Lemma aside_storeScroll scroll updateSel :
  only aside (storeScroll env scroll updateSel).
Proof. unfold storeScroll. only_by ltac:(by intros []). Qed.

Lemma aside_resync st prev redraw updateDoc outer inner :
  only aside (resync env st prev redraw updateDoc outer inner).
Proof.
  unfold resync, updateDocView, writeSelection, tree_call.
  only_by ltac:(by intros []).
Qed.

Lemma aside_stages st reconfigured w b w2 redraw w3 decos w4 old w5 w6
    scroll (updateSel updateDoc : bool) prev :
  stopComposition env st w = (Ok b, w2) ->
  reconfigure env reconfigured (with_view (set_state st) w2)
  = (Ok redraw, w3) ->
  refreshDecorations env w3 = (Ok decos, w4) ->
  storeScroll env scroll updateSel w4 = (Ok old, w5) ->
  (if updateSel
   then resync env st prev redraw updateDoc (snd decos) (fst decos) w5
   else (Ok tt, w5)) = (Ok tt, w6) ->
  exists before,
    trace w6 = trace w ++ before /\ Forall aside before.
Proof.
  intros H1 H2 H3 H4 H5.
  apply aside_stopComposition in H1 as (e1 & T1 & F1).
  apply aside_reconfigure in H2 as (e2 & T2 & F2). cbn in T2.
  apply aside_refreshDecorations in H3 as (e3 & T3 & F3).
  apply aside_storeScroll in H4 as (e4 & T4 & F4).
  assert (exists e5, trace w6 = trace w5 ++ e5 /\ Forall aside e5)
    as (e5 & T5 & F5).
  { destruct updateSel; [by apply aside_resync in H5|].
    inversion H5; subst. exists []. by rewrite app_nil_r. }
  exists (e1 ++ e2 ++ e3 ++ e4 ++ e5).
  split. { by rewrite T5, T4, T3, T2, T1, <- !app_assoc. }
  by repeat (apply Forall_app; split).
Qed.
End BeforePlugins.
Section Notified.
Variable env : Env.

Lemma updateState_inner st w :
  updateState env st w
  = updateStateInner env st (negb (same_plugins (state (view w)) st)) w.
Proof. done. Qed.

End Notified.

(** ** What an update has done when it ends *)

Section Outcome.
Variable env : Env.


(** X10. An update that is not a reconfiguration leaves the node-view
    registry and the direct props as they are and does not call
    [ensureListeners], however it ends. *)
Theorem plain_update_keeps_registry st w r w' :
  updateStateInner env st false w = (r, w') ->
  nodeViews (view w') = nodeViews (view w)
  /\ _props (view w') = _props (view w)
  /\ exists evs,
      trace w' = trace w ++ evs
      /\ Forall (fun ev => ev <> EnsureListeners) evs.
Proof.
  intros H.
  split.
  { assert (nodeViews (view w') = nodeViews (set_state st (view w))
            \/ (exists e, r = Throw e
                  /\ raises env (trace w) ClearComposition = Some e
                  /\ view w' = view w)) as [E|(e & _ & _ & E)]; [|done|].
    - by apply (updateStateInner_frame env nodeViews)
        with (reconfigured:=false) (r:=r).
    - by rewrite E. }
  split.
  { assert (_props (view w') = _props (set_state st (view w))
            \/ (exists e, r = Throw e
                  /\ raises env (trace w) ClearComposition = Some e
                  /\ view w' = view w)) as [E|(e & _ & _ & E)]; [|done|].
    - by apply (updateStateInner_frame env _props)
        with (reconfigured:=false) (r:=r).
    - by rewrite E. }
  revert w r w' H.
  change (only (fun ev => ev <> EnsureListeners)
               (updateStateInner env st false)).
  unfold updateStateInner, stopComposition, clearComposition, reconfigure,
    refreshDecorations, updateCursorWrapper, storeScroll, resync,
    updateDocView, writeSelection, tree_call.
  repeat first
    [ (eapply only_weaken; [|apply only_updatePluginViews]; by intros [])
    | (eapply only_weaken; [|apply only_scrollAfterUpdate]; by intros [])
    | apply only_ret | apply only_throw | apply only_lift
    | apply only_get_view | apply only_get | apply only_modify_view
    | (apply only_call; done) | (apply only_emit; done)
    | (apply only_bind; [|intros ?])
    | match goal with
      | |- only _ (if ?b then _ else _) => destruct b
      | |- only _ (match ?x with _ => _ end) => destruct x
      end ].
Qed.
End Outcome.

Section Redraw.
Variable env : Env.

Lemma buildNodeViews_of v v' :
  _props v' = _props v -> state v' = state v ->
  buildNodeViews v' = buildNodeViews v.
Proof. unfold buildNodeViews. by intros -> ->. Qed.

Lemma getEditable_of v v' :
  _props v' = _props v -> state v' = state v ->
  getEditable env v' = getEditable env v.
Proof. unfold getEditable. by intros -> ->. Qed.

(** X11. When a reconfiguration finds the node-view registry changed, the
    update that returns normally has installed the new registry and has
    drawn the document anew: the old document view is destroyed and a new
    one built, and no in-place patch is attempted at all. *)
Theorem changed_nodeViews_redraw st w w1 nv :
  buildNodeViews (set_state st (view w)) = Ok nv ->
  changedNodeViews nv (nodeViews (view w)) = true ->
  updateStateInner env st true w = (Ok tt, w1) ->
  nodeViews (view w1) = nv
  /\ exists evs outer inner,
      trace w1 = trace w ++ evs
      /\ Forall (fun ev => ~ patch_attempt ev) evs
      /\ In (DocViewDestroy (docView (view w))) evs
      /\ In (DocViewDesc (doc st) outer inner) evs.
Proof.
  intros Hnv Hch H.
  apply updateStateInner_stages in H
    as (b & w2 & redraw & w3 & decos & w4 & old & w5 & w6 & w7
        & H1 & H2 & H3 & H4 & H5 & H6 & H7).
  apply stopComposition_ok in H1 as (_ & T1 & V1).
  apply reconfigure_run in H2 as (nv' & Hnv' & Hrd & V2 & T2).
  cbn in Hnv', Hrd, V2, T2.
  assert (view w2 = view w \/ view w2 = set_composing false (view w)) as V1'
    by (destruct b; auto).
  rewrite (buildNodeViews_of (set_state st (view w))) in Hnv'
    by (destruct V1' as [->| ->]; done).
  assert (nv' = nv) as -> by congruence.
  assert (nodeViews (view w2) = nodeViews (view w)
          /\ docView (view w2) = docView (view w)) as [N2 D2]
    by (destruct V1' as [->| ->]; done).
  rewrite N2, Hch in Hrd. subst redraw.
  assert (nodeViews (view w3) = nv /\ docView (view w3) = docView (view w))
    as [N3 D3] by (by rewrite V2).
  assert (nodeViews (view w4) = nv /\ docView (view w4) = docView (view w)
          /\ trace w4 = trace w3) as (N4 & D4 & T3).
  { apply refreshDecorations_ok in H3 as (T3 & (e & c & _ & V3) & _).
    by rewrite V3. }
  cbn [orb] in H4, H5. rewrite orb_true_r in H4, H5. cbn [orb] in H4, H5.
  apply storeScroll_ok in H4 as (_ & T4 & V4). cbn in T4.
  rewrite app_nil_r in T4.
  apply resync_ok in H5
    as (patch & selw & force & T5 & P5 & S5 & _ & _ & _ & dv & tw & V5).
  unfold patch_shape in P5. rewrite V4, D4 in P5. subst patch.
  assert (nodeViews (view w6) = nv) as N6 by (by rewrite V5, V4).
  assert (nodeViews (view w7) = nodeViews (view w6)) as N7.
  { revert H6. by apply preserves_updatePluginViews. }
  assert (nodeViews (view w1) = nodeViews (view w7)) as N8.
  { revert H7. by apply preserves_scrollAfterUpdate. }
  apply only_updatePluginViews in H6 as (pvs & T6 & F6).
  apply scrollAfterUpdate_ok in H7 as (scr & T7 & Sh7 & _).
  cbn in Sh7. subst scr.
  split; [congruence|].
  exists ((if b then [ClearComposition] else []) ++ [EnsureListeners]
          ++ ObserverStop
             :: rebuild_calls (docView (view w)) (doc st) decos.2 decos.1
          ++ selw ++ [ObserverStart] ++ pvs ++ [SetScrollTop 0]),
         decos.2, decos.1.
  split.
  { rewrite T7, T6, T5, T4, T3, T2, T1. cbn.
    rewrite <- !app_assoc. cbn. by rewrite <- ?app_assoc. }
  split.
  { assert (forall l, Forall (fun ev => ~ patch_attempt ev) l ->
                      Forall (fun ev => ~ patch_attempt ev)
                             (ObserverStart :: l)) as Hstart
      by (intros; apply Forall_cons_2; [by intros []|done]).
    apply Forall_app_2.
    { destruct b; repeat (apply Forall_cons_2; [by intros []|]);
        apply Forall_nil_2. }
    cbn. repeat (apply Forall_cons_2; [by intros []|]).
    apply Forall_app_2.
    { destruct S5 as [->|[_ ->]];
        repeat (apply Forall_cons_2; [by intros []|]); apply Forall_nil_2. }
    apply Hstart. apply Forall_app_2.
    { eapply Forall_impl; [exact F6|]. intros ev Hp Ha. by destruct ev. }
    apply Forall_cons_2; [by intros []|apply Forall_nil_2]. }
  split; apply in_or_app; right; cbn; tauto.
Qed.
End Redraw.

Section Refreshed.
Variable env : Env.

(** X12. After an update that returns normally, [view.editable] is what
    the [editable] props say about the new state, and the cursor wrapper
    is there exactly when the view has a mark cursor: a widget at the head
    of the new selection that carries the marks of the cursor. *)
Theorem update_refreshes_editable_and_cursor st reconfigured w w1 :
  updateStateInner env st reconfigured w = (Ok tt, w1) ->
  getEditable env (set_state st (view w)) = Ok (editable (view w1))
  /\ cursorWrapper (view w1)
     = match markCursor (view w) with
       | Some marks =>
           Some {| cw_pos := sel_head (selection st); cw_marks := marks |}
       | None => None
       end.
Proof.
  intros H.
  apply updateStateInner_stages in H
    as (b & w2 & redraw & w3 & decos & w4 & old & w5 & w6 & w7
        & H1 & H2 & H3 & H4 & H5 & H6 & H7).
  apply stopComposition_ok in H1 as (_ & _ & V1).
  apply reconfigure_ok in H2 as (_ & _ & nv & V2). cbn in V2.
  apply refreshDecorations_run in H3 as (e & He & V3 & _).
  assert (_props (view w3) = _props (view w)
          /\ state (view w3) = st
          /\ markCursor (view w3) = markCursor (view w)) as (P3 & S3 & M3).
  { rewrite V2, V1. by destruct b. }
  rewrite (getEditable_of env (set_state st (view w))) in He by done.
  rewrite M3, S3 in V3.
  assert (editable (view w4) = e
          /\ cursorWrapper (view w4)
             = match markCursor (view w) with
               | Some marks =>
                   Some {| cw_pos := sel_head (selection st);
                           cw_marks := marks |}
               | None => None
               end) as [E4 C4] by (by rewrite V3).
  apply storeScroll_ok in H4 as (_ & _ & V4).
  assert (editable (view w6) = editable (view w5)
          /\ cursorWrapper (view w6) = cursorWrapper (view w5)) as [E6 C6].
  { destruct (_ || _ || _) in H5; [|by inversion H5].
    apply resync_ok in H5 as (? & ? & ? & ? & ? & ? & ? & ? & ? & dv & tw & V).
    by rewrite V. }
  assert (editable (view w7) = editable (view w6)
          /\ cursorWrapper (view w7) = cursorWrapper (view w6)) as [E7 C7].
  { split; revert H6; by apply preserves_updatePluginViews. }
  assert (editable (view w1) = editable (view w7)
          /\ cursorWrapper (view w1) = cursorWrapper (view w7)) as [E8 C8].
  { split; revert H7; by apply preserves_scrollAfterUpdate. }
  split.
  - rewrite He. f_equal. congruence.
  - congruence.
Qed.
End Refreshed.

(** ** Replacing the props *)

Section Replacing.
Variable env : Env.

Lemma update_steps props st w r w1 :
  update env props st w = (r, w1) ->
  (negb (loose_eq (prop_get props "handleDOMEvents")
                  (prop_get (_props (view w)) "handleDOMEvents")) = true
   /\ exists e, r = Throw e
        /\ raises env (trace w) EnsureListeners = Some e
        /\ w1 = log EnsureListeners w)
  \/ exists w0,
      trace w0
      = trace w
          ++ (if negb (loose_eq (prop_get props "handleDOMEvents")
                                (prop_get (_props (view w)) "handleDOMEvents"))
              then [EnsureListeners] else [])
      /\ view w0 = set__props props (view w)
      /\ updateStateInner env st true w0 = (r, w1).
Proof.
  unfold update. intros H. cbn in H.
  destruct (negb (loose_eq _ _)) eqn:Hd.
  - apply bind_inv in H as [([] & w2 & H1 & H)|(e & H1 & ->)].
    + right. apply call_ok in H1 as [T V]. cbn in H.
      eexists. split; [|split; [|exact H]]; cbn; [done|by rewrite V].
    + left. split; [done|].
      apply call_inv in H1 as [-> [[_ ?]|(e' & Hr & He)]]; [done|].
      inversion He; subst e'. eauto.
  - right. cbn in H. eexists. split; [|split; [|exact H]]; cbn; [|done].
    by rewrite app_nil_r.
Qed.

(** X13. [update] always counts as a reconfiguration. When it returns
    normally, the view holds the props and the state it was given,
    [ensureListeners] was called (whether or not the DOM event handlers
    changed) and the scroll position was reset to the top, which is the
    last thing it did. *)
Theorem update_reconfigures props st w w1 :
  update env props st w = (Ok tt, w1) ->
  _props (view w1) = props
  /\ state (view w1) = st
  /\ scrollTop (view w1) = 0
  /\ exists evs,
      trace w1 = trace w ++ evs ++ [SetScrollTop 0]
      /\ In EnsureListeners evs.
Proof.
  intros H. apply update_steps in H as [(_ & e & ? & _)|(w0 & T0 & V0 & H)];
    [discriminate|].
  assert (_props (view w1) = props) as P1.
  { assert (_props (view w1) = _props (set_state st (view w0))
            \/ (exists e, Ok tt = Throw e
                  /\ raises env (trace w0) ClearComposition = Some e
                  /\ view w1 = view w0)) as [E|(e & ? & _)];
      [|by rewrite E, V0|discriminate].
    by apply (updateStateInner_frame env _props) with (reconfigured:=true). }
  apply updateStateInner_ok in H
    as (cleared & redraw & updateDoc & updateSel & stored & outer & inner
        & pre & sync & pvs & scr
        & _ & Epre & _ & _ & _ & T & _ & _ & _ & Sh & S1 & _ & Z).
  cbn in Sh. subst scr pre.
  split; [done|]. split; [done|]. split; [by apply Z|].
  exists ((if negb (loose_eq (prop_get props "handleDOMEvents")
                             (prop_get (_props (view w)) "handleDOMEvents"))
           then [EnsureListeners] else [])
          ++ ((if cleared then [ClearComposition] else []) ++ [EnsureListeners])
          ++ (if stored then [StoreScrollPos] else []) ++ sync ++ pvs).
  split. { rewrite T, T0. by rewrite <- !app_assoc. }
  apply in_or_app. right. apply in_or_app. left.
  apply in_or_app. right. by left.
Qed.

(** X14. [setProps] overwrites the props that its argument has and keeps
    all others; the state is kept unless the argument has one. When the
    call returns normally, reading any prop of the view gives the value
    from the argument if it has the prop, and the old value otherwise. *)
Theorem setProps_merges props sto w w1 :
  setProps env props sto w = (Ok tt, w1) ->
  state (view w1) = default (state (view w)) sto
  /\ forall name,
      prop_get (_props (view w1)) name
      = match props !! name with
        | Some x => x
        | None => prop_get (_props (view w)) name
        end.
Proof.
  intros H. unfold setProps in H. cbn in H.
  apply update_steps in H as [(_ & e & ? & _)|(w0 & T0 & V0 & H)];
    [discriminate|].
  assert (_props (view w1) = props ∪ _props (view w)) as P1.
  { assert (_props (view w1)
            = _props (set_state (default (state (view w)) sto) (view w0))
            \/ (exists e, Ok tt = Throw e
                  /\ raises env (trace w0) ClearComposition = Some e
                  /\ view w1 = view w0)) as [E|(e & ? & _)];
      [|by rewrite E, V0|discriminate].
    by apply (updateStateInner_frame env _props) with (reconfigured:=true). }
  split.
  - assert (state (view w1) = default (state (view w)) sto
            \/ (exists e, Ok tt = Throw e
                  /\ raises env (trace w0) ClearComposition = Some e
                  /\ view w1 = view w0)) as [E|(e & ? & _)];
      [|done|discriminate].
    by apply (updateStateInner_frame env state) with (reconfigured:=true).
  - intros name. unfold prop_get. rewrite P1, lookup_union.
    by destruct (props !! name), (_props (view w) !! name).
Qed.
End Replacing.

(** ** The root of the editor *)

Section RootFacts.
Import Root.

Lemma search_root_skips pre : forall rest d,
  Forall (fun a => is_root a = false) pre ->
  search_root (pre ++ rest) d = search_root rest d.
Proof.
  induction pre as [|a pre IH]; intros rest d H; [done|].
  inversion H as [|? ? Ha Hpre]; subst. simpl. rewrite Ha. by apply IH.
Qed.

(** X15. With nothing cached, [root] returns the nearest ancestor that is
    a document or a shadow root with a host, whatever lies above it, and
    caches it. Before that it makes sure the node answers [getSelection]:
    when the lookup on the node finds nothing truthy, the method is
    installed on the node's prototype. *)
Theorem root_finds_nearest below a above d :
  _root d = None ->
  Forall (fun b => is_root b = false) below ->
  is_root a = true ->
  protos a <> [] ->
  exists d',
    root (below ++ a :: above) d = (Ok (Found a), d')
    /\ _root d' = Some a
    /\ (own_getSelection a <> Some false ->
        has_getSelection (getSelection_of d') a = true).
Proof.
  intros Hc Hbelow Ha Hp. unfold root. cbn. rewrite Hc.
  rewrite (search_root_skips _ _ _ Hbelow). simpl. rewrite Ha. cbn.
  destruct (has_getSelection (getSelection_of d) a) eqn:Hg; cbn.
  - eexists. split; [done|]. split; [done|]. by intros _.
  - unfold patch_prototype. destruct (protos a) as [|p ps] eqn:Ep; [done|].
    cbn. eexists. split; [done|]. split; [done|]. cbn.
    intros Hown. unfold has_getSelection in *.
    destruct (own_getSelection a) as [[]|]; [done|done|].
    rewrite Ep. cbn. by rewrite lookup_insert_eq.
Qed.

(** X16. Once a root is cached it is what [root] returns from then on,
    wherever the editor is then: the ancestors are not looked at again,
    and nothing is changed. *)
Theorem root_is_cached ancestors d r d' later :
  root ancestors d = (Ok (Found r), d') ->
  root later d' = (Ok (Found r), d').
Proof.
  unfold root. cbn. destruct (_root d) as [c|] eqn:Hc.
  - intros H. inversion H; subst. by rewrite Hc.
  - induction ancestors as [|a rest IH]; [done|].
    simpl. destruct (is_root a); [|exact IH].
    cbn. destruct (has_getSelection _ a); cbn.
    + intros H. inversion H; subst. done.
    + unfold patch_prototype. destruct (protos a); [done|].
      cbn. intros H. inversion H; subst. done.
Qed.

(** X17. While no ancestor is a document or a hosted shadow root (the
    editor is not attached) [root] answers with the global document and
    caches nothing, so that a later call searches again. *)
Theorem root_detached ancestors d :
  _root d = None ->
  Forall (fun a => is_root a = false) ancestors ->
  root ancestors d = (Ok Document, d).
Proof.
  intros Hc H. unfold root. cbn. rewrite Hc.
  rewrite <- (app_nil_r ancestors). by rewrite (search_root_skips _ _ _ H).
Qed.
End RootFacts.

(** ** Reading a prop without a callback *)

Section PlainProps.
Context {S : Type}.

Lemma resolve_plain cs (s : S) :
  resolve None cs s
  = (Ok (default VUndefined (head (filter (fun c => truthy c = true) cs))), s).
Proof.
  induction cs as [|c cs IH]; cbn [resolve]; [done|].
  destruct (nullish c) eqn:Hn.
  - rewrite IH. rewrite filter_cons_False; [done|]. by destruct c.
  - cbn [apply_opt]. unfold bind, ret. destruct (truthy c) eqn:Ht.
    + by rewrite filter_cons_True.
    + rewrite IH. by rewrite filter_cons_False by congruence.
Qed.

(** X18. Without a callback, [someProp] returns the first truthy value of
    the prop (the direct props first, then the plugins in order), and
    [undefined] when there is none; it never throws and changes nothing.
    A direct prop whose value is falsy ([0], [false], the empty string)
    therefore does not hide the value a plugin gives. *)
Theorem someProp_plain _props plugins propName (s : S) :
  someProp _props plugins propName None s
  = (Ok (default VUndefined
           (head (filter (fun c => truthy c = true)
                         (candidates _props plugins propName)))), s).
Proof. rewrite someProp_resolve. apply resolve_plain. Qed.
End PlainProps.

(** ** The properties on sample inputs *)

Lemma getEditable_unless_vetoed_witness :
  getEditable Cases.one_says_no Cases.guarded_view
  = Ok (negb (existsb (vetoes Cases.one_says_no (state Cases.guarded_view))
                (candidates (_props Cases.guarded_view)
                   (items (plugins (state Cases.guarded_view)))
                   "editable"))).
Proof.
  apply (getEditable_unless_vetoed Cases.one_says_no Cases.guarded_view).
  repeat (apply Forall_cons_2; [right; reflexivity|]). apply Forall_nil_2.
Defined.

Lemma getEditable_needs_function_witness :
  exists msg,
    getEditable Fixtures.calm Cases.literal_view = Throw (TypeError msg).
Proof.
  apply (getEditable_needs_function Fixtures.calm Cases.literal_view
           [] (VBool false) []).
  - reflexivity.
  - constructor.
  - reflexivity.
  - reflexivity.
Defined.

Lemma destroyPluginViews_pops_witness :
  exists kept gone,
    pluginViews (view Cases.three_views) = kept ++ gone
    /\ view (snd Cases.teardown_run)
       = set_pluginViews kept (view Cases.three_views)
    /\ trace (snd Cases.teardown_run)
       = trace Cases.three_views ++ destroy_calls gone
    /\ (fst Cases.teardown_run = Ok tt -> kept = [])
    /\ (forall e, fst Cases.teardown_run = Throw e ->
        exists pv newer,
          gone = pv :: newer
          /\ pv_destroy pv = true
          /\ raises Cases.middle_throws
               (trace Cases.three_views ++ destroy_calls newer)
               (PluginViewDestroy pv) = Some e).
Proof.
  apply (destroyPluginViews_pops Cases.middle_throws Cases.three_views
           (fst Cases.teardown_run) (snd Cases.teardown_run)).
  apply surjective_pairing.
Defined.

Lemma updatePluginViews_recreates_witness :
  trace (snd Cases.recreate_run)
  = (trace Cases.three_views
       ++ destroy_calls (pluginViews (view Cases.three_views)))
      ++ map PluginViewCreate
           (factories (items (plugins (state (view Cases.three_views)))))
  /\ view (snd Cases.recreate_run)
     = set_pluginViews
         (created Fixtures.calm
            (trace Cases.three_views
               ++ destroy_calls (pluginViews (view Cases.three_views)))
            (factories (items (plugins (state (view Cases.three_views))))))
         (view Cases.three_views).
Proof.
  apply (updatePluginViews_recreates Fixtures.calm None Cases.three_views
           (snd Cases.recreate_run)).
  - exact I.
  - apply pair_of_fst. vm_compute. reflexivity.
Defined.

Lemma updatePluginViews_notifies_witness :
  view (snd Cases.notify_run) = view Cases.three_views
  /\ (fst Cases.notify_run = Ok tt ->
      trace (snd Cases.notify_run)
      = trace Cases.three_views
          ++ update_calls (pluginViews (view Cases.three_views))
               (Fixtures.plain_state Cases.viewing_plugins)).
Proof.
  apply (updatePluginViews_notifies Fixtures.calm
           (Fixtures.plain_state Cases.viewing_plugins) Cases.three_views
           (fst Cases.notify_run) (snd Cases.notify_run)).
  - reflexivity.
  - apply surjective_pairing.
Defined.



Lemma plain_update_keeps_registry_witness :
  nodeViews (view (snd Fixtures.failed_patch_run))
  = nodeViews (view Fixtures.fresh)
  /\ _props (view (snd Fixtures.failed_patch_run))
     = _props (view Fixtures.fresh)
  /\ exists evs,
      trace (snd Fixtures.failed_patch_run) = trace Fixtures.fresh ++ evs
      /\ Forall (fun ev => ev <> EnsureListeners) evs.
Proof.
  apply (plain_update_keeps_registry Fixtures.patch_fails
           (Fixtures.plain_state []) Fixtures.fresh
           (fst Fixtures.failed_patch_run) (snd Fixtures.failed_patch_run)).
  apply surjective_pairing.
Defined.

Lemma changed_nodeViews_redraw_witness :
  nodeViews (view (snd Cases.image_run)) = {[ "image" := VFun 9 ]}
  /\ exists evs outer inner,
      trace (snd Cases.image_run) = trace Cases.image_world ++ evs
      /\ Forall (fun ev => ~ patch_attempt ev) evs
      /\ In (DocViewDestroy (docView (view Cases.image_world))) evs
      /\ In (DocViewDesc (doc (Fixtures.plain_state [])) outer inner) evs.
Proof.
  apply (changed_nodeViews_redraw Fixtures.calm (Fixtures.plain_state [])
           Cases.image_world (snd Cases.image_run)).
  - vm_compute. reflexivity.
  - vm_compute. reflexivity.
  - apply pair_of_fst. vm_compute. reflexivity.
Defined.

Lemma update_refreshes_editable_and_cursor_witness :
  getEditable Fixtures.calm
    (set_state Cases.moved_state (view Cases.cursor_world))
  = Ok (editable (view (snd Cases.cursor_run)))
  /\ cursorWrapper (view (snd Cases.cursor_run))
     = match markCursor (view Cases.cursor_world) with
       | Some marks =>
           Some {| cw_pos := sel_head (selection Cases.moved_state);
                   cw_marks := marks |}
       | None => None
       end.
Proof.
  apply (update_refreshes_editable_and_cursor Fixtures.calm Cases.moved_state
           false Cases.cursor_world (snd Cases.cursor_run)).
  apply pair_of_fst. vm_compute. reflexivity.
Defined.

Lemma update_reconfigures_witness :
  _props (view (snd Cases.update_run)) = {[ "nodeViews" := Cases.image_views ]}
  /\ state (view (snd Cases.update_run)) = Fixtures.plain_state []
  /\ scrollTop (view (snd Cases.update_run)) = 0
  /\ exists evs,
      trace (snd Cases.update_run)
      = trace Cases.cursor_world ++ evs ++ [SetScrollTop 0]
      /\ In EnsureListeners evs.
Proof.
  apply (update_reconfigures Fixtures.calm).
  apply pair_of_fst. vm_compute. reflexivity.
Defined.

Lemma setProps_merges_witness :
  state (view (snd Cases.setProps_run))
  = default (state (view Cases.image_world)) None
  /\ forall name,
      prop_get (_props (view (snd Cases.setProps_run))) name
      = match ({[ "editable" := VFun 2 ]} : gmap string value) !! name with
        | Some x => x
        | None => prop_get (_props (view Cases.image_world)) name
        end.
Proof.
  apply (setProps_merges Fixtures.calm).
  apply pair_of_fst. vm_compute. reflexivity.
Defined.

Lemma root_finds_nearest_witness :
  exists d',
    Root.root ([Cases.a_div; Cases.a_fragment]
                 ++ Cases.a_shadow_root :: [Cases.the_document])
              Cases.unsearched
    = (Ok (Root.Found Cases.a_shadow_root), d')
    /\ Root._root d' = Some Cases.a_shadow_root
    /\ (Root.own_getSelection Cases.a_shadow_root <> Some false ->
        Root.has_getSelection (Root.getSelection_of d') Cases.a_shadow_root
        = true).
Proof.
  apply root_finds_nearest.
  - reflexivity.
  - repeat constructor.
  - reflexivity.
  - discriminate.
Defined.

Lemma root_is_cached_witness :
  Root.root [Cases.the_document] (snd Cases.first_root_run)
  = (Ok (Root.Found Cases.a_shadow_root), snd Cases.first_root_run).
Proof.
  apply (root_is_cached Cases.in_shadow Cases.unsearched).
  apply pair_of_fst. vm_compute. reflexivity.
Defined.

Lemma root_detached_witness :
  Root.root [Cases.a_div; Cases.a_fragment] Cases.unsearched
  = (Ok Root.Document, Cases.unsearched).
Proof.
  apply root_detached.
  - reflexivity.
  - repeat constructor.
Defined.

(** ** The life of a view *)

Section LifeFacts.
Import Lifecycle.
Variable env : Env.
Variable around : Surroundings.

Lemma core_events_app l l' :
  core_events (l ++ l') = core_events l ++ core_events l'.
Proof. unfold core_events. apply omap_app. Qed.

Lemma core_events_Core evs : core_events (map Core evs) = evs.
Proof.
  induction evs as [|ev evs IH]; [done|].
  change (ev :: core_events (map Core evs) = ev :: evs). by rewrite IH.
Qed.

Lemma core_events_Dom cs : core_events (map Dom cs) = [].
Proof. induction cs as [|c cs IH]; [done|exact IH]. Qed.

(** Running a computation of the update cycle on the view object. *)
Lemma core_run {A} (m : M World A) e r w' evs :
  m {| view := fields e; trace := core_events (steps e) |} = (r, w') ->
  trace w' = core_events (steps e) ++ evs ->
  core m e = (r, log_steps (map Core evs) (set_fields (view w') e)).
Proof.
  intros H T. unfold core. rewrite H. cbn. rewrite T.
  by rewrite drop_app_length.
Qed.

Lemma core_inv {A} (m : M World A) e r e' :
  core m e = (r, e') ->
  exists w',
    m {| view := fields e; trace := core_events (steps e) |} = (r, w')
    /\ fields e' = view w'
    /\ has_docView e' = has_docView e
    /\ mounted e' = mounted e
    /\ attached e' = attached e
    /\ (forall evs, trace w' = core_events (steps e) ++ evs ->
        steps e' = steps e ++ map Core evs).
Proof.
  unfold core. destruct (m _) as [r0 w'] eqn:H. intros E.
  inversion E; subst. exists w'. repeat split; try done.
  intros evs T. cbn. rewrite T. by rewrite drop_app_length.
Qed.

Lemma dom_call_inv c e r e' :
  dom_call around c e = (r, e') ->
  e' = log_steps [Dom c] e
  /\ (r = Ok tt \/ exists err, dom_raises around (steps e) c = Some err
                               /\ r = Throw err).
Proof.
  unfold dom_call. destruct (dom_raises _ _ _) as [err|]; intros H;
    inversion H; subst; eauto.
Qed.

Lemma tree_call_run ev w r w' :
  tree_call env ev w = (r, w') ->
  trace w' = trace w ++ [ev]
  /\ exists tw, view w' = set_trackWrites tw (view w).
Proof.
  unfold tree_call. intros H.
  apply bind_inv in H as [([] & w2 & H1 & H)|(e & H1 & ->)].
  - apply call_ok in H1 as [T V]. cbn in H.
    destruct (writes_tracked env (trace w2)); inversion H; subst; cbn.
    + split; [done|]. exists None. by rewrite V.
    + split; [done|]. exists (trackWrites (view w)). rewrite V.
      by destruct (view w).
  - apply call_inv in H1 as [-> _]. split; [done|].
    exists (trackWrites (view w)). cbn. by destruct (view w).
Qed.

(** The steps of a [destroy] that returns normally on a view that has its
    document view. *)
Lemma destroy_stages e e' :
  has_docView e = true ->
  destroy env around e = (Ok tt, e') ->
  exists e1 e2 e3 e4,
    dom_call around DestroyInput e = (Ok tt, e1)
    /\ core (destroyPluginViews env) e1 = (Ok tt, e2)
    /\ (if mounted e2 then
          let* _ := core (let* v := get_view in
                          tree_call env
                            (DocViewUpdate (docView v) (doc (state v)) []
                                           (viewDecorations env v))) in
          dom_write ClearTextContent
        else if attached e2 then
          let* _ := dom_call around RemoveChild in
          modify (set_attached false)
        else ret tt) e2 = (Ok tt, e3)
    /\ core (let* v := get_view in
             tree_call env (DocViewDestroy (docView v))) e3 = (Ok tt, e4)
    /\ e' = set_has_docView false e4.
Proof.
  intros Hlive H. unfold destroy in H. cbn in H. rewrite Hlive in H. cbn in H.
  apply bind_inv in H as [([] & e1 & H1 & H)|(? & ? & ?)]; [|discriminate].
  apply bind_inv in H as [([] & e2 & H2 & H)|(? & ? & ?)]; [|discriminate].
  cbn in H.
  apply bind_inv in H as [([] & e3 & H3 & H)|(? & ? & ?)]; [|discriminate].
  apply bind_inv in H as [([] & e4 & H4 & H)|(? & ? & ?)]; [|discriminate].
  inversion H; subst. by exists e1, e2, e3, e4.
Qed.

(** X19. [destroy] on a view that has its document view, when it returns
    normally: the input handling is shut down first, then the plugin views
    are destroyed (newest first), then the element is dealt with (a
    mounted element is kept: the document view is updated without outer
    decorations and the content is cleared; otherwise the element is taken
    out of its parent, if it has one), and last the document view is
    destroyed and the field is cleared. *)
Theorem destroy_tears_down e e' :
  has_docView e = true ->
  destroy env around e = (Ok tt, e') ->
  let dv := docView (fields e) in
  exists inner,
    steps e'
    = steps e ++ [Dom DestroyInput]
        ++ map Core (destroy_calls (pluginViews (fields e)))
        ++ (if mounted e
            then [Core (DocViewUpdate dv (doc (state (fields e))) [] inner);
                  Dom ClearTextContent]
            else if attached e then [Dom RemoveChild] else [])
        ++ [Core (DocViewDestroy dv)]
    /\ has_docView e' = false
    /\ pluginViews (fields e') = []
    /\ mounted e' = mounted e
    /\ attached e' = attached e && mounted e.
Proof.
  intros Hlive H.
  apply destroy_stages in H as (e1 & e2 & e3 & e4 & H1 & H2 & H3 & H4 & ->);
    [|done].
  apply dom_call_inv in H1 as [-> _].
  apply core_inv in H2 as (w2 & R2 & F2 & L2 & M2 & A2 & S2).
  apply destroyPluginViews_ok in R2 as [V2 T2]. cbn in V2, T2.
  specialize (S2 _ T2). cbn in S2.
  assert (docView (fields e2) = docView (fields e)
          /\ pluginViews (fields e2) = []
          /\ state (fields e2) = state (fields e)) as (D2 & P2 & St2)
    by (by rewrite F2, V2).
  cbn in M2, A2.
  assert (exists inner mid,
    steps e3 = steps e2 ++ mid
    /\ mid = (if mounted e
              then [Core (DocViewUpdate (docView (fields e))
                            (doc (state (fields e))) [] inner);
                    Dom ClearTextContent]
              else if attached e then [Dom RemoveChild] else [])
    /\ docView (fields e3) = docView (fields e)
    /\ pluginViews (fields e3) = []
    /\ has_docView e3 = has_docView e2
    /\ mounted e3 = mounted e
    /\ attached e3 = attached e && mounted e)
    as (inner & mid & S3 & -> & D3 & P3 & L3 & M3 & A3).
  { rewrite M2 in H3. destruct (mounted e) eqn:Hm.
    - apply bind_inv in H3 as [([] & e5 & H3 & H5)|(? & ? & ?)];
        [|discriminate].
      apply core_inv in H3 as (w3 & R3 & F3 & L3 & M3 & A3 & S3).
      cbn in R3. apply tree_call_run in R3 as [T3 (tw & V3)].
      cbn in T3, V3. specialize (S3 _ T3).
      inversion H5; subst e3. cbn.
      eexists _, _. split; [by rewrite S3, <- app_assoc|].
      rewrite D2, St2.
      split; [reflexivity|]. rewrite F3, V3. cbn.
      rewrite D2, P2, L3, M3, A3, A2, M2. by rewrite andb_true_r.
    - rewrite A2 in H3. destruct (attached e) eqn:Ha.
      + apply bind_inv in H3 as [([] & e5 & H3 & H5)|(? & ? & ?)];
          [|discriminate].
        apply dom_call_inv in H3 as [-> _]. inversion H5; subst e3. cbn.
        exists (InnerDecoRef 0). eexists. split; [done|].
        split; [reflexivity|]. by rewrite M2.
      + inversion H3; subst e3. exists (InnerDecoRef 0), [].
        rewrite app_nil_r. split; [done|]. split; [reflexivity|].
        by rewrite M2, A2. }
  apply core_inv in H4 as (w4 & R4 & F4 & L4 & M4 & A4 & S4).
  cbn in R4. apply tree_call_run in R4 as [T4 (tw & V4)]. cbn in T4, V4.
  specialize (S4 _ T4).
  exists inner. cbn.
  split. { rewrite S4, S3, S2, D3. cbn. by rewrite <- !app_assoc. }
  split; [done|].
  split. { by rewrite F4, V4. }
  split; [congruence|]. congruence.
Qed.
End LifeFacts.

Section LifeEnds.
Import Lifecycle.
Variable env : Env.
Variable around : Surroundings.

Lemma core_keeps_docView_flag {A} (m : M World A) e r e' :
  core m e = (r, e') -> has_docView e' = has_docView e.
Proof. intros H. by apply core_inv in H as (? & _ & _ & ? & _). Qed.

Lemma dom_call_keeps_docView_flag c e r e' :
  dom_call around c e = (r, e') -> has_docView e' = has_docView e.
Proof. intros H. by apply dom_call_inv in H as [-> _]. Qed.

(** The log only grows. *)
Lemma bind_appends {A B} (m : M Editor A) (k : A -> M Editor B) :
  (forall e r e', m e = (r, e') -> exists l, steps e' = steps e ++ l) ->
  (forall a e r e', k a e = (r, e') -> exists l, steps e' = steps e ++ l) ->
  forall e r e', bind m k e = (r, e') -> exists l, steps e' = steps e ++ l.
Proof.
  intros Hm Hk e r e' H.
  apply bind_inv in H as [(a & e1 & H1 & H2)|(err & H1 & _)].
  - destruct (Hm _ _ _ H1) as (l1 & E1). destruct (Hk _ _ _ _ H2) as (l2 & E2).
    exists (l1 ++ l2). by rewrite E2, E1, <- app_assoc.
  - by eapply Hm.
Qed.

Lemma core_appends {A} (m : M World A) e r e' :
  core m e = (r, e') -> exists l, steps e' = steps e ++ l.
Proof.
  unfold core. destruct (m _) as [r0 w']. intros H. inversion H; subst.
  by eexists.
Qed.

Lemma dom_call_appends c e r e' :
  dom_call around c e = (r, e') -> exists l, steps e' = steps e ++ l.
Proof. intros H. apply dom_call_inv in H as [-> _]. by eexists. Qed.

Lemma modify_appends f e r e' :
  (forall e, steps (f e) = steps e) ->
  modify f e = (r, e') -> exists l, steps e' = steps e ++ l.
Proof.
  intros Hf H. inversion H; subst. exists []. by rewrite app_nil_r, Hf.
Qed.

Lemma get_appends e r e' :
  get e = (r, e') -> exists l, steps e' = steps e ++ l.
Proof. intros H. inversion H; subst. exists []. by rewrite app_nil_r. Qed.

Lemma ret_appends {A} (a : A) e r e' :
  ret a e = (r, e') -> exists l, steps e' = steps e ++ l.
Proof. intros H. inversion H; subst. exists []. by rewrite app_nil_r. Qed.

Lemma dom_write_appends c e r e' :
  dom_write c e = (r, e') -> exists l, steps e' = steps e ++ l.
Proof. intros H. inversion H; subst. by eexists. Qed.

(** X20. [destroy] does its work once: after a [destroy] that returned
    normally, another [destroy] returns at once, without a call and
    without a change. *)
Theorem destroy_twice e e' :
  destroy env around e = (Ok tt, e') ->
  destroy env around e' = (Ok tt, e').
Proof.
  intros H.
  assert (has_docView e' = false) as Hdead.
  { destruct (has_docView e) eqn:Hlive.
    - by apply destroy_stages in H as (? & ? & ? & ? & _ & _ & _ & _ & ->).
    - unfold destroy in H. cbn in H. rewrite Hlive in H. cbn in H.
      by inversion H; subst. }
  unfold destroy. cbn. by rewrite Hdead.
Qed.

(** X21. A [destroy] that throws has not cleared [docView]: the view still
    counts as alive, and a later [destroy] goes through the teardown
    again, starting with [destroyInput]. *)
Theorem failed_destroy_stays_alive e err e' :
  destroy env around e = (Throw err, e') ->
  has_docView e' = true
  /\ exists r e'',
      destroy env around e' = (r, e'')
      /\ exists rest, steps e'' = steps e' ++ Dom DestroyInput :: rest.
Proof.
  intros H.
  assert (has_docView e' = true) as Hlive'.
  { unfold destroy in H. cbn in H.
    destruct (has_docView e) eqn:Hlive; [|discriminate H]. cbn in H.
    apply bind_inv in H as [([] & e1 & H1 & H)|(? & H1 & _)];
      apply dom_call_keeps_docView_flag in H1; [|congruence].
    apply bind_inv in H as [([] & e2 & H2 & H)|(? & H2 & _)];
      apply core_keeps_docView_flag in H2; [|congruence].
    cbn in H.
    apply bind_inv in H as [([] & e3 & H3 & H)|(? & H3 & _)].
    2:{ destruct (mounted e2).
        - apply bind_inv in H3 as [([] & e5 & H3 & H5)|(? & H3 & _)];
            [discriminate H5|].
          apply core_keeps_docView_flag in H3. congruence.
        - destruct (attached e2); [|discriminate H3].
          apply bind_inv in H3 as [([] & e5 & H3 & H5)|(? & H3 & _)];
            [discriminate H5|].
          apply dom_call_keeps_docView_flag in H3. congruence. }
    apply bind_inv in H as [([] & e4 & H4 & H)|(? & H4 & _)];
      [discriminate H|].
    assert (has_docView e3 = has_docView e2) as E3.
    { destruct (mounted e2).
      - apply bind_inv in H3 as [([] & e5 & H3 & H5)|(? & ? & ?)];
          [|discriminate].
        apply core_keeps_docView_flag in H3. inversion H5; subst. done.
      - destruct (attached e2); [|by inversion H3].
        apply bind_inv in H3 as [([] & e5 & H3 & H5)|(? & ? & ?)];
          [|discriminate].
        apply dom_call_keeps_docView_flag in H3. inversion H5; subst. done. }
    apply core_keeps_docView_flag in H4. congruence. }
  split; [done|].
  destruct (destroy env around e') as [r e''] eqn:H'.
  exists r, e''. split; [done|].
  unfold destroy in H'. cbn in H'. rewrite Hlive' in H'. cbn in H'.
  apply bind_inv in H' as [([] & e1 & H1 & H')|(? & H1 & _)];
    apply dom_call_inv in H1 as [-> _]; [|by exists []].
  assert (exists l, steps e'' = steps (log_steps [Dom DestroyInput] e') ++ l)
    as (l & E).
  { revert H'. generalize (log_steps [Dom DestroyInput] e'). intros e1.
    revert e1 r e''.
    apply bind_appends; [apply core_appends|]. intros [].
    apply bind_appends; [apply get_appends|]. intros e2.
    apply bind_appends.
    - destruct (mounted e2).
      + apply bind_appends; [apply core_appends|]. intros [].
        apply dom_write_appends.
      + destruct (attached e2); [|apply ret_appends].
        apply bind_appends; [apply dom_call_appends|]. intros [].
        intros ? ? ?. by apply modify_appends.
    - intros []. apply bind_appends; [apply core_appends|]. intros [].
      intros ? ? ?. by apply modify_appends. }
  exists l. rewrite E. cbn. by rewrite <- app_assoc.
Qed.
End LifeEnds.

Section LifeBegins.
Import Lifecycle.
Variable env : Env.
Variable around : Surroundings.

Lemma log_nothing e : log_steps [] e = e.
Proof. destruct e. unfold log_steps. cbn. by rewrite app_nil_r. Qed.

Lemma set_fields_same e : set_fields (fields e) e = e.
Proof. by destruct e. Qed.

Lemma bind_core_get_view {B} (k : View -> M Editor B) e :
  (let* v := core get_view in k v) e = k (fields e) e.
Proof.
  unfold bind, core. cbn. by rewrite drop_all, log_nothing, set_fields_same.
Qed.

Lemma bind_core_get {B} (k : World -> M Editor B) e :
  (let* w := core get in k w) e
  = k {| view := fields e; trace := core_events (steps e) |} e.
Proof.
  unfold bind, core. cbn. by rewrite drop_all, log_nothing, set_fields_same.
Qed.

Lemma bind_core_lift {A B} (x : Result A) (k : A -> M Editor B) e :
  (let* a := core (lift x) in k a) e
  = match x with
    | Ok a => k a e
    | Throw err => (Throw err, e)
    end.
Proof.
  unfold bind, core. cbn.
  rewrite drop_all, log_nothing, set_fields_same. by destruct x.
Qed.

Lemma bind_core_modify_view {B} f (k : unit -> M Editor B) e :
  (let* u := core (modify_view f) in k u) e
  = k tt (set_fields (f (fields e)) e).
Proof. unfold bind, core. cbn. by rewrite drop_all, log_nothing. Qed.

Lemma putInPlace_ok place e e' :
  putInPlace around place e = (Ok tt, e') ->
  fields e' = fields e
  /\ has_docView e' = has_docView e
  /\ mounted e'
     = match place with
       | Some p => mounted e
                   || (negb (place_appendChild p) && negb (place_apply p)
                       && is_set (place_mount p))
       | None => mounted e
       end
  /\ exists calls,
      steps e' = steps e ++ map Dom calls
      /\ calls = match place with
                 | Some p =>
                     if place_appendChild p then [AppendChild]
                     else if place_apply p
                          then match place_fn p with
                               | Some fn => [CallPlace fn]
                               | None => []
                               end
                          else []
                 | None => []
                 end.
Proof.
  unfold putInPlace. intros H. destruct place as [p|].
  2:{ inversion H; subst. repeat split; try done.
      exists []. by rewrite app_nil_r. }
  destruct (place_appendChild p).
  { apply bind_inv in H as [([] & e1 & H1 & H)|(? & ? & ?)]; [|discriminate].
    apply dom_call_inv in H1 as [-> _]. inversion H; subst. cbn.
    rewrite orb_false_r. repeat split; try done. by exists [AppendChild]. }
  destruct (place_apply p).
  { destruct (place_fn p) as [fn|]; [|discriminate H].
    apply bind_inv in H as [([] & e1 & H1 & H)|(? & ? & ?)]; [|discriminate].
    apply dom_call_inv in H1 as [-> _]. inversion H; subst. cbn.
    rewrite orb_false_r. repeat split; try done. by exists [CallPlace fn]. }
  destruct (place_mount p); inversion H; subst; cbn;
    rewrite ?orb_true_r, ?orb_false_r; repeat split; try done;
    exists []; by rewrite app_nil_r.
Qed.

(** The view a constructor call that returns normally has built. *)
Lemma construct_ok place props st e0 e :
  construct env around place props st e0 = (Ok tt, e) ->
  let start := blank props st (chosen around place) in
  exists ed nv outer,
    let v := set_nodeViews nv (set_cursorWrapper None (set_editable ed start)) in
    let inner := viewDecorations env v in
    let built := core_events (steps e0) ++ [DocViewDesc (doc st) outer inner] in
    let fs := factories (items (plugins st)) in
    getEditable env start = Ok ed
    /\ buildNodeViews start = Ok nv
    /\ computeDocDeco env v = Ok outer
    /\ steps e
       = steps e0 ++ map Dom (placing place)
           ++ [Core (DocViewDesc (doc st) outer inner); Dom InitInput]
           ++ map Core (map PluginViewCreate fs)
    /\ has_docView e = true
    /\ mounted e
       = match place with
         | Some p => negb (place_appendChild p) && negb (place_apply p)
                     && is_set (place_mount p)
         | None => false
         end
    /\ _props (fields e) = props
    /\ state (fields e) = st
    /\ editable (fields e) = ed
    /\ nodeViews (fields e) = nv
    /\ docView (fields e) = new_docView env built
    /\ pluginViews (fields e) = created env built fs.
Proof.
  unfold construct. intros H.
  apply bind_inv in H as [(el & e1 & H1 & H)|(? & ? & ?)]; [|discriminate].
  assert (el = chosen around place
          /\ steps e1
             = steps e0
                 ++ map Dom match place with
                            | Some {| place_mount := Some _ |} => []
                            | _ => [CreateElement]
                            end) as [-> S1].
  { unfold chosen. destruct place as [[[m|] ? ? ?]|]; inversion H1; subst;
      cbn; by rewrite ?app_nil_r. }
  clear H1. cbn in H.
  apply bind_inv in H as [([] & e2 & H2 & H)|(? & ? & ?)]; [|discriminate].
  apply putInPlace_ok in H2 as (F2 & L2 & M2 & calls & S2 & Ec).
  cbn in F2, L2, M2, S2. rewrite S1 in S2.
  rewrite <- app_assoc, <- map_app in S2. subst calls.
  fold (placing place) in S2. clear S1 e1.
  rewrite bind_core_get_view, bind_core_lift, F2 in H.
  destruct (getEditable env (blank props st (chosen around place)))
    as [ed|] eqn:Hed; [|discriminate H].
  rewrite bind_core_modify_view in H. unfold updateCursorWrapper in H.
  rewrite bind_core_modify_view, bind_core_get_view, bind_core_lift in H.
  cbn [fields set_fields] in H. rewrite F2 in H.
  cbn [markCursor set_editable blank] in H.
  set (start := blank props st (chosen around place)) in *.
  rewrite (buildNodeViews_of start) in H by done.
  destruct (buildNodeViews start) as [nv|] eqn:Hnv; [|discriminate H].
  rewrite bind_core_modify_view, bind_core_get_view, bind_core_lift in H.
  cbn [fields set_fields] in H.
  set (v := set_nodeViews nv _) in H.
  destruct (computeDocDeco env v) as [outer|] eqn:Hdeco; [|discriminate H].
  apply bind_inv in H as [([] & e3 & H3 & H)|(? & ? & ?)]; [|discriminate].
  apply core_inv in H3 as (w3 & R3 & F3 & L3 & M3 & A3 & S3).
  apply tree_call_run in R3 as [T3 (tw & V3)]. cbn in T3, V3.
  specialize (S3 _ T3). cbn in S3, L3, M3.
  rewrite bind_core_get, bind_core_modify_view in H.
  apply bind_inv in H as [([] & e4 & H4 & H)|(? & ? & ?)]; [|discriminate].
  inversion H4; subst e4. clear H4.
  apply bind_inv in H as [([] & e5 & H5 & H)|(? & ? & ?)]; [|discriminate].
  apply dom_call_inv in H5 as [-> _].
  apply bind_inv in H as [(e6 & e6' & H6 & H)|(? & ? & ?)]; [|discriminate].
  inversion H6; subst e6 e6'. clear H6.
  rewrite !bind_core_modify_view in H.
  apply core_inv in H as (w7 & R7 & F7 & L7 & M7 & A7 & S7).
  unfold updatePluginViews in R7. cbn -[core_events] in R7.
  apply create_loop_ok in R7 as [T7 V7]. cbn -[core_events] in T7, V7.
  specialize (S7 _ T7). cbn in S7, L7, M7.
  assert (core_events (steps e3 ++ [Dom InitInput])
          = core_events (steps e0)
              ++ [DocViewDesc (doc st) outer (viewDecorations env v)]) as Eb.
  { rewrite core_events_app, S3, core_events_app, S2, core_events_app.
    cbn. rewrite app_nil_r.
    by rewrite core_events_Dom, app_nil_r. }
  assert (core_events (steps e3)
          = core_events (steps e0)
              ++ [DocViewDesc (doc st) outer (viewDecorations env v)]) as Eb'.
  { rewrite <- Eb, core_events_app. cbn. by rewrite app_nil_r. }
  rewrite Eb in T7, V7. rewrite Eb' in V7.
  assert (state (fields e3) = st /\ _props (fields e3) = props
          /\ editable (fields e3) = ed /\ nodeViews (fields e3) = nv)
    as (St3 & P3 & E3 & N3) by (by rewrite F3, V3).
  rewrite St3 in V7, S7.
  exists ed, nv, outer. fold v.
  split; [done|]. split; [done|]. split; [done|].
  split. { rewrite S7, S3, S2. by rewrite <- !app_assoc. }
  split; [done|]. split. { by rewrite M7, M3. }
  rewrite F7, V7. cbn. by rewrite St3, P3, E3, N3.
Qed.
End LifeBegins.

Section LifeCycle.
Import Lifecycle.
Variable env : Env.
Variable around : Surroundings.

Lemma created_length tr fs : length (created env tr fs) = length fs.
Proof.
  revert tr. induction fs as [|f fs IH]; intros tr; [done|].
  cbn. by rewrite IH.
Qed.

(** X22. A constructor call that returns normally leaves a view that has
    its document view and holds the props and the state it was given;
    [editable] and the node-view registry are what [getEditable] and
    [buildNodeViews] give for these props and this state; and the view is
    marked as mounted exactly when [place] has a [mount] property and
    neither [appendChild] nor [apply]. *)
Theorem construct_view place props st e0 e :
  construct env around place props st e0 = (Ok tt, e) ->
  has_docView e = true
  /\ _props (fields e) = props
  /\ state (fields e) = st
  /\ getEditable env (blank props st (chosen around place))
     = Ok (editable (fields e))
  /\ buildNodeViews (blank props st (chosen around place))
     = Ok (nodeViews (fields e))
  /\ mounted e
     = match place with
       | Some p => negb (place_appendChild p) && negb (place_apply p)
                   && is_set (place_mount p)
       | None => false
       end.
Proof.
  intros H. apply construct_ok in H
    as (ed & nv & outer & Hed & Hnv & _ & _ & L & M & P & S & E & N & _).
  rewrite E, N. by repeat split.
Qed.

(** X23. What a constructor call that returns normally has done, in
    order: it got the element and put it in its place, built the document
    view, initialised the input handling, and then called the view factory
    of each plugin that has one, in plugin order; the plugin views are
    what the factories returned. No plugin view is destroyed or
    updated. *)
Theorem construct_creates_plugin_views place props st e0 e :
  construct env around place props st e0 = (Ok tt, e) ->
  exists outer inner,
    let fs := factories (items (plugins st)) in
    steps e
    = steps e0 ++ map Dom (placing place)
        ++ [Core (DocViewDesc (doc st) outer inner); Dom InitInput]
        ++ map Core (map PluginViewCreate fs)
    /\ pluginViews (fields e)
       = created env
           (core_events (steps e0) ++ [DocViewDesc (doc st) outer inner]) fs
    /\ length (pluginViews (fields e)) = length fs.
Proof.
  intros H. apply construct_ok in H
    as (ed & nv & outer & _ & _ & _ & S & _ & _ & _ & _ & _ & _ & _ & Pv).
  eexists outer, _. cbn. split; [exact S|]. split; [exact Pv|].
  by rewrite Pv, created_length.
Qed.

(** X24. Construction followed by destruction, both returning normally:
    [destroy] shuts down the input handling and then destroys the plugin
    views the constructor created, the newest first (those that have a
    [destroy] hook), before anything else; in the end the view has no
    document view and no plugin views. *)
Theorem construct_then_destroy place props st e0 e1 e2 :
  construct env around place props st e0 = (Ok tt, e1) ->
  destroy env around e1 = (Ok tt, e2) ->
  exists outer inner rest,
    let made :=
      created env
        (core_events (steps e0) ++ [DocViewDesc (doc st) outer inner])
        (factories (items (plugins st))) in
    steps e2
    = steps e1 ++ Dom DestroyInput :: map Core (destroy_calls made) ++ rest
    /\ has_docView e2 = false
    /\ pluginViews (fields e2) = [].
Proof.
  intros H1 H2. apply construct_ok in H1
    as (ed & nv & outer & _ & _ & _ & _ & L & _ & _ & _ & _ & _ & _ & Pv).
  apply destroy_stages in H2
    as (e3 & e4 & e5 & e6 & D1 & D2 & D3 & D4 & ->); [|done].
  apply dom_call_inv in D1 as [-> _].
  apply core_inv in D2 as (w4 & R4 & F4 & _ & M4 & A4 & S4).
  apply destroyPluginViews_ok in R4 as [V4 T4]. cbn in V4, T4.
  specialize (S4 _ T4). cbn in S4. rewrite Pv in S4.
  assert (pluginViews (fields e4) = []) as P4 by (by rewrite F4, V4).
  assert (exists l5, steps e5 = steps e4 ++ l5
                     /\ pluginViews (fields e5) = []) as (l5 & S5 & P5).
  { destruct (mounted e4).
    - apply bind_inv in D3 as [([] & e7 & D3 & D5)|(? & ? & ?)];
        [|discriminate].
      apply core_inv in D3 as (w5 & R5 & F5 & _ & _ & _ & S5).
      cbn in R5. apply tree_call_run in R5 as [T5 (tw & V5)].
      cbn in T5, V5. specialize (S5 _ T5).
      inversion D5; subst e5. cbn. eexists.
      split; [by rewrite S5, <- app_assoc|]. by rewrite F5, V5.
    - destruct (attached e4).
      + apply bind_inv in D3 as [([] & e7 & D3 & D5)|(? & ? & ?)];
          [|discriminate].
        apply dom_call_inv in D3 as [-> _]. inversion D5; subst e5.
        by eexists.
      + inversion D3; subst e5. exists []. by rewrite app_nil_r. }
  apply core_inv in D4 as (w6 & R6 & F6 & _ & _ & _ & S6).
  cbn in R6. apply tree_call_run in R6 as [T6 (tw & V6)]. cbn in T6, V6.
  specialize (S6 _ T6).
  eexists outer, _, _. cbn.
  split. { rewrite S6, S5, S4. cbn. rewrite <- !app_assoc. cbn. reflexivity. }
  split; [done|]. by rewrite F6, V6.
Qed.
End LifeCycle.

Lemma destroy_tears_down_witness :
  exists inner,
    Lifecycle.steps (snd LifeCases.destroyed_run)
    = Lifecycle.steps (snd LifeCases.built_run)
        ++ [Lifecycle.Dom Lifecycle.DestroyInput]
        ++ map Lifecycle.Core
             (destroy_calls
                (pluginViews (Lifecycle.fields (snd LifeCases.built_run))))
        ++ (if Lifecycle.mounted (snd LifeCases.built_run)
            then [Lifecycle.Core
                    (DocViewUpdate
                       (docView (Lifecycle.fields (snd LifeCases.built_run)))
                       (doc (state (Lifecycle.fields
                                      (snd LifeCases.built_run))))
                       [] inner);
                  Lifecycle.Dom Lifecycle.ClearTextContent]
            else if Lifecycle.attached (snd LifeCases.built_run)
                 then [Lifecycle.Dom Lifecycle.RemoveChild] else [])
        ++ [Lifecycle.Core
              (DocViewDestroy
                 (docView (Lifecycle.fields (snd LifeCases.built_run))))]
    /\ Lifecycle.has_docView (snd LifeCases.destroyed_run) = false
    /\ pluginViews (Lifecycle.fields (snd LifeCases.destroyed_run)) = []
    /\ Lifecycle.mounted (snd LifeCases.destroyed_run)
       = Lifecycle.mounted (snd LifeCases.built_run)
    /\ Lifecycle.attached (snd LifeCases.destroyed_run)
       = Lifecycle.attached (snd LifeCases.built_run)
         && Lifecycle.mounted (snd LifeCases.built_run).
Proof.
  apply (destroy_tears_down Fixtures.calm LifeCases.quiet_dom).
  - vm_compute. reflexivity.
  - apply pair_of_fst. vm_compute. reflexivity.
Defined.

Lemma destroy_twice_witness :
  Lifecycle.destroy Fixtures.calm LifeCases.quiet_dom
    (snd LifeCases.destroyed_run)
  = (Ok tt, snd LifeCases.destroyed_run).
Proof.
  apply (destroy_twice Fixtures.calm LifeCases.quiet_dom
           (snd LifeCases.built_run)).
  apply pair_of_fst. vm_compute. reflexivity.
Defined.

Lemma failed_destroy_stays_alive_witness :
  Lifecycle.has_docView (snd LifeCases.stuck_run) = true
  /\ exists r e'',
      Lifecycle.destroy Fixtures.calm LifeCases.stuck_dom
        (snd LifeCases.stuck_run) = (r, e'')
      /\ exists rest,
          Lifecycle.steps e''
          = Lifecycle.steps (snd LifeCases.stuck_run)
              ++ Lifecycle.Dom Lifecycle.DestroyInput :: rest.
Proof.
  apply (failed_destroy_stays_alive Fixtures.calm LifeCases.stuck_dom
           (snd LifeCases.built_run) (Thrown 5)).
  apply pair_of_fst. vm_compute. reflexivity.
Defined.

Lemma construct_view_witness :
  Lifecycle.has_docView (snd LifeCases.built_run) = true
  /\ _props (Lifecycle.fields (snd LifeCases.built_run)) = ∅
  /\ state (Lifecycle.fields (snd LifeCases.built_run))
     = Fixtures.plain_state Cases.viewing_plugins
  /\ getEditable Fixtures.calm
       (Lifecycle.blank ∅ (Fixtures.plain_state Cases.viewing_plugins)
          (Lifecycle.chosen LifeCases.quiet_dom (Some LifeCases.into_node)))
     = Ok (editable (Lifecycle.fields (snd LifeCases.built_run)))
  /\ buildNodeViews
       (Lifecycle.blank ∅ (Fixtures.plain_state Cases.viewing_plugins)
          (Lifecycle.chosen LifeCases.quiet_dom (Some LifeCases.into_node)))
     = Ok (nodeViews (Lifecycle.fields (snd LifeCases.built_run)))
  /\ Lifecycle.mounted (snd LifeCases.built_run)
     = (negb (Lifecycle.place_appendChild LifeCases.into_node)
        && negb (Lifecycle.place_apply LifeCases.into_node)
        && is_set (Lifecycle.place_mount LifeCases.into_node)).
Proof.
  apply (construct_view Fixtures.calm LifeCases.quiet_dom
           (Some LifeCases.into_node) ∅
           (Fixtures.plain_state Cases.viewing_plugins) LifeCases.unbuilt).
  apply pair_of_fst. vm_compute. reflexivity.
Defined.

Lemma construct_creates_plugin_views_witness :
  exists outer inner,
    Lifecycle.steps (snd LifeCases.built_run)
    = Lifecycle.steps LifeCases.unbuilt
        ++ map Lifecycle.Dom (Lifecycle.placing (Some LifeCases.into_node))
        ++ [Lifecycle.Core
              (DocViewDesc (doc (Fixtures.plain_state Cases.viewing_plugins))
                           outer inner);
            Lifecycle.Dom Lifecycle.InitInput]
        ++ map Lifecycle.Core
             (map PluginViewCreate
                (factories (items (plugins (Fixtures.plain_state
                                              Cases.viewing_plugins)))))
    /\ pluginViews (Lifecycle.fields (snd LifeCases.built_run))
       = created Fixtures.calm
           (Lifecycle.core_events (Lifecycle.steps LifeCases.unbuilt)
              ++ [DocViewDesc (doc (Fixtures.plain_state
                                      Cases.viewing_plugins)) outer inner])
           (factories (items (plugins (Fixtures.plain_state
                                         Cases.viewing_plugins))))
    /\ length (pluginViews (Lifecycle.fields (snd LifeCases.built_run)))
       = length (factories (items (plugins (Fixtures.plain_state
                                              Cases.viewing_plugins)))).
Proof.
  apply (construct_creates_plugin_views Fixtures.calm LifeCases.quiet_dom
           (Some LifeCases.into_node) ∅
           (Fixtures.plain_state Cases.viewing_plugins) LifeCases.unbuilt).
  apply pair_of_fst. vm_compute. reflexivity.
Defined.

Lemma construct_then_destroy_witness :
  exists outer inner rest,
    Lifecycle.steps (snd LifeCases.destroyed_run)
    = Lifecycle.steps (snd LifeCases.built_run)
        ++ Lifecycle.Dom Lifecycle.DestroyInput
           :: map Lifecycle.Core
                (destroy_calls
                   (created Fixtures.calm
                      (Lifecycle.core_events (Lifecycle.steps LifeCases.unbuilt)
                         ++ [DocViewDesc
                               (doc (Fixtures.plain_state
                                       Cases.viewing_plugins)) outer inner])
                      (factories (items (plugins (Fixtures.plain_state
                                                    Cases.viewing_plugins))))))
           ++ rest
    /\ Lifecycle.has_docView (snd LifeCases.destroyed_run) = false
    /\ pluginViews (Lifecycle.fields (snd LifeCases.destroyed_run)) = [].
Proof.
  apply (construct_then_destroy Fixtures.calm LifeCases.quiet_dom
           (Some LifeCases.into_node) ∅
           (Fixtures.plain_state Cases.viewing_plugins) LifeCases.unbuilt
           (snd LifeCases.built_run)).
  - apply pair_of_fst. vm_compute. reflexivity.
  - apply pair_of_fst. vm_compute. reflexivity.
Defined.

(** ** Reconfiguring through [updateState] *)

Section Reconfigured.
Variable env : Env.

(** X25. An [updateState] with a state that has another plugin array is a
    reconfiguration. When it returns normally, all old plugin views were
    destroyed (newest first) and one new plugin view was created per
    plugin that has a view factory, in plugin order, after everything the
    update does to the document view and the selection; the last thing
    done is the reset of the scroll position to the top. *)
Theorem updateState_recreates_plugin_views st w w1 :
  same_plugins (state (view w)) st = false ->
  updateState env st w = (Ok tt, w1) ->
  exists before,
    let torn := trace w ++ before ++ destroy_calls (pluginViews (view w)) in
    let fs := factories (items (plugins st)) in
    trace w1 = torn ++ map PluginViewCreate fs ++ [SetScrollTop 0]
    /\ Forall aside before
    /\ In EnsureListeners before
    /\ pluginViews (view w1) = created env torn fs
    /\ scrollTop (view w1) = 0.
Proof.
  intros Hsame H. rewrite updateState_inner, Hsame in H. cbn [negb] in H.
  apply updateStateInner_stages in H
    as (b & w2 & redraw & w3 & decos & w4 & old & w5 & w6 & w7
        & H1 & H2 & H3 & H4 & H5 & H6 & H7).
  edestruct (aside_stages env) as (before & T6 & F6);
    [exact H1|exact H2|exact H3|exact H4|exact H5|].
  assert (In EnsureListeners before) as Hin.
  { apply stopComposition_ok in H1 as (_ & T1 & _).
    pose proof (reconfigure_ok _ _ _ _ _ H2) as (T2 & _ & _). cbn in T2.
    apply refreshDecorations_ok in H3 as (T3 & _).
    apply storeScroll_ok in H4 as (_ & T4 & _).
    assert (exists l, trace w6 = trace w5 ++ l) as (l & T5).
    { destruct (_ || _ || _) in H5.
      - apply resync_ok in H5 as (? & ? & ? & T & _). by eexists.
      - inversion H5; subst. exists []. by rewrite app_nil_r. }
    rewrite T5, T4, T3, T2, T1, <- !app_assoc in T6.
    apply app_inv_head in T6. rewrite <- T6.
    apply in_or_app. right. by left. }
  assert (pluginViews (view w6) = pluginViews (view w)
          /\ state (view w6) = st) as [P6 S6].
  { apply stopComposition_ok in H1 as (_ & _ & V1).
    apply reconfigure_ok in H2 as (_ & _ & nv & V2). cbn in V2.
    apply refreshDecorations_ok in H3 as (_ & (e & c & _ & V3) & _).
    apply storeScroll_ok in H4 as (_ & _ & V4).
    assert (exists dv tw,
               view w6 = set_docView dv (set_trackWrites tw (view w5)))
      as (dv & tw & V5).
    { destruct (_ || _ || _) in H5.
      - apply resync_ok in H5 as (? & ? & ? & ? & ? & ? & ? & ? & ? & Hv).
        exact Hv.
      - inversion H5; subst.
        exists (docView (view w6)), (trackWrites (view w6)).
        by destruct (view w6). }
    rewrite V5, V4, V3, V2. cbn. rewrite V1. by destruct b. }
  assert (same_plugins (state (view w)) (state (view w6)) = false) as Hs
    by (by rewrite S6).
  unfold updatePluginViews in H6. cbn in H6. rewrite Hs in H6. cbn in H6.
  apply bind_inv in H6 as [([] & w8 & H8 & H6)|(? & ? & ?)]; [|discriminate].
  apply destroyPluginViews_ok in H8 as [V8 T8].
  apply create_loop_ok in H6 as [T7 V7].
  rewrite V8 in V7. cbn in V7. rewrite T8, P6, S6, T6 in T7, V7.
  inversion H7; subst w1. cbn.
  exists before. rewrite T7, V7. cbn. rewrite <- !app_assoc.
  by repeat split.
Qed.
End Reconfigured.

Lemma updateState_recreates_plugin_views_witness :
  exists before,
    let torn := trace Cases.three_views ++ before
                ++ destroy_calls (pluginViews (view Cases.three_views)) in
    let fs := factories (items (plugins PluginCases.replugged)) in
    trace (snd PluginCases.replug_run)
    = torn ++ map PluginViewCreate fs ++ [SetScrollTop 0]
    /\ Forall aside before
    /\ In EnsureListeners before
    /\ pluginViews (view (snd PluginCases.replug_run))
       = created Fixtures.calm torn fs
    /\ scrollTop (view (snd PluginCases.replug_run)) = 0.
Proof.
  apply (updateState_recreates_plugin_views Fixtures.calm
           PluginCases.replugged Cases.three_views
           (snd PluginCases.replug_run)).
  - reflexivity.
  - apply pair_of_fst. vm_compute. reflexivity.
Defined.

(** ** The other attributes of the document root *)

Section OtherAttributes.
Variable env : Env.

Lemma addAttribute_settle attrs k x a :
  a <> "class" -> a <> "contenteditable" -> a <> "nodeName" ->
  addAttribute env attrs (k, x) !! a
  = if decide (k = a)
    then (if attr_truthy (attrs !! a) then attrs !! a
          else Some (to_string env x))
    else attrs !! a.
Proof.
  intros Hc He Hn. unfold addAttribute.
  destruct (decide (k = a)) as [->|Hk].
  - destruct (String.eqb_spec a "class") as [?|_]; [done|].
    destruct (String.eqb_spec a "contenteditable") as [?|_]; [done|].
    destruct (String.eqb_spec a "nodeName") as [?|_]; [done|].
    destruct (attr_truthy (attrs !! a)); [done|].
    apply lookup_insert_eq.
  - destruct (String.eqb k "class"); [by rewrite lookup_insert_ne|].
    destruct (_ && _ && _); [|done]. by rewrite lookup_insert_ne.
Qed.

Lemma foldl_addAttribute_settle es a : forall attrs,
  a <> "class" -> a <> "contenteditable" -> a <> "nodeName" ->
  foldl (addAttribute env) attrs es !! a
  = settle (attrs !! a)
      (map (fun e => to_string env (snd e))
           (filter (fun e => fst e = a) es)).
Proof.
  intros attrs Hc He Hn. revert attrs.
  induction es as [|[k x] es IH]; intros attrs; [done|].
  cbn [foldl]. rewrite IH, addAttribute_settle by done.
  destruct (decide (k = a)) as [->|Hk].
  - by rewrite filter_cons_True.
  - by rewrite filter_cons_False.
Qed.

Lemma settle_app cur vs ws :
  settle cur (vs ++ ws) = settle (settle cur vs) ws.
Proof.
  revert cur. induction vs as [|v vs IH]; intros cur; [done|]. apply IH.
Qed.

Lemma mergeAttributes_settle st regs a : forall attrs,
  a <> "class" -> a <> "contenteditable" -> a <> "nodeName" ->
  mergeAttributes env st regs attrs !! a
  = settle (attrs !! a) (attribute_values env st regs a).
Proof.
  intros attrs Hc He Hn. revert attrs.
  induction regs as [|reg regs IH]; intros attrs; [done|].
  rewrite mergeAttributes_cons, IH, foldl_addAttribute_settle by done.
  unfold attribute_values. rewrite map_cons, concat_cons, filter_app, map_app.
  by rewrite settle_app.
Qed.

Lemma settle_set c s vs : settle (Some (String c s)) vs = Some (String c s).
Proof. induction vs as [|v vs IH]; [done|exact IH]. Qed.

Lemma settle_empty vs :
  settle (Some "") vs
  = Some (default "" (head (filter (fun s => s <> "") vs))).
Proof.
  induction vs as [|v vs IH]; [done|]. cbn [settle attr_truthy str_nonempty].
  destruct v as [|c s].
  - rewrite IH. by rewrite filter_cons_False by auto.
  - rewrite settle_set. by rewrite filter_cons_True.
Qed.

(** X26. An attribute of the document root other than [class],
    [contenteditable] and [nodeName]: when no registrant has it, the root
    decoration does not have it; otherwise its value is the first
    non-empty one that a registrant gives for it, in resolution order, and
    the empty string when all of them are empty. *)
Theorem docDeco_first_nonempty (v : View) (a : string) :
  a <> "class" -> a <> "contenteditable" -> a <> "nodeName" ->
  exists attrs,
    computeDocDeco env v
    = Ok [ {| deco_from := 0; deco_to := content_size (doc (state v));
              deco_attrs := attrs |} ]
    /\ attrs !! a
       = match attribute_values env (state v) (registrants v) a with
         | [] => None
         | vs => Some (default "" (head (filter (fun s => s <> "") vs)))
         end.
Proof.
  intros Hc He Hn. eexists. split; [apply computeDocDeco_merge|].
  rewrite mergeAttributes_settle by done.
  assert (initialAttrs env v !! a = None) as ->.
  { unfold initialAttrs. by rewrite !lookup_insert_ne, lookup_empty. }
  destruct (attribute_values _ _ _ _) as [|x vs]; [done|].
  cbn [settle attr_truthy]. destruct x as [|c s].
  - rewrite settle_empty. by rewrite filter_cons_False by auto.
  - rewrite settle_set. by rewrite filter_cons_True.
Qed.
End OtherAttributes.

Lemma docDeco_first_nonempty_witness :
  exists attrs,
    computeDocDeco Fixtures.calm Fixtures.titled_view
    = Ok [ {| deco_from := 0;
              deco_to := content_size (doc (state Fixtures.titled_view));
              deco_attrs := attrs |} ]
    /\ attrs !! "title"
       = match attribute_values Fixtures.calm (state Fixtures.titled_view)
                 (registrants Fixtures.titled_view) "title" with
         | [] => None
         | vs => Some (default "" (head (filter (fun s => s <> "") vs)))
         end.
Proof.
  apply (docDeco_first_nonempty Fixtures.calm Fixtures.titled_view "title");
    discriminate.
Defined.

(** ** Merging the attributes *)

(** C7 (as amended). The attributes of the document-root decoration are the
    attribute registrants merged in resolution order. Class names
    concatenate, each appended after a space. Every other attribute is
    first-wins among non-empty values: once it holds a non-empty value, no
    later registrant changes it, and while it is absent or empty it takes
    the value of the next registrant that gives one, so that in the end it
    holds the first non-empty value given for it (the empty string when
    every value given is empty, nothing when no registrant gives one).
    [contenteditable] and [nodeName] are apart: no registrant sets them. *)
Theorem docDeco_attributes_merge (env : Env) (v : View) :
  exists attrs,
    computeDocDeco env v
    = Ok [ {| deco_from := 0; deco_to := content_size (doc (state v));
              deco_attrs := attrs |} ]
    /\ attrs = mergeAttributes env (state v) (registrants v)
                               (initialAttrs env v)
    /\ attrs !! "class"
       = Some ("ProseMirror"
               +:+ class_suffix (class_values env (state v) (registrants v)))
    /\ (forall earlier later a s,
          registrants v = earlier ++ later ->
          a ≠ "class" ->
          mergeAttributes env (state v) earlier (initialAttrs env v) !! a
          = Some s ->
          s ≠ "" ->
          attrs !! a = Some s)
    /\ (forall earlier reg later a,
          registrants v = earlier ++ reg :: later ->
          a ≠ "class" -> a ≠ "contenteditable" -> a ≠ "nodeName" ->
          attr_truthy
            (mergeAttributes env (state v) earlier (initialAttrs env v) !! a)
          = false ->
          forall x rest,
            attribute_values env (state v) [reg] a = x :: rest ->
            mergeAttributes env (state v) (earlier ++ [reg])
                            (initialAttrs env v) !! a
            = settle (Some x) rest)
    /\ (forall a,
          a ≠ "class" -> a ≠ "contenteditable" -> a ≠ "nodeName" ->
          attrs !! a
          = match attribute_values env (state v) (registrants v) a with
            | [] => None
            | vs => Some (default "" (head (filter (fun s => s <> "") vs)))
            end)
    /\ attrs !! "contenteditable" = Some (if editable v then "true" else "false")
    /\ attrs !! "nodeName" = None.
Proof.
  eexists. split; [apply computeDocDeco_merge|]. split; [done|].
  split; [by apply mergeAttributes_class|].
  split; [|split; [|split; [|split]]].
  - intros earlier later a s Hsplit Ha Hs Hne.
    rewrite Hsplit, mergeAttributes_app.
    by apply mergeAttributes_keep.
  - intros earlier reg later a _ Hc He Hn Hcur x rest Hx.
    rewrite mergeAttributes_app, mergeAttributes_settle, Hx by done.
    cbn [settle]. by rewrite Hcur.
  - intros a Hc He Hn. rewrite mergeAttributes_settle by done.
    assert (initialAttrs env v !! a = None) as ->.
    { unfold initialAttrs. by rewrite !lookup_insert_ne, lookup_empty. }
    destruct (attribute_values _ _ _ _) as [|x vs]; [done|].
    cbn [settle attr_truthy]. destruct x as [|c s].
    + rewrite settle_empty. by rewrite filter_cons_False by auto.
    + rewrite settle_set. by rewrite filter_cons_True.
  - rewrite mergeAttributes_fixed by (by left).
    unfold initialAttrs. rewrite lookup_insert_eq. by destruct (editable v).
  - rewrite mergeAttributes_fixed by (by right).
    unfold initialAttrs. by rewrite !lookup_insert_ne.
Qed.

(** C7, as first stated, fails: an attribute that holds the empty string is
    replaced by a later registrant. *)
Lemma first_wins_fails_on_empty_value :
  ~ (forall (env : Env) (v : View) earlier later a s,
       registrants v = earlier ++ later ->
       a ≠ "class" ->
       mergeAttributes env (state v) earlier (initialAttrs env v) !! a
       = Some s ->
       mergeAttributes env (state v) (registrants v) (initialAttrs env v) !! a
       = Some s).
Proof.
  intros H.
  specialize (H Fixtures.calm Fixtures.titled_view
                [Fixtures.empty_title] [Fixtures.x_title] "title" "").
  assert (Some "x" = Some "") as Habs; [|discriminate Habs].
  apply H; [reflexivity|discriminate|reflexivity].
Qed.

(** ** What exactly forces the selection and what scrolls *)

Section Exact.
Variable env : Env.

(** The flag [updateDocView] returns: the one it was given, or [true]
    when, on Chrome, there was a focus node and the tree code wrote to
    it. *)
Lemma updateDocView_force st redraw outer inner force w f' w1 patch :
  updateDocView env st redraw outer inner force w = (Ok f', w1) ->
  trace w1 = trace w ++ patch ->
  f' = force
       || (browser_chrome env && is_set (focusNode env (trace w))
           && wrote_tracked env (trace w) patch).
Proof.
  unfold updateDocView, tree_call. intros H T.
  run_in H; inversion H; subst; clear H; cbn in T;
    rewrite <- ?app_assoc in T; apply app_inv_head in T; subst patch; cbn;
    rewrite <- ?app_assoc; cbn;
    repeat match goal with
           | E : writes_tracked _ _ = _ |- _ =>
               rewrite <- ?app_assoc in E; cbn in E; rewrite E; clear E
           end;
    cbn; rewrite ?orb_false_r, ?orb_true_r, ?andb_false_r, ?andb_true_r;
    try done;
    destruct (focusNode env (trace w)); cbn in *; try discriminate;
    rewrite ?orb_false_r, ?orb_true_r; try done;
    match goal with b : bool |- _ => by destruct b end.
Qed.

Lemma resync_exact st prev redraw updateDoc outer inner w w1 :
  resync env st prev redraw updateDoc outer inner w = (Ok tt, w1) ->
  exists patch selw force,
    trace w1 = trace w ++ ObserverStop :: patch ++ selw ++ [ObserverStart]
    /\ (if updateDoc
        then patch_shape env (trace w ++ [ObserverStop]) (docView (view w))
                         (doc st) outer inner redraw patch
        else patch = [])
    /\ selection_shape st force selw
    /\ (In (DocViewDesc (doc st) outer inner) patch ->
        docView (view w1)
        = new_docView env ((trace w ++ [ObserverStop]) ++ patch))
    /\ force
       = contextForcesUpdate env updateDoc (composing (view w)) prev st
         || (updateDoc && browser_chrome env
             && is_set (focusNode env (trace w ++ [ObserverStop]))
             && wrote_tracked env (trace w ++ [ObserverStop]) patch)
    /\ exists dv tw, view w1 = set_docView dv (set_trackWrites tw (view w)).
Proof.
  unfold resync. intros H.
  apply bind_inv in H as [([] & w2 & H1 & H)|(? & ? & ?)]; [|discriminate].
  apply call_ok in H1 as [T1 V1].
  cbn in H.
  apply bind_inv in H as [(force & w3 & H2 & H)|(? & ? & ?)]; [|discriminate].
  apply bind_inv in H as [([] & w4 & H3 & H)|(? & ? & ?)]; [|discriminate].
  apply writeSelection_ok in H3 as (selw & T3 & S3 & V3).
  apply call_ok in H as [T4 V4].
  rewrite V1 in H2.
  destruct updateDoc.
  - pose proof H2 as H2'.
    apply updateDocView_ok in H2
      as (patch & T2 & P2 & _ & _ & D2 & dv & tw & V2).
    apply (updateDocView_force _ _ _ _ _ _ _ _ patch) in H2'; [|done].
    rewrite T1, V1 in P2. rewrite T1 in H2'.
    exists patch, selw, force. rewrite T4, T3, T2, T1.
    rewrite <- !app_assoc. split; [done|]. split; [done|]. split; [done|].
    split. { intros Hin. rewrite V4, V3, (D2 Hin), T2, T1.
             by rewrite <- !app_assoc. }
    split; [done|].
    exists dv, tw. by rewrite V4, V3, V2, V1.
  - inversion H2; subst.
    exists [], selw, false. rewrite T4, T3, T1.
    rewrite <- !app_assoc. split; [done|]. split; [done|]. split; [done|].
    split; [by intros []|]. split; [done|].
    exists (docView (view w)), (trackWrites (view w)).
    rewrite V4, V3, V1. by destruct (view w).
Qed.

(** The handlers of a scroll that returned normally. *)
Lemma handlers_run cs w r w1 :
  resolve (Some (callHandler env)) cs w = (Ok r, w1) ->
  exists calls,
    ask_handlers env (trace w) cs = Some (calls, truthy r)
    /\ trace w1 = trace w ++ calls.
Proof.
  revert w. induction cs as [|c cs IH]; intros w H.
  - inversion H; subst. exists []. by rewrite app_nil_r.
  - cbn [resolve ask_handlers] in *. destruct (nullish c); [by apply IH|].
    apply bind_inv in H as [(r0 & w2 & H1 & H)|(? & ? & ?)]; [|discriminate].
    destruct c; try discriminate H1. cbn in H1.
    apply bind_inv in H1 as [([] & w3 & H1 & H2)|(? & ? & ?)];
      [|discriminate].
    apply call_ok in H1 as [T1 V1]. inversion H2; subst. rewrite <- T1.
    destruct (truthy (handler_result env (trace w2))) eqn:Ht.
    + inversion H; subst. exists [CallHandler ref]. by rewrite Ht.
    + apply IH in H as (calls & -> & T).
      exists (CallHandler ref :: calls). rewrite T, T1, <- app_assoc.
      done.
Qed.

Lemma scrollAfterUpdate_asks old st w w1 :
  scrollAfterUpdate env ScrollToSelection old st w = (Ok tt, w1) ->
  exists calls handled,
    ask_handlers env (trace w)
      (candidates (_props (view w)) (items (plugins (state (view w))))
                  "handleScrollToSelection")
    = Some (calls, handled)
    /\ trace w1
       = trace w ++ calls
           ++ (if handled then []
               else [ScrollRectIntoView
                       (if sel_isNode (selection st)
                        then domAfterPos_rect env (trace w ++ calls)
                                              (sel_from (selection st))
                        else coordsAtPos env (trace w ++ calls)
                                         (sel_head (selection st)))
                       (focusNode env (trace w))]).
Proof.
  unfold scrollAfterUpdate. intros H. cbn in H.
  apply bind_inv in H as [(r & w2 & H1 & H)|(? & ? & ?)]; [|discriminate].
  rewrite someProp_resolve in H1.
  apply handlers_run in H1 as (calls & Ha & T).
  exists calls, (truthy r). split; [done|].
  destruct (truthy r).
  - inversion H; subst. by rewrite app_nil_r.
  - cbn in H. rewrite T in H.
    destruct (sel_isNode (selection st));
      apply call_ok in H as [T2 _]; by rewrite T2, T, <- app_assoc.
Qed.
(** The trace and the view after an update that returned normally, with
    what exactly forced the selection write and what the handlers of a
    scroll were asked. *)
Lemma updateStateInner_exact st reconfigured w w1 :
  updateStateInner env st reconfigured w = (Ok tt, w1) ->
  exists (cleared redraw updateDoc updateSel stored : bool)
         (outer : list NodeDeco) (inner : InnerDeco)
         (pre sync pvs scr : list Event),
    cleared = is_set (storedMarks st) && composing (view w)
    /\ pre = (if cleared then [ClearComposition] else [])
             ++ (if reconfigured then [EnsureListeners] else [])
    /\ updateDoc
       = redraw || negb (matchesNode env (trace w ++ pre) (docView (view w))
                                     (doc st) outer inner)
    /\ updateSel
       = cleared || updateDoc
         || negb (sel_eq env (selection st) (selection (state (view w))))
    /\ stored
       = is_preserve (scrollMode reconfigured st (state (view w)))
         && updateSel && negb (is_set (overflowAnchor (view w)))
    /\ trace w1
       = trace w ++ pre ++ (if stored then [StoreScrollPos] else [])
                 ++ sync ++ pvs ++ scr
    /\ (redraw = true -> reconfigured = true)
    /\ (if updateSel
        then exists patch selw force,
            sync = ObserverStop :: patch ++ selw ++ [ObserverStart]
            /\ (if updateDoc
                then patch_shape env
                       (((trace w ++ pre)
                         ++ (if stored then [StoreScrollPos] else []))
                        ++ [ObserverStop])
                       (docView (view w)) (doc st) outer inner redraw patch
                else patch = [])
            /\ selection_shape st force selw
            /\ (contextForcesUpdate env updateDoc
                  (composing (view w) && negb cleared) (state (view w)) st
                = true -> force = true)
            /\ (force = true ->
                contextForcesUpdate env updateDoc
                  (composing (view w) && negb cleared) (state (view w)) st
                = true
                \/ (updateDoc = true /\ browser_chrome env = true))
            /\ (In (DocViewDesc (doc st) outer inner) patch ->
                docView (view w1)
                = new_docView env
                    ((((trace w ++ pre)
                       ++ (if stored then [StoreScrollPos] else []))
                      ++ [ObserverStop]) ++ patch))
            /\ force
               = contextForcesUpdate env updateDoc
                   (composing (view w) && negb cleared) (state (view w)) st
                 || (updateDoc && browser_chrome env
                     && is_set (focusNode env
                                  (((trace w ++ pre)
                                    ++ (if stored then [StoreScrollPos]
                                        else []))
                                   ++ [ObserverStop]))
                     && wrote_tracked env
                          (((trace w ++ pre)
                            ++ (if stored then [StoreScrollPos] else []))
                           ++ [ObserverStop]) patch)
        else sync = [])
    /\ Forall plugin_view_event pvs
    /\ scroll_shape env st (scrollMode reconfigured st (state (view w)))
         (if stored
          then Some (new_scrollPos env ((trace w ++ pre) ++ [StoreScrollPos]))
          else None)
         ((((trace w ++ pre) ++ (if stored then [StoreScrollPos] else []))
           ++ sync) ++ pvs) scr
    /\ state (view w1) = st
    /\ composing (view w1) = composing (view w) && negb cleared
    /\ (reconfigured = true -> scrollTop (view w1) = 0)
    /\ (scrollMode reconfigured st (state (view w)) = ScrollToSelection ->
        exists calls handled,
          ask_handlers env
            ((((trace w ++ pre) ++ (if stored then [StoreScrollPos] else []))
              ++ sync) ++ pvs)
            (candidates (_props (view w)) (items (plugins st))
                        "handleScrollToSelection")
          = Some (calls, handled)
          /\ scr
             = calls
               ++ (if handled then []
                   else [ScrollRectIntoView
                           (if sel_isNode (selection st)
                            then domAfterPos_rect env
                                   (((((trace w ++ pre)
                                       ++ (if stored then [StoreScrollPos]
                                           else []))
                                      ++ sync) ++ pvs) ++ calls)
                                   (sel_from (selection st))
                            else coordsAtPos env
                                   (((((trace w ++ pre)
                                       ++ (if stored then [StoreScrollPos]
                                           else []))
                                      ++ sync) ++ pvs) ++ calls)
                                   (sel_head (selection st)))
                           (focusNode env
                              ((((trace w ++ pre)
                                 ++ (if stored then [StoreScrollPos] else []))
                                ++ sync) ++ pvs))])).
Proof.
  unfold updateStateInner. intros H. cbn in H.
  apply bind_inv in H as [(b & w2 & H1 & H)|(? & ? & ?)]; [|discriminate].
  apply stopComposition_ok in H1 as (-> & T1 & V1).
  cbn in H.
  apply bind_inv in H as [(redraw & w3 & H2 & H)|(? & ? & ?)];
    [|discriminate].
  apply reconfigure_ok in H2 as (T2 & R2 & nv & V2).
  apply bind_inv in H as [([inner outer] & w4 & H3 & H)|(? & ? & ?)];
    [|discriminate].
  apply refreshDecorations_ok in H3 as (T3 & (e & c & _ & V3) & I3 & O3).
  cbn in H.
  apply bind_inv in H as [(old & w5 & H4 & H)|(? & ? & ?)]; [|discriminate].
  apply storeScroll_ok in H4 as (-> & T4 & V4).
  apply bind_inv in H as [([] & w6 & H5 & H)|(? & ? & ?)]; [|discriminate].
  apply bind_inv in H as [([] & w7 & H6 & H)|(? & ? & ?)]; [|discriminate].
  pose proof (only_updatePluginViews env _ _ _ _ H6) as (pvs & T6 & F6).
  pose proof (keeps_updatePluginViews env _ _ _ _ H6) as (S6 & C6 & D6).
  pose proof (keeps_scrollAfterUpdate env _ _ _ _ _ _ H) as (S7 & C7 & D7).
  assert (_props (view w7) = _props (view w6)) as P6.
  { revert H6. by apply preserves_updatePluginViews. }
  pose proof H as H7.
  apply scrollAfterUpdate_ok in H as (scr & T7 & Sh7 & Z7).
  assert (scrollMode reconfigured st (state (view w)) = ScrollToSelection ->
          exists calls handled,
            ask_handlers env (trace w7)
              (candidates (_props (view w6)) (items (plugins (state (view w6))))
                          "handleScrollToSelection")
            = Some (calls, handled)
            /\ scr
               = calls
                 ++ (if handled then []
                     else [ScrollRectIntoView
                             (if sel_isNode (selection st)
                              then domAfterPos_rect env (trace w7 ++ calls)
                                     (sel_from (selection st))
                              else coordsAtPos env (trace w7 ++ calls)
                                     (sel_head (selection st)))
                             (focusNode env (trace w7))])) as A7.
  { intros Hmode. rewrite Hmode in H7.
    apply scrollAfterUpdate_asks in H7 as (calls & handled & Ha & T7').
    rewrite S6, P6 in Ha. exists calls, handled. split; [done|].
    rewrite T7 in T7'. by apply app_inv_head in T7'. }
  clear H7.
  assert (trace w4 = trace w
            ++ (if is_set (storedMarks st) && composing (view w)
                then [ClearComposition] else [])
            ++ (if reconfigured then [EnsureListeners] else [])) as E4.
  { rewrite T3, T2. cbn. by rewrite T1, <- app_assoc. }
  assert (docView (view w4) = docView (view w)
          /\ overflowAnchor (view w4) = overflowAnchor (view w)
          /\ state (view w4) = st
          /\ _props (view w4) = _props (view w)
          /\ composing (view w4)
             = composing (view w)
               && negb (is_set (storedMarks st) && composing (view w)))
    as (Edv & Eoa & Est & Epr & Eco).
  { rewrite V3, V2. cbn. rewrite V1.
    destruct (is_set (storedMarks st)), (composing (view w)) eqn:Ec;
      cbn; rewrite ?Ec; done. }
  rewrite E4, Edv in T4, H5, Sh7. rewrite Eoa in T4, Sh7.
  set (cleared := is_set (storedMarks st) && composing (view w)) in *.
  set (pre := (if cleared then [ClearComposition] else [])
              ++ (if reconfigured then [EnsureListeners] else [])) in *.
  set (updateDoc := redraw || negb (matchesNode env (trace w ++ pre)
                      (docView (view w)) (doc st) outer inner)) in *.
  set (updateSel := cleared || updateDoc
         || negb (sel_eq env (selection st) (selection (state (view w)))))
    in *.
  set (stored := is_preserve (scrollMode reconfigured st (state (view w)))
                 && updateSel && negb (is_set (overflowAnchor (view w))))
    in *.
  exists cleared, redraw, updateDoc, updateSel, stored, outer, inner, pre.
  assert (reconfigured = true -> scrollTop (view w1) = 0) as Z.
  { intros ->. by apply Z7. }
  assert (pre = (if cleared then [ClearComposition] else [])
                ++ (if reconfigured then [EnsureListeners] else []))
    as Epre by reflexivity.
  assert (updateDoc
          = redraw || negb (matchesNode env (trace w ++ pre)
                              (docView (view w)) (doc st) outer inner))
    as Edoc by reflexivity.
  assert (updateSel
          = cleared || updateDoc
            || negb (sel_eq env (selection st) (selection (state (view w)))))
    as Esel by reflexivity.
  assert (stored
          = is_preserve (scrollMode reconfigured st (state (view w)))
            && updateSel && negb (is_set (overflowAnchor (view w))))
    as Esto by reflexivity.
  clearbody stored updateSel updateDoc pre cleared.
  destruct updateSel.
  - apply resync_exact in H5
      as (patch & selw & force & T5 & P5 & S5 & D5 & F5 & dv & tw & V5).
    rewrite T4, V4, Edv in P5. rewrite V4, Eco, T4 in F5.
    rewrite T4 in D5.
    exists (ObserverStop :: patch ++ selw ++ [ObserverStart]), pvs, scr.
    do 5 (split; [first [reflexivity|assumption]|]).
    split. { by rewrite T7, T6, T5, T4, <- !app_assoc. }
    split; [done|].
    split.
    { exists patch, selw, force. split; [done|]. split; [done|].
      split; [done|]. split; [by rewrite F5; intros ->|].
      split.
      { rewrite F5. intros Hf. apply orb_true_iff in Hf as [?|Hf]; [by left|].
        right. apply andb_true_iff in Hf as [Hf _].
        apply andb_true_iff in Hf as [Hf _].
        by apply andb_true_iff in Hf. }
      split; [|done]. intros Hin. by rewrite D7, D6, (D5 Hin). }
    split; [done|]. split. { by rewrite T6, T5, T4 in Sh7. }
    split. { by rewrite S7, S6, V5, <- Est, <- V4. }
    split. { by rewrite C7, C6, V5, <- Eco, <- V4. }
    split; [done|].
    intros Hmode. destruct (A7 Hmode) as (calls & handled & Ha & Hs).
    exists calls, handled.
    rewrite T6, T5, T4 in Ha, Hs.
    assert (_props (view w6) = _props (view w)
            /\ state (view w6) = st) as [E1 E2]
      by (by rewrite V5, V4, <- Epr, <- Est).
    by rewrite E1, E2 in Ha.
  - inversion H5; subst w6.
    exists [], pvs, scr.
    do 5 (split; [first [reflexivity|assumption]|]).
    split. { by rewrite T7, T6, T4, <- !app_assoc. }
    split; [done|]. split; [done|]. split; [done|].
    split. { rewrite T6, T4 in Sh7. by rewrite app_nil_r. }
    split. { by rewrite S7, S6, V4. }
    split. { by rewrite C7, C6, V4. }
    split; [done|].
    intros Hmode. destruct (A7 Hmode) as (calls & handled & Ha & Hs).
    exists calls, handled.
    rewrite T6, T4 in Ha, Hs. rewrite V4, Epr, Est in Ha.
    by rewrite !app_nil_r.
Qed.
End Exact.

(** ** Scroll resolution *)

Section ScrollResolution.
Variable env : Env.

(** C6. After an update that returns normally, scrolling is resolved last
    (after the plugin views were notified), as follows. On a
    reconfiguration the mode is "reset": [scrollTop] is set to 0.
    Otherwise, when the scroll-to-selection counter of the new state
    exceeds that of the previous one, the mode is "to selection": the
    [handleScrollToSelection] handlers of the direct props and of the
    plugins of the new state are called in order, up to the first that
    returns a truthy value; when there is one, nothing else is done, and
    when there is none the selection is scrolled into view (the node's
    rectangle for a node selection, the coordinates of the head
    otherwise). Otherwise the mode is "preserve": the scroll position that
    was stored before the update, if one was, is restored. *)
Theorem scroll_resolution st reconfigured w w1 :
  updateStateInner env st reconfigured w = (Ok tt, w1) ->
  exists body scr,
    trace w1 = trace w ++ body ++ scr
    /\ Forall (fun ev => segment_of ev ≠ Scrolling) body
    /\ (reconfigured = true ->
        scr = [SetScrollTop 0] /\ scrollTop (view w1) = 0)
    /\ (reconfigured = false ->
        scrollToSelection (state (view w)) < scrollToSelection st ->
        exists calls handled,
          ask_handlers env (trace w ++ body)
            (candidates (_props (view w)) (items (plugins st))
                        "handleScrollToSelection")
          = Some (calls, handled)
          /\ scr
             = calls
               ++ (if handled then []
                   else [ScrollRectIntoView
                           (if sel_isNode (selection st)
                            then domAfterPos_rect env
                                   (trace w ++ body ++ calls)
                                   (sel_from (selection st))
                            else coordsAtPos env
                                   (trace w ++ body ++ calls)
                                   (sel_head (selection st)))
                           (focusNode env (trace w ++ body))]))
    /\ (reconfigured = false ->
        scrollToSelection st <= scrollToSelection (state (view w)) ->
        (forall a b, body = a ++ StoreScrollPos :: b ->
           scr = [ResetScrollPos
                    (new_scrollPos env (trace w ++ a ++ [StoreScrollPos]))])
        /\ (~ In StoreScrollPos body -> scr = [])).
Proof.
  intros H. apply updateStateInner_exact in H.
  destruct H as (cleared & redraw & updateDoc & updateSel & stored & outer
                 & inner & pre & sync & pvs & scr & _ & Epre & _ & _ & _
                 & T & _ & Hsync & Hpvs & Hscr & _ & _ & Z & Hask).
  apply plugin_events_segment in Hpvs.
  assert (Forall (fun ev => segment_of ev = Prelude
                            /\ ev ≠ StoreScrollPos) pre) as Hpre.
  { rewrite Epre. clear. destruct cleared, reconfigured; cbn;
      repeat first [apply Forall_nil_2|apply Forall_cons_2; [done|]]. }
  assert (Forall (fun ev => (segment_of ev = Observer
                             \/ segment_of ev = Tree
                             \/ segment_of ev = SelectionSync)) sync)
    as Hs.
  { destruct updateSel; [|subst sync; constructor].
    destruct Hsync as (patch & selw & force & Es & Hp & Hsel & _).
    assert (all_in Tree patch) as Hp'.
    { destruct updateDoc; [by eapply patch_shape_segment|].
      subst patch. constructor. }
    apply selection_shape_segment in Hsel.
    exact (sync_segments _ _ _ Es Hp' Hsel). }
  clear Hsync Epre.
  set (body := pre ++ (if stored then [StoreScrollPos] else [])
                   ++ sync ++ pvs).
  assert (((((trace w ++ pre) ++ (if stored then [StoreScrollPos] else []))
            ++ sync) ++ pvs) = trace w ++ body) as Ebody.
  { subst body. by rewrite <- !app_assoc. }
  rewrite Ebody in Hscr, Hask.
  exists body, scr.
  split. { rewrite T. subst body. by rewrite <- !app_assoc. }
  split.
  { apply Forall_app_2.
    { eapply Forall_impl; [exact Hpre|]. intros ev [Hev _]. congruence. }
    apply Forall_app_2; [destruct stored; by repeat constructor|].
    apply Forall_app_2.
    { eapply Forall_impl; [exact Hs|]. intros ev [?|[?|?]]; congruence. }
    eapply Forall_impl; [exact Hpvs|]. intros ev Hev. congruence. }
  unfold scrollMode in Hscr.
  split; [|split].
  - intros ->. split; [exact Hscr|by apply Z].
  - intros -> Hlt. apply Z.ltb_lt in Hlt. cbn in Hask. rewrite Hlt in Hask.
    destruct (Hask eq_refl) as (calls & handled & Ha & Hcalls).
    exists calls, handled. split; [done|].
    by rewrite !(app_assoc (trace w) body).
  - intros -> Hle. apply Z.ltb_ge in Hle. rewrite Hle in Hscr. cbn in Hscr.
    assert (Forall (fun ev => ~ ev = StoreScrollPos) pre) as F1.
    { eapply Forall_impl; [exact Hpre|]. by intros ev [_ Hn]. }
    assert (Forall (fun ev => ~ ev = StoreScrollPos) (sync ++ pvs)) as F2.
    { apply Forall_app_2.
      - eapply Forall_impl; [exact Hs|].
        intros ev Hev ->. simpl in Hev. destruct Hev as [?|[?|?]]; discriminate.
      - eapply Forall_impl; [exact Hpvs|]. by intros ev Hev ->. }
    subst body. destruct stored.
    + split.
      * intros a b E. symmetry in E.
        apply (split_at_unique (fun ev => ev = StoreScrollPos)) in E
          as (-> & _ & _); [|done..].
        by rewrite Hscr, app_assoc.
      * intros Hn. exfalso. apply Hn.
        apply in_or_app. right. by left.
    + split; [|done].
      intros a b E. exfalso. symmetry in E.
      eapply (no_split (fun ev => ev = StoreScrollPos)); [| |exact E];
        [|reflexivity].
      by apply Forall_app_2.
Qed.
End ScrollResolution.

Lemma scrolling_run_trace :
  fst Fixtures.scrolling_run = Ok tt
  /\ trace (snd Fixtures.scrolling_run) = [CallHandler 7; CallHandler 8].
Proof. split; vm_compute; reflexivity. Qed.

Lemma scroll_resolution_witness :
  exists body,
    trace (snd Fixtures.scrolling_run)
    = trace Fixtures.handler_world ++ body ++ [CallHandler 7; CallHandler 8]
    /\ Forall (fun ev => segment_of ev ≠ Scrolling) body
    /\ ask_handlers Fixtures.handling (trace Fixtures.handler_world ++ body)
         [VFun 7; VFun 8; VFun 9]
       = Some ([CallHandler 7; CallHandler 8], true).
Proof.
  destruct (scroll_resolution Fixtures.handling Fixtures.scrolling_state
              false Fixtures.handler_world (snd Fixtures.scrolling_run)
              (pair_of_fst _ _ (proj1 scrolling_run_trace)))
    as (body & scr & T & F & _ & Hsel & _).
  destruct (Hsel eq_refl ltac:(reflexivity)) as (calls & handled & Ha & Hs).
  rewrite (proj2 scrolling_run_trace) in T. cbn in T.
  destruct body as [|ev body].
  2:{ exfalso. inversion F as [|? ? Hev F']; subst.
      destruct body as [|ev' body]; cbn in T; inversion T; subst;
        first [by apply Hev | inversion F'; subst; tauto]. }
  cbn in T, Ha. inversion Ha; subst calls handled.
  exists []. by repeat split.
Defined.

(** ** The forced selection update *)

(** Turns membership in a list of one segment into the segment of the
    event. *)
Ltac seg_in H :=
  match type of H with
  | In _ ?l =>
      match goal with
      | Hl : all_in _ l |- _ => apply (all_in_In _ _ _ Hl) in H
      end
  end.

Lemma In_sync ev patch selw :
  In ev (ObserverStop :: patch ++ selw ++ [ObserverStart])
  <-> ev = ObserverStop \/ In ev patch \/ In ev selw \/ ev = ObserverStart.
Proof.
  cbn. rewrite !in_app_iff. cbn. intuition congruence.
Qed.

Lemma move_selection_trace :
  fst Fixtures.move_selection_run = Ok tt
  /\ trace (snd Fixtures.move_selection_run)
     = [ StoreScrollPos; ObserverStop;
         DocViewUpdate (DocViewRef 0) {| node_ref := 1; content_size := 10 |}
                       Fixtures.plain_outer (InnerDecoRef 0);
         SelectionToDOM true; ObserverStart;
         ResetScrollPos (ScrollPosRef 1) ].
Proof. split; vm_compute; reflexivity. Qed.

Section ForcedSelection.
Variable env : Env.

(** C8 (as amended). In an update that patches the document view, on
    Internet Explorer or Chrome, with no composition active and neither
    the old nor the new selection empty: the selection is written with
    [force] exactly when [selectionContextChanged] fires or, on Chrome,
    the focus node of the DOM selection was recorded in [trackWrites]
    before the tree calls and one of them wrote to it. The detector fires
    when the node at the smaller of the two selections' shared depths
    starts at a different position for the old and for the new anchor. So
    the write is forced whenever the detector fires, and on Internet
    Explorer only then. The tree calls [patch] are the ones between the
    pause of the observer and the selection write. *)
Theorem forced_selection_update st reconfigured w w1 evs :
  updateStateInner env st reconfigured w = (Ok tt, w1) ->
  trace w1 = trace w ++ evs ->
  (exists ev, In ev evs /\ tree_mutation ev = true) ->
  browser_ie env || browser_chrome env = true ->
  composing (view w) = false ->
  sel_empty (selection (state (view w))) = false ->
  sel_empty (selection st) = false ->
  let old := selection (state (view w)) in
  let new := selection st in
  let depth := Nat.min (sel_sharedDepth old) (sel_sharedDepth new) in
  (sel_anchorStart old depth ≠ sel_anchorStart new depth ->
   In (SelectionToDOM true) evs)
  /\ (browser_chrome env = false ->
      In (SelectionToDOM true) evs ->
      sel_anchorStart old depth ≠ sel_anchorStart new depth)
  /\ exists before patch after,
      evs = before ++ ObserverStop :: patch ++ after
      /\ Forall (fun ev => tree_mutation ev = false) before
      /\ Forall (fun ev => tree_mutation ev = true) patch
      /\ Forall (fun ev => tree_mutation ev = false) after
      /\ (In (SelectionToDOM true) evs <->
          sel_anchorStart old depth ≠ sel_anchorStart new depth
          \/ (browser_chrome env = true
              /\ is_set (focusNode env (trace w ++ before ++ [ObserverStop]))
                 = true
              /\ wrote_tracked env (trace w ++ before ++ [ObserverStop])
                               patch = true)).
Proof.
  intros H E (ev & Hin & Hev) Hbrowser Hcomp Hold Hnew old new depth.
  apply updateStateInner_exact in H.
  destruct H as (cleared & redraw & updateDoc & updateSel & stored & outer
                 & inner & pre & sync & pvs & scr & Ecl & Epre & _ & _ & _
                 & T & _ & Hsync & Hpvs & Hscr & _).
  apply plugin_events_segment in Hpvs.
  apply scroll_shape_segment in Hscr.
  rewrite E in T. apply app_inv_head in T. subst evs.
  assert (all_in Prelude (pre ++ (if stored then [StoreScrollPos] else [])))
    as Hpre.
  { rewrite Epre. clear. destruct cleared, reconfigured, stored; cbn;
      by repeat constructor. }
  rewrite Hcomp, andb_false_r in Ecl. subst cleared.
  rewrite app_assoc in Hin |- *.
  set (prelude := pre ++ (if stored then [StoreScrollPos] else [])) in *.
  clear Epre.
  rewrite !in_app_iff in Hin.
  destruct updateSel.
  2:{ subst sync. exfalso.
      destruct Hin as [Hin|[[]|[Hin|Hin]]]; seg_in Hin;
        destruct ev; discriminate. }
  destruct Hsync
    as (patch & selw & force & -> & Hpatch & Hsel & _ & _ & _ & F).
  pose proof (selection_shape_segment _ _ _ Hsel) as Hselw.
  rewrite In_sync in Hin.
  destruct updateDoc.
  2:{ subst patch. exfalso.
      destruct Hin as [Hin|[[Hin|[[]|[Hin|Hin]]]|[Hin|Hin]]];
        try seg_in Hin; subst;
        first [discriminate|destruct ev; discriminate]. }
  apply patch_shape_segment in Hpatch.
  unfold contextForcesUpdate in F.
  rewrite Hbrowser, Hcomp, Hold, Hnew in F. cbn in F.
  unfold selectionContextChanged in F.
  fold old new depth in F.
  assert (In (SelectionToDOM true)
             (prelude ++ (ObserverStop :: patch ++ selw ++ [ObserverStart])
                      ++ pvs ++ scr)
          <-> force = true) as Hforce.
  { rewrite !in_app_iff, In_sync. split.
    - intros [Hi|[[Hi|[Hi|[Hi|Hi]]]|[Hi|Hi]]];
        try (seg_in Hi; discriminate); try discriminate.
      destruct Hsel as [->|[_ ->]].
      + destruct Hi as [Hi|[]]. by inversion Hi.
      + destruct Hi as [Hi|[Hi|[]]]; discriminate.
    - intros ->. right. left. right. right. left.
      destruct Hsel as [->|[? _]]; [by left|discriminate]. }
  assert (force = true
          <-> sel_anchorStart old depth ≠ sel_anchorStart new depth
              \/ (browser_chrome env = true
                  /\ is_set (focusNode env
                               (trace w ++ prelude ++ [ObserverStop])) = true
                  /\ wrote_tracked env (trace w ++ prelude ++ [ObserverStop])
                                   patch = true)) as Hexact.
  { rewrite F, orb_true_iff, !andb_true_iff, negb_true_iff, Z.eqb_neq.
    unfold prelude. rewrite <- !app_assoc. tauto. }
  rewrite Hforce, Hexact. split; [tauto|]. split.
  { intros Hc [?|[Hc' _]]; [done|congruence]. }
  exists prelude, patch, (selw ++ [ObserverStart] ++ pvs ++ scr).
  split. { f_equal. cbn [app]. by rewrite <- !app_assoc. }
  split. { eapply Forall_impl; [exact Hpre|]. by intros []. }
  split. { eapply Forall_impl; [exact Hpatch|]. by intros []. }
  split; [|by rewrite Hforce].
  apply Forall_app_2.
  { eapply Forall_impl; [exact Hselw|]. by intros []. }
  apply Forall_cons_2; [done|]. apply Forall_app_2.
  - eapply Forall_impl; [exact Hpvs|]. by intros [].
  - eapply Forall_impl; [exact Hscr|]. by intros [].
Qed.
End ForcedSelection.

(** C8, as first stated, fails: the detector does not compare the shared
    depths. Moving a selection from one paragraph to the next keeps the
    shared depth (1 and 1) and still forces the selection update, because
    the two paragraphs start at different positions. *)
Lemma forced_update_with_equal_depths :
  ~ (forall (env : Env) st reconfigured w w1 evs,
       updateStateInner env st reconfigured w = (Ok tt, w1) ->
       trace w1 = trace w ++ evs ->
       (exists ev, In ev evs /\ tree_mutation ev = true) ->
       browser_ie env || browser_chrome env = true ->
       composing (view w) = false ->
       sel_empty (selection (state (view w))) = false ->
       sel_empty (selection st) = false ->
       (In (SelectionToDOM true) evs <->
        sel_sharedDepth (selection (state (view w)))
        ≠ sel_sharedDepth (selection st))).
Proof.
  intros H. destruct move_selection_trace as [Hr Ht].
  specialize (H Fixtures.ie_patching
                (Fixtures.two_paragraphs (Fixtures.text_selection 6 8 6))
                false Fixtures.first_paragraph_world
                (snd Fixtures.move_selection_run)
                (trace (snd Fixtures.move_selection_run))
                (pair_of_fst _ _ Hr) eq_refl).
  rewrite Ht in H.
  destruct H as [H _]; try reflexivity.
  - eexists. split; [right; right; left; reflexivity|reflexivity].
  - apply H; [|reflexivity]. right. right. right. by left.
Qed.

Lemma forced_selection_update_witness :
  In (SelectionToDOM true) (trace (snd Fixtures.move_selection_run)).
Proof.
  destruct (forced_selection_update Fixtures.ie_patching
              (Fixtures.two_paragraphs (Fixtures.text_selection 6 8 6))
              false Fixtures.first_paragraph_world
              (snd Fixtures.move_selection_run)
              (trace (snd Fixtures.move_selection_run))
              (pair_of_fst _ _ (proj1 move_selection_trace)) eq_refl)
    as [H _]; try reflexivity.
  - rewrite (proj2 move_selection_trace).
    eexists. split; [right; right; left; reflexivity|reflexivity].
  - apply H. vm_compute. discriminate.
Defined.

(** ** A failed patch is followed by a rebuild *)




Section Rebuilds.
Variable env : Env.









End Rebuilds.



(** The rebuild that throws: the update ends with the error of
    [docViewDesc], right after that call. *)
Lemma failed_rebuild_trace :
  fst Fixtures.failed_rebuild_run = Throw (Thrown 2)
  /\ trace (snd Fixtures.failed_rebuild_run)
     = [ StoreScrollPos; ObserverStop;
         DocViewUpdate (DocViewRef 0) (doc (Fixtures.plain_state []))
                       Fixtures.plain_outer (InnerDecoRef 0);
         DocViewUpdateOuterDeco (DocViewRef 0) [];
         DocViewDestroy (DocViewRef 0);
         DocViewDesc (doc (Fixtures.plain_state []))
                     Fixtures.plain_outer (InnerDecoRef 0) ].
Proof. split; vm_compute; reflexivity. Qed.


(** ** Applying the same state twice *)

Lemma set_state_same v : set_state (state v) v = v.
Proof. by destruct v. Qed.

Lemma set_editable_same v : set_editable (editable v) v = v.
Proof. by destruct v. Qed.

Lemma set_cursorWrapper_same v : set_cursorWrapper (cursorWrapper v) v = v.
Proof. by destruct v. Qed.

Lemma with_view_same f w : f (view w) = view w -> with_view f w = w.
Proof. destruct w as [v tr]. unfold with_view. cbn. by intros ->. Qed.

Section SameState.
Variable env : Env.

Lemma stopComposition_skip st w :
  is_set (storedMarks st) && composing (view w) = false ->
  stopComposition env st w = (Ok false, w).
Proof.
  intros Hc. unfold stopComposition, bind, get_view. by rewrite Hc.
Qed.

(** After an update that returned normally the view is settled: its state
    is the new one, the composition has ended if the state has stored
    marks, and computing the editable flag and the cursor wrapper again
    gives what the view holds. *)
Lemma update_settles st reconfigured w w1 :
  updateStateInner env st reconfigured w = (Ok tt, w1) ->
  state (view w1) = st
  /\ is_set (storedMarks st) && composing (view w1) = false
  /\ getEditable env (view w1) = Ok (editable (view w1))
  /\ cursorWrapper (view w1)
     = match markCursor (view w1) with
       | Some marks =>
           Some {| cw_pos := sel_head (selection (state (view w1)));
                   cw_marks := marks |}
       | None => None
       end.
Proof.
  intros H.
  assert ((_props (view w1), state (view w1), markCursor (view w1))
          = (_props (view w), st, markCursor (view w))) as F.
  { destruct (updateStateInner_frame env
                (fun v => (_props v, state v, markCursor v))
                ltac:(done) ltac:(done) ltac:(done) ltac:(done) ltac:(done)
                ltac:(done) ltac:(done) st reconfigured w _ _
                ltac:(done) H) as [E|(e & He & _)]; [exact E|discriminate He]. }
  injection F as P S M.
  pose proof H as Hok. apply updateStateInner_ok in Hok.
  destruct Hok as (cleared & _ & _ & _ & _ & _ & _ & _ & _ & _ & _ & Ecl
                  & _ & _ & _ & _ & _ & _ & _ & _ & _ & _ & Hco & _).
  apply updateStateInner_stages in H
    as (b & w2 & redraw & w3 & decos & w4 & old & w5 & w6 & w7
        & H1 & H2 & H3 & H4 & H5 & H6 & H7).
  apply stopComposition_ok in H1 as (_ & _ & V1).
  apply reconfigure_ok in H2 as (_ & _ & nv & V2). cbn in V2.
  apply refreshDecorations_run in H3 as (e & He & V3 & _).
  assert (_props (view w3) = _props (view w)
          /\ state (view w3) = st
          /\ markCursor (view w3) = markCursor (view w)) as (P3 & S3 & M3).
  { rewrite V2, V1. by destruct b. }
  rewrite M3, S3 in V3.
  assert (editable (view w4) = e
          /\ cursorWrapper (view w4)
             = match markCursor (view w) with
               | Some marks =>
                   Some {| cw_pos := sel_head (selection st);
                           cw_marks := marks |}
               | None => None
               end) as [E4 C4] by (by rewrite V3).
  apply storeScroll_ok in H4 as (_ & _ & V4).
  assert (editable (view w6) = editable (view w5)
          /\ cursorWrapper (view w6) = cursorWrapper (view w5)) as [E6 C6].
  { destruct (_ || _ || _) in H5; [|by inversion H5].
    apply resync_ok in H5 as (? & ? & ? & ? & ? & ? & ? & ? & ? & dv & tw & V).
    by rewrite V. }
  assert (editable (view w7) = editable (view w6)
          /\ cursorWrapper (view w7) = cursorWrapper (view w6)) as [E7 C7].
  { split; revert H6; by apply preserves_updatePluginViews. }
  assert (editable (view w1) = editable (view w7)
          /\ cursorWrapper (view w1) = cursorWrapper (view w7)) as [E8 C8].
  { split; revert H7; by apply preserves_scrollAfterUpdate. }
  split; [done|]. split.
  { rewrite Hco, Ecl.
    by destruct (is_set (storedMarks st)), (composing (view w)). }
  split.
  - rewrite (getEditable_of env (view w3)) by congruence.
    rewrite He. f_equal. congruence.
  - rewrite M, S. congruence.
Qed.

(** On a settled view, refreshing the decorations changes nothing: it only
    computes the decorations of the view as it is. *)
Lemma refreshDecorations_settled w :
  getEditable env (view w) = Ok (editable (view w)) ->
  cursorWrapper (view w)
  = match markCursor (view w) with
    | Some marks =>
        Some {| cw_pos := sel_head (selection (state (view w)));
                cw_marks := marks |}
    | None => None
    end ->
  exists outer,
    computeDocDeco env (view w) = Ok outer
    /\ refreshDecorations env w
       = (Ok (viewDecorations env (view w), outer), w).
Proof.
  intros He Hc. eexists. split; [apply computeDocDeco_merge|].
  unfold refreshDecorations, updateCursorWrapper, get_view, lift, modify_view,
    modify, bind, ret.
  rewrite He. cbn.
  rewrite set_editable_same, <- Hc, set_cursorWrapper_same.
  rewrite !with_view_same
    by (cbn; by rewrite ?set_editable_same, <- ?Hc, ?set_cursorWrapper_same).
  by rewrite computeDocDeco_merge.
Qed.

(** C4. Applying to a view the state it already has: when the first
    application returned normally and, on the second, the document view's
    [matchesNode] answers [true] for the unchanged document and the
    decorations of the view as it is (and the selection equals itself),
    the second application does not enter the selection resync: it makes
    no call on the rendered tree, writes no selection, and does not touch
    the observer; the only calls it makes are on the plugin views. The
    document view stays the same object. *)
Theorem same_state_twice st w0 w1 r w2 :
  updateState env st w0 = (Ok tt, w1) ->
  sel_eq env (selection st) (selection st) = true ->
  (forall outer,
      computeDocDeco env (view w1) = Ok outer ->
      matchesNode env (trace w1) (docView (view w1)) (doc st) outer
                  (viewDecorations env (view w1)) = true) ->
  updateState env st w1 = (r, w2) ->
  exists evs,
    trace w2 = trace w1 ++ evs
    /\ Forall plugin_view_event evs
    /\ Forall (fun ev => tree_mutation ev = false
                         /\ selection_write ev = false
                         /\ observer_call ev = false) evs
    /\ docView (view w2) = docView (view w1).
Proof.
  intros H1 Hsel Hmatch H2.
  assert (exists evs, trace w2 = trace w1 ++ evs
                      /\ Forall plugin_view_event evs
                      /\ docView (view w2) = docView (view w1))
    as (evs & T & F & D).
  2:{ exists evs. repeat split; try done.
      eapply Forall_impl; [exact F|]. by intros []. }
  unfold updateState in H1. cbn in H1.
  apply update_settles in H1 as (Hst & Hc & He & Hcw).
  destruct (refreshDecorations_settled w1 He Hcw) as (outer & Ho & Hr).
  specialize (Hmatch outer Ho).
  unfold updateState in H2. cbn in H2. rewrite Hst in H2.
  unfold same_plugins in H2. rewrite Nat.eqb_refl in H2. cbn in H2.
  unfold updateStateInner in H2. cbn in H2.
  apply bind_inv in H2 as [(b & w' & Hb & H2)|(e & Hb & _)];
    rewrite (stopComposition_skip _ _ Hc) in Hb; [|discriminate Hb].
  inversion Hb; subst b w'. clear Hb. cbn in H2.
  rewrite with_view_same in H2 by (rewrite <- Hst; apply set_state_same).
  apply bind_inv in H2 as [([inner outer'] & w3 & H3 & H2)|(e & H3 & _)];
    rewrite Hr in H3; [|discriminate H3].
  inversion H3; subst inner outer' w3. clear H3. cbn in H2.
  rewrite Hmatch, Hsel, Z.ltb_irrefl in H2. cbn in H2.
  assert (exists evs, trace w2 = trace w1 ++ evs
                      /\ Forall plugin_view_event evs) as (evs & T & F).
  { revert H2. apply only_bind; [apply only_updatePluginViews|].
    intros _. apply only_ret. }
  assert (same_state (view w1) (view w2)) as (_ & _ & D).
  { revert H2. apply keeps_bind; [apply keeps_updatePluginViews|].
    intros _. apply keeps_ret. }
  exists evs. by rewrite T, D.
Qed.
End SameState.

Lemma first_apply_trace :
  fst Fixtures.first_apply = Ok tt
  /\ trace (snd Fixtures.first_apply)
     = [ StoreScrollPos; ObserverStop; SelectionToDOM false; ObserverStart;
         ResetScrollPos (ScrollPosRef 1) ]
  /\ trace (snd Fixtures.second_apply) = trace (snd Fixtures.first_apply).
Proof. repeat split; vm_compute; reflexivity. Qed.

(** The matcher of this run compares the decorations: it rejects the ones
    of a view that is not editable. *)
Lemma comparing_rejects :
  exists outer,
    computeDocDeco Fixtures.comparing
      (set_editable false (view (snd Fixtures.first_apply))) = Ok outer
    /\ matchesNode Fixtures.comparing [] (DocViewRef 0)
                   (doc (Fixtures.plain_state [])) outer (InnerDecoRef 0)
       = false.
Proof. eexists. split; [apply computeDocDeco_merge|reflexivity]. Qed.

Lemma same_state_twice_witness :
  exists evs,
    trace (snd Fixtures.second_apply) = trace (snd Fixtures.first_apply) ++ evs
    /\ Forall plugin_view_event evs
    /\ Forall (fun ev => tree_mutation ev = false
                        /\ selection_write ev = false
                        /\ observer_call ev = false) evs
    /\ docView (view (snd Fixtures.second_apply))
       = docView (view (snd Fixtures.first_apply)).
Proof.
  apply (same_state_twice Fixtures.comparing
           (Fixtures.two_paragraphs (Fixtures.text_selection 6 8 6))
           Fixtures.first_paragraph_world (snd Fixtures.first_apply)
           (fst Fixtures.second_apply) (snd Fixtures.second_apply)).
  - apply pair_of_fst. vm_compute; reflexivity.
  - reflexivity.
  - intros outer H. rewrite computeDocDeco_merge in H.
    inversion H; subst outer. reflexivity.
  - apply surjective_pairing.
Defined.
